(** * aptly: the published-repository model of [debian/publish.go]

    A shallow embedding of [PublishedRepo], its constructor
    [NewPublishedRepo], the [Publish] pipeline, [RemoveFiles] and the
    [PublishedRepoCollection] registry, together with the properties the
    specification states about them.

    Go strings are byte strings: they are modelled by [string] (a list of
    8-bit [ascii] characters).  Maps are stdpp's [gmap]. *)

From Stdlib Require Import Ascii String DecimalString.
From stdpp Require Import base tactics option list sorting strings gmap.

Local Open Scope string_scope.
Local Open Scope list_scope.

(** ** The Go standard library functions the file calls *)

(** [strings.Split(s, sep)] for a one-byte separator: the pieces of [s]
    between the occurrences of [sep]; a string without separator gives a
    single piece, the empty string included. *)
Fixpoint strings_Split (s : string) (sep : ascii) : list string :=
  match s with
  | EmptyString => [EmptyString]
  | String c s' =>
      if decide (c = sep) then EmptyString :: strings_Split s' sep
      else match strings_Split s' sep with
           | x :: xs => String c x :: xs
           | [] => [String c EmptyString]
           end
  end.

(** [strings.Join(a, sep)]. *)
Fixpoint strings_Join (a : list string) (sep : string) : string :=
  match a with
  | [] => ""
  | [x] => x
  | x :: rest => x +:+ sep +:+ strings_Join rest sep
  end.

(** [strings.HasPrefix(s, prefix)]:
    [len(s) >= len(prefix) && s[0:len(prefix)] == prefix]. *)
Definition strings_HasPrefix (s prefix : string) : bool :=
  bool_decide (String.length prefix <= String.length s)
  && bool_decide (String.substring 0 (String.length prefix) s = prefix).

(** [strings.HasSuffix(s, suffix)]:
    [len(s) >= len(suffix) && s[len(s)-len(suffix):] == suffix]. *)
Definition strings_HasSuffix (s suffix : string) : bool :=
  bool_decide (String.length suffix <= String.length s)
  && bool_decide (String.substring (String.length s - String.length suffix)
                                   (String.length suffix) s = suffix).

(** The slice expressions [s[1:]] and [s[:len(s)-1]]. *)
Definition slice_from (n : nat) (s : string) : string :=
  String.substring n (String.length s - n) s.
Definition slice_to (n : nat) (s : string) : string :=
  String.substring 0 n s.

(** [sort.Strings]: sorts in increasing byte-wise lexicographic order. *)
Definition sort_Strings (l : list string) : list string :=
  merge_sort String.le l.

(** *** [path/filepath.Clean] and [path/filepath.Join] (Unix)

    [Clean] works element by element: empty elements and [.] are dropped,
    [..] cancels the real element before it, is dropped at the root of a
    rooted path, and is kept at the start of a relative path.  The elements
    kept so far are held most recent first; the buffer of the Go code is
    their rendering. *)
Definition can_backtrack (out : list string) : bool :=
  match out with
  | top :: _ => bool_decide (top <> "..")
  | [] => false
  end.

Definition clean_element (rooted : bool) (out : list string) (e : string)
  : list string :=
  if decide (e = "") then out
  else if decide (e = ".") then out
  else if decide (e = "..") then
    if can_backtrack out then tail out
    else if rooted then out
    else ".." :: out
  else e :: out.

Definition clean_render (rooted : bool) (out : list string) : string :=
  (if rooted then "/" else "") +:+ strings_Join (rev out) "/".

Definition filepath_Clean (path : string) : string :=
  if decide (path = "") then "."
  else
    let rooted := strings_HasPrefix path "/" in
    let out := fold_left (clean_element rooted) (strings_Split path "/") [] in
    let buf := clean_render rooted out in
    if decide (buf = "") then "." else buf.

(** [filepath.Join(elem...)]: leading empty elements are skipped, the rest
    is joined with the separator and cleaned; all empty gives [""]. *)
Fixpoint filepath_Join (elem : list string) : string :=
  match elem with
  | [] => ""
  | e :: rest =>
      if decide (e = "") then filepath_Join rest
      else filepath_Clean (strings_Join elem "/")
  end.

(** ** Errors and results

    A Go [error] is made by [fmt.Errorf] in this package or handed over by
    a collaborator (storage, database, signer, ...); [Error] is its
    message. *)
Inductive error : Type :=
| Errorf (msg : string)
| Foreign (msg : string).

Definition Error (e : error) : string :=
  match e with Errorf m => m | Foreign m => m end.

Global Instance error_eq_dec : EqDecision error.
Proof. solve_decision. Defined.

(** What a call does: it returns a value, returns an error, or panics. *)
Inductive result (A : Type) : Type :=
| Ok (a : A)
| Err (e : error)
| Panic (msg : string).
Arguments Ok {A} a.
Arguments Err {A} e.
Arguments Panic {A} msg.

(** ** The source graph *)

(** Modelled from the spec: the declaration of [Snapshot] is not among the
    sources; these are the fields [NewPublishedRepo] reads (section 3.2). *)
Module Snapshot.
Record t : Type := Build
  { UUID : string;
    SourceKind : string;
    SourceIDs : list string }.
End Snapshot.

(** Modelled from the spec: the declaration of [LocalRepo] is not among
    the sources; these are the fields [NewPublishedRepo] reads. *)
Module LocalRepo.
Record t : Type := Build
  { UUID : string;
    DefaultDistribution : string;
    DefaultComponent : string }.
End LocalRepo.

(** Modelled from the spec: the declaration of [RemoteRepo] is not among
    the sources; these are the fields [NewPublishedRepo] reads. *)
Module RemoteRepo.
Record t : Type := Build
  { Distribution : string;
    Components : list string }.
End RemoteRepo.

(** A value held in an [interface{}]: one of the three node types of the
    source graph, or anything else. *)
Inductive Value : Type :=
| VSnapshot (s : Snapshot.t)
| VLocalRepo (l : LocalRepo.t)
| VRemoteRepo (r : RemoteRepo.t)
| VOther.

(** The three [ByUUID] lookups reached through the collection factory;
    [None] is a lookup that returns an error. *)
Record CollectionFactory : Type :=
  { RemoteRepoCollection_ByUUID : string -> option RemoteRepo.t;
    LocalRepoCollection_ByUUID : string -> option LocalRepo.t;
    SnapshotCollection_ByUUID : string -> option Snapshot.t }.

(** ** PublishedRepo *)

Record PublishedRepo : Type :=
  { UUID : string;
    Prefix : string;
    Distribution : string;
    Component : string;
    Architectures : list string;
    SourceKind : string;
    SourceUUID : string;
    snapshot : option Snapshot.t;
    localRepo : option LocalRepo.t }.

(** *** NewPublishedRepo: the prefix *)

(** Lines 67-74: clean, drop one leading and one trailing slash, clean. *)
Definition normalize_prefix (prefix : string) : string :=
  let prefix := filepath_Clean prefix in
  let prefix := if strings_HasPrefix prefix "/" then slice_from 1 prefix
                else prefix in
  let prefix := if strings_HasSuffix prefix "/"
                then slice_to (String.length prefix - 1) prefix
                else prefix in
  filepath_Clean prefix.

(** Lines 76-80: the test of the loop body on one part. *)
Definition forbidden_part (part : string) : bool :=
  bool_decide (part = "..") || bool_decide (part = "dists")
  || bool_decide (part = "pool").

Definition invalid_prefix (prefix : string) : bool :=
  existsb forbidden_part (strings_Split prefix "/").

(** *** NewPublishedRepo: the walk up the source graph *)

(** Lines 99-119: the sources of a snapshot are appended to the frontier;
    a failed lookup, or an unknown [SourceKind], appends nothing. *)
Definition push_source (cf : CollectionFactory) (snapshot : Snapshot.t)
    (current : list Value) (uuid : string) : list Value :=
  if decide (Snapshot.SourceKind snapshot = "repo") then
    match RemoteRepoCollection_ByUUID cf uuid with
    | None => current
    | Some remoteRepo => current ++ [VRemoteRepo remoteRepo]
    end
  else if decide (Snapshot.SourceKind snapshot = "local") then
    match LocalRepoCollection_ByUUID cf uuid with
    | None => current
    | Some localRepo => current ++ [VLocalRepo localRepo]
    end
  else if decide (Snapshot.SourceKind snapshot = "snapshot") then
    match SnapshotCollection_ByUUID cf uuid with
    | None => current
    | Some snap => current ++ [VSnapshot snap]
    end
  else current.

(** Lines 95-135.  The loop runs while the frontier is not empty; it need
    not end on a cyclic graph, so the model counts iterations: [None] is a
    walk that has not finished within [fuel] iterations. *)
Fixpoint walk (fuel : nat) (cf : CollectionFactory) (current : list Value)
    (rootComponents rootDistributions : list string)
  : option (result (list string * list string)) :=
  match current with
  | [] => Some (Ok (rootComponents, rootDistributions))
  | head :: current =>
      match fuel with
      | O => None
      | S fuel =>
          match head with
          | VSnapshot snapshot =>
              walk fuel cf
                   (fold_left (push_source cf snapshot)
                              (Snapshot.SourceIDs snapshot) current)
                   rootComponents rootDistributions
          | VLocalRepo localRepo =>
              let rootDistributions :=
                if decide (LocalRepo.DefaultDistribution localRepo <> "")
                then rootDistributions ++ [LocalRepo.DefaultDistribution localRepo]
                else rootDistributions in
              let rootComponents :=
                if decide (LocalRepo.DefaultComponent localRepo <> "")
                then rootComponents ++ [LocalRepo.DefaultComponent localRepo]
                else rootComponents in
              walk fuel cf current rootComponents rootDistributions
          | VRemoteRepo remoteRepo =>
              let rootDistributions :=
                if decide (RemoteRepo.Distribution remoteRepo <> "")
                then rootDistributions ++ [RemoteRepo.Distribution remoteRepo]
                else rootDistributions in
              walk fuel cf current
                   (rootComponents ++ RemoteRepo.Components remoteRepo)
                   rootDistributions
          | VOther => Some (Panic "unknown type")
          end
      end
  end.

(** [len(l) > 0 && l[0] == l[len(l)-1]] on a sorted slice, giving [l[0]]. *)
Definition unanimous (l : list string) : option string :=
  match l with
  | [] => None
  | first :: _ =>
      if decide (Some first = last l) then Some first else None
  end.

(** Lines 137-144. *)
Definition guess_distribution (distribution : string)
    (rootDistributions : list string) : result string :=
  if decide (distribution = "") then
    match unanimous (sort_Strings rootDistributions) with
    | Some d => Ok d
    | None =>
        Err (Errorf "unable to guess distribution name, please specify explicitly")
    end
  else Ok distribution.

(** Lines 146-153. *)
Definition guess_component (component : string)
    (rootComponents : list string) : string :=
  if decide (component = "") then
    match unanimous (sort_Strings rootComponents) with
    | Some c => c
    | None => "main"
    end
  else component.

(** *** NewPublishedRepo

    [newUUID] is the value [uuid.New()] returns; [fuel] bounds the walk. *)
Definition NewPublishedRepo (fuel : nat) (newUUID : string)
    (prefix distribution component : string) (architectures : list string)
    (source : Value) (collectionFactory : CollectionFactory)
  : option (result PublishedRepo) :=
  (* figure out source *)
  let kind : result (string * string * option Snapshot.t * option LocalRepo.t) :=
    match source with
    | VSnapshot s => Ok ("snapshot", Snapshot.UUID s, Some s, None)
    | VLocalRepo l => Ok ("local", LocalRepo.UUID l, None, Some l)
    | _ => Panic "unknown source kind"
    end in
  match kind with
  | Panic msg => Some (Panic msg)
  | Err e => Some (Err e)
  | Ok (sourceKind, sourceUUID, snap, lrepo) =>
      (* clean & verify prefix *)
      let prefix := normalize_prefix prefix in
      if invalid_prefix prefix then
        Some (Err (Errorf ("invalid prefix " +:+ prefix)))
      else
        let finish (distribution component : string) :=
          {| UUID := newUUID; Prefix := prefix;
             Distribution := distribution; Component := component;
             Architectures := architectures;
             SourceKind := sourceKind; SourceUUID := sourceUUID;
             snapshot := snap; localRepo := lrepo |} in
        (* guessing distribution & component *)
        if bool_decide (component = "") || bool_decide (distribution = "") then
          match walk fuel collectionFactory [source] [] [] with
          | None => None
          | Some (Panic msg) => Some (Panic msg)
          | Some (Err e) => Some (Err e)
          | Some (Ok (rootComponents, rootDistributions)) =>
              match guess_distribution distribution rootDistributions with
              | Ok distribution =>
                  Some (Ok (finish distribution
                              (guess_component component rootComponents)))
              | Err e => Some (Err e)
              | Panic msg => Some (Panic msg)
              end
          end
        else Some (Ok (finish distribution component))
  end.

(** ** Calls on collaborators

    A call on a collaborator takes the collaborator's state and gives what
    the call returns together with the new state. *)
Definition M (S A : Type) : Type := S -> result A * S.

Definition ret {S A : Type} (a : A) : M S A := fun s => (Ok a, s).

Definition bind {S A B : Type} (m : M S A) (k : A -> M S B) : M S B :=
  fun s =>
    match m s with
    | (Ok a, s') => k a s'
    | (Err e, s') => (Err e, s')
    | (Panic msg, s') => (Panic msg, s')
    end.

(** [if err != nil { return fmt.Errorf(format, err) }]. *)
Definition wrap {S A : Type} (format : string) (m : M S A) : M S A :=
  fun s =>
    match m s with
    | (Err e, s') => (Err (Errorf (format +:+ Error e)), s')
    | other => other
    end.

Declare Scope go_scope.
Delimit Scope go_scope with go.
Notation "x <- m ;; k" := (bind m (fun x => k))
  (at level 20, m at level 99, k at level 200, only parsing) : go_scope.
Notation "m ;;; k" := (bind m (fun _ => k))
  (at level 100, k at level 200, only parsing, right associativity) : go_scope.

(** A collaborator (storage, database, signer, ...) answers with a value or
    with an error, given here by its message; [call] is the call as this
    package sees it. *)
Definition Reply (S A : Type) : Type := S -> (A + string) * S.

Definition call {S A : Type} (c : Reply S A) : M S A :=
  fun s =>
    match c s with
    | (inl a, s') => (Ok a, s')
    | (inr msg, s') => (Err (Foreign msg), s')
    end.

(** The file a [CreateFile] call opens is identified by the name its
    [Name()] reports. *)
Definition File : Type := string.

(** Modelled from the spec: [utils.ChecksumInfo] is not among the sources;
    size and the three digests, as [Publish] formats them. *)
Record ChecksumInfo : Type :=
  { Size : Z; MD5 : string; SHA1 : string; SHA256 : string }.

(** The interface [aptly.PublishedStorage], over the state [S] of the
    published tree. *)
Class PublishedStorage (S : Type) : Type :=
  { MkDir : string -> Reply S unit;
    CreateFile : string -> Reply S File;
    RemoveDirs : string -> Reply S unit;
    ChecksumsForFile : string -> Reply S ChecksumInfo }.

(** The interface [database.Storage], over the state [D] of the store. *)
Class Database (D : Type) : Type :=
  { Put : string -> string -> Reply D unit;
    Delete : string -> Reply D unit;
    FetchByPrefix : string -> D -> list string }.

(** The msgpack codec ([codec.NewEncoder(..).Encode(p)] and
    [codec.NewDecoderBytes(..).Decode(p)]) on a [PublishedRepo]: only the
    exported fields travel, [SourceUUID] under the name [SnapshotUUID];
    decoding fills the receiver. *)
Class Codec : Type :=
  { codec_Encode : PublishedRepo -> string;
    codec_Decode : string -> PublishedRepo -> result PublishedRepo }.

(** *** Key, Encode, Decode *)

Definition Key (p : PublishedRepo) : string :=
  "U" +:+ Prefix p +:+ ">>" +:+ Distribution p.

Definition Encode `{Codec} (p : PublishedRepo) : string := codec_Encode p.

Definition set_SourceKind (p : PublishedRepo) (k : string) : PublishedRepo :=
  {| UUID := UUID p; Prefix := Prefix p; Distribution := Distribution p;
     Component := Component p; Architectures := Architectures p;
     SourceKind := k; SourceUUID := SourceUUID p;
     snapshot := snapshot p; localRepo := localRepo p |}.

Definition set_Architectures (p : PublishedRepo) (architectures : list string)
  : PublishedRepo :=
  {| UUID := UUID p; Prefix := Prefix p; Distribution := Distribution p;
     Component := Component p; Architectures := architectures;
     SourceKind := SourceKind p; SourceUUID := SourceUUID p;
     snapshot := snapshot p; localRepo := localRepo p |}.

(** [Decode] returns the receiver as the decoder left it and the error. *)
Definition Decode `{Codec} (p : PublishedRepo) (input : string)
  : result PublishedRepo :=
  match codec_Decode input p with
  | Ok p =>
      (* old PublishedRepo were publishing only snapshots *)
      if decide (SourceKind p = "") then Ok (set_SourceKind p "snapshot")
      else Ok p
  | other => other
  end.

(** *** RemoveFiles *)

Definition RemoveFiles {St : Type} `{PublishedStorage St} (p : PublishedRepo)
    (removePrefix removePoolComponent : bool) : M St unit :=
  (if removePrefix then
     call (RemoveDirs (filepath_Join [Prefix p; "dists"])) ;;;
     call (RemoveDirs (filepath_Join [Prefix p; "pool"]))
   else
     call (RemoveDirs (filepath_Join [Prefix p; "dists"; Distribution p])) ;;;
     if removePoolComponent then
       call (RemoveDirs (filepath_Join [Prefix p; "pool"; Component p]))
     else ret tt)%go.

(** ** Publish *)

(** A control-file stanza, [map[string]string]. *)
Abbreviation Stanza := (gmap string string).

(** [filepath.Dir]: the path up to its last separator, cleaned. *)
Fixpoint up_to_last_slash (s : string) : string :=
  match s with
  | EmptyString => ""
  | String c s' =>
      let r := up_to_last_slash s' in
      if decide (c = "/"%char) then String c r
      else if decide (r = "") then "" else String c r
  end.

Definition filepath_Dir (path : string) : string :=
  filepath_Clean (up_to_last_slash path).

(** The verb [%8d] of [fmt.Sprintf]: decimal, padded with spaces on the
    left to eight characters. *)
Definition fmt_d (z : Z) : string := NilZero.string_of_int (Z.to_int z).

Fixpoint spaces (n : nat) : string :=
  match n with
  | O => ""
  | Datatypes.S n => String " " (spaces n)
  end.

Definition fmt_8d (z : Z) : string :=
  let s := fmt_d z in spaces (8 - String.length s) +:+ s.

(** Modelled from the spec: [utils.StrSlicesSubstract] is not among the
    sources; the strings of [l] without those of [r] ("with the [source]
    pseudo-architecture removed"). *)
Definition StrSlicesSubstract (l r : list string) : list string :=
  filter (fun s => s ∉ r) l.

(** [release[key] += s]: a missing key reads as the empty string. *)
Definition stanza_append (key s : string) (release : Stanza) : Stanza :=
  <[key := (release !!! key) +:+ s]> release.

(** Lines 350-366: the Release stanza.  [date] is
    [time.Now().UTC().Format("Mon, 2 Jan 2006 15:04:05 MST")];
    [generatedFiles] is the map of generated files in the order the [range]
    loop visits it, which Go leaves open. *)
Definition release_stanza (p : PublishedRepo) (date : string)
    (generatedFiles : list (string * ChecksumInfo)) : Stanza :=
  let release : Stanza := ∅ in
  let release := <["Origin" := Prefix p +:+ " " +:+ Distribution p]> release in
  let release := <["Label" := Prefix p +:+ " " +:+ Distribution p]> release in
  let release := <["Codename" := Distribution p]> release in
  let release := <["Date" := date]> release in
  let release := <["Components" := Component p]> release in
  let release :=
    <["Architectures" :=
        strings_Join (StrSlicesSubstract (Architectures p) ["source"]) " "]>
      release in
  let release := <["Description" := " Generated by aptly" +:+ "
"]> release in
  let release := <["MD5Sum" := "
"]> release in
  let release := <["SHA1" := "
"]> release in
  let release := <["SHA256" := "
"]> release in
  fold_left
    (fun release '(path, info) =>
       let line (hash : string) :=
         " " +:+ hash +:+ " " +:+ fmt_8d (Size info) +:+ " " +:+ path +:+ "
" in
       stanza_append "SHA256" (line (SHA256 info))
         (stanza_append "SHA1" (line (SHA1 info))
            (stanza_append "MD5Sum" (line (MD5 info)) release)))
    generatedFiles release.

(** What [Publish] needs besides the published storage, over the same
    state: the package collection and pool, the files it writes, the clock
    and the signer.  [Pkg] is [*Package], [RefList] is [*PackageRefList];
    a [*PackageList] is the sequence of packages [ForEach] visits, and
    [Len] its length. *)
Class Publishing (St Pkg RefList : Type) : Type :=
  { Snapshot_RefList : Snapshot.t -> RefList;
    LocalRepo_RefList : LocalRepo.t -> RefList;
    NewPackageListFromRefList : RefList -> Reply St (list Pkg);
    PackageList_Architectures : list Pkg -> bool -> list string;
    MatchesArchitecture : Pkg -> string -> bool;
    LinkFromPool : Pkg -> string -> string -> Reply St unit;
    Package_Stanza : Pkg -> Stanza;
    Stanza_WriteTo : Stanza -> File -> Reply St unit;
    WriteByte : ascii -> File -> Reply St unit;
    Flush : File -> Reply St unit;
    CompressFile : File -> Reply St unit;
    Close : File -> St -> St;
    time_Now : St -> string;
    range_generatedFiles :
      gmap string ChecksumInfo -> list (string * ChecksumInfo);
    DetachedSign : string -> string -> Reply St unit;
    ClearSign : string -> string -> Reply St unit }.

Section Publish.
Context {St Pkg RefList : Type}.
Context `{PublishedStorage St} `{Publishing St Pkg RefList}.

Definition panic {A : Type} (msg : string) : M St A :=
  fun st => (Panic msg, st).

Definition basePath (p : PublishedRepo) : string :=
  filepath_Join [Prefix p; "dists"; Distribution p].

(** Lines 209-237: the two directories, the reference list of the
    source, the packages. *)
Definition load_packages (p : PublishedRepo) : M St (list Pkg) :=
  (call (MkDir (filepath_Join [Prefix p; "pool"])) ;;;
   call (MkDir (basePath p)) ;;;
   refList <-
     match snapshot p, localRepo p with
     | Some s, _ => ret (Snapshot_RefList s)
     | None, Some l => ret (LocalRepo_RefList l)
     | None, None => panic "no source"
     end ;;
   wrap "unable to load packages: "
        (call (NewPackageListFromRefList refList)))%go.

(** Lines 239-251: the receiver with its architectures settled and
    sorted, or the error. *)
Definition settle_architectures (p : PublishedRepo) (packages : list Pkg)
  : result PublishedRepo :=
  if decide (length packages = 0) then Err (Errorf "snapshot is empty")
  else
    let architectures :=
      if decide (length (Architectures p) = 0)
      then PackageList_Architectures packages true
      else Architectures p in
    if decide (length architectures = 0) then
      Err (Errorf "unable to figure out list of architectures, please supply explicit list")
    else Ok (set_Architectures p (sort_Strings architectures)).

(** Modelled from the spec: [PackageList.ForEach] is not among the
    sources; it calls the handler on each package and stops at the first
    error. *)
Fixpoint ForEach (packages : list Pkg) (handler : Pkg -> M St unit)
  : M St unit :=
  match packages with
  | [] => ret tt
  | pkg :: packages => (handler pkg ;;; ForEach packages handler)%go
  end.

(** Lines 260-348: the body of the loop over the architectures. *)
Definition publish_architecture (p : PublishedRepo) (packages : list Pkg)
    (generatedFiles : gmap string ChecksumInfo) (arch : string)
  : M St (gmap string ChecksumInfo) :=
  let relativePath :=
    if decide (arch = "source")
    then filepath_Join [Component p; "source"; "Sources"]
    else filepath_Join [Component p; "binary-" +:+ arch; "Packages"] in
  (call (MkDir (filepath_Dir (filepath_Join [basePath p; relativePath]))) ;;;
   packagesFile <-
     wrap "unable to creates Packages file: "
          (call (CreateFile (filepath_Join [basePath p; relativePath]))) ;;
   wrap "unable to process packages: "
     (ForEach packages (fun pkg =>
        if MatchesArchitecture pkg arch then
          call (LinkFromPool pkg (Prefix p) (Component p)) ;;;
          call (Stanza_WriteTo (Package_Stanza pkg) packagesFile) ;;;
          call (WriteByte "010"%char packagesFile)
        else ret tt)) ;;;
   wrap "unable to write Packages file: " (call (Flush packagesFile)) ;;;
   wrap "unable to compress Packages files: "
        (call (CompressFile packagesFile)) ;;;
   (fun st => (Ok tt, Close packagesFile st)) ;;;
   checksumInfo <-
     wrap "unable to collect checksums: "
          (call (ChecksumsForFile (filepath_Join [basePath p; relativePath]))) ;;
   let generatedFiles := <[relativePath := checksumInfo]> generatedFiles in
   checksumInfo <-
     wrap "unable to collect checksums: "
          (call (ChecksumsForFile
                   (filepath_Join [basePath p; relativePath +:+ ".gz"]))) ;;
   let generatedFiles :=
     <[relativePath +:+ ".gz" := checksumInfo]> generatedFiles in
   checksumInfo <-
     wrap "unable to collect checksums: "
          (call (ChecksumsForFile
                   (filepath_Join [basePath p; relativePath +:+ ".bz2"]))) ;;
   let generatedFiles :=
     <[relativePath +:+ ".bz2" := checksumInfo]> generatedFiles in
   ret generatedFiles)%go.

Fixpoint publish_architectures (p : PublishedRepo) (packages : list Pkg)
    (generatedFiles : gmap string ChecksumInfo) (archs : list string)
  : M St (gmap string ChecksumInfo) :=
  match archs with
  | [] => ret generatedFiles
  | arch :: archs =>
      (generatedFiles <- publish_architecture p packages generatedFiles arch ;;
       publish_architectures p packages generatedFiles archs)%go
  end.

(** Lines 368-403: the Release file is created, the stanza written, the
    file signed when there is a signer. *)
Definition write_release (p : PublishedRepo) (release : Stanza)
    (signer : bool) : M St unit :=
  (releaseFile <-
     wrap "unable to create Release file: "
          (call (CreateFile (filepath_Join [basePath p; "Release"]))) ;;
   wrap "unable to create Release file: "
        (call (Stanza_WriteTo release releaseFile)) ;;;
   wrap "unable to create Release file: " (call (Flush releaseFile)) ;;;
   let releaseFilename : string := releaseFile in
   (fun st => (Ok tt, Close releaseFile st)) ;;;
   if signer then
     wrap "unable to sign Release file: "
          (call (DetachedSign releaseFilename (releaseFilename +:+ ".gpg"))) ;;;
     wrap "unable to sign Release file: "
          (call (ClearSign releaseFilename
                   (filepath_Join [filepath_Dir releaseFilename; "InRelease"])))
   else ret tt)%go.

(** Lines 253-403, once the architectures are settled. *)
Definition materialize (p : PublishedRepo) (packages : list Pkg) (signer : bool)
  : M St unit :=
  (generatedFiles <- publish_architectures p packages ∅ (Architectures p) ;;
   date <- (fun st => (Ok (time_Now st), st)) ;;
   write_release p
     (release_stanza p date (range_generatedFiles generatedFiles)) signer)%go.

(** [Publish] sets [p.Architectures], so it gives the receiver back with
    what it returns.  [signer] says whether a signer is given.  The
    progress output and the release of the package buffers change nothing
    that [Publish] returns or writes; they are left out. *)
Definition Publish (p : PublishedRepo) (signer : bool) (st : St)
  : result unit * St * PublishedRepo :=
  match load_packages p st with
  | (Ok packages, st) =>
      match settle_architectures p packages with
      | Ok p =>
          let '(r, st) := materialize p packages signer st in (r, st, p)
      | Err e => (Err e, st, p)
      | Panic msg => (Panic msg, st, p)
      end
  | (Err e, st) => (Err e, st, p)
  | (Panic msg, st) => (Panic msg, st, p)
  end.
End Publish.

(** ** PublishedRepoCollection

    The list holds pointers: a [PublishedRepo] in the list is an address,
    and [heap] gives the struct found there.  Two entries are the same
    entry ([r == repo]) when the addresses are equal. *)
Definition ptr : Type := nat.

Record PublishedRepoCollection (D : Type) : Type :=
  { db : D;
    list_ : list ptr }.
Arguments db {D} _.
Arguments list_ {D} _.

Section Collection.
Context {St D : Type} `{PublishedStorage St} `{Database D} `{Codec}.
Variable heap : ptr -> PublishedRepo.

Definition same_name (prefix distribution : string) (r : ptr) : bool :=
  bool_decide (Prefix (heap r) = prefix)
  && bool_decide (Distribution (heap r) = distribution).

(** CheckDuplicate: the first entry with the prefix and distribution of
    [repo], or nil. *)
Definition CheckDuplicate (collection : PublishedRepoCollection D)
    (repo : ptr) : option ptr :=
  find (same_name (Prefix (heap repo)) (Distribution (heap repo)))
       (list_ collection).

(** Update stores the encoded repo under its key. *)
Definition Update (collection : PublishedRepoCollection D) (repo : ptr)
  : result unit * PublishedRepoCollection D :=
  let '(r, d) :=
    call (Put (Key (heap repo)) (Encode (heap repo))) (db collection) in
  (r, {| db := d; list_ := list_ collection |}).

Definition Add (collection : PublishedRepoCollection D) (repo : ptr)
  : result unit * PublishedRepoCollection D :=
  match CheckDuplicate collection repo with
  | Some _ =>
      (Err (Errorf ("published repo with prefix/distribution "
                      +:+ Prefix (heap repo) +:+ "/"
                      +:+ Distribution (heap repo) +:+ " already exists")),
       collection)
  | None =>
      match Update collection repo with
      | (Ok _, collection) =>
          (Ok tt, {| db := db collection;
                     list_ := list_ collection ++ [repo] |})
      | (other, collection) => (other, collection)
      end
  end.

Definition ByPrefixDistribution (collection : PublishedRepoCollection D)
    (prefix distribution : string) : result ptr :=
  match find (same_name prefix distribution) (list_ collection) with
  | Some r => Ok r
  | None =>
      Err (Errorf ("published repo with prefix/distribution "
                     +:+ prefix +:+ "/" +:+ distribution +:+ " not found"))
  end.

Definition Len (collection : PublishedRepoCollection D) : nat :=
  length (list_ collection).

(** The loop of [Remove] (lines 578-593) from index [i] on: the two
    flags and [repoPosition]. *)
Fixpoint remove_scan (repo : ptr) (i : Z) (l : list ptr)
    (removePrefix removePoolComponent : bool) (repoPosition : Z)
  : bool * bool * Z :=
  match l with
  | [] => (removePrefix, removePoolComponent, repoPosition)
  | r :: l =>
      if decide (r = repo) then
        remove_scan repo (i + 1) l removePrefix removePoolComponent i
      else if decide (Prefix (heap r) = Prefix (heap repo)) then
        remove_scan repo (i + 1) l false
          (if decide (Component (heap r) = Component (heap repo))
           then false else removePoolComponent)
          repoPosition
      else
        remove_scan repo (i + 1) l removePrefix removePoolComponent
                    repoPosition
  end.

(** Lines 600-601: the last entry is moved to [repoPosition] and the
    list loses its last slot (the nil goes into the slot that is cut
    off).  An index out of range panics. *)
Definition drop_position (l : list ptr) (repoPosition : Z)
  : option (list ptr) :=
  match last l with
  | None => None
  | Some final =>
      if decide (0 <= repoPosition < Z.of_nat (length l))%Z then
        Some (take (length l - 1) (<[Z.to_nat repoPosition := final]> l))
      else None
  end.

Definition Remove (publishedStorage : St)
    (collection : PublishedRepoCollection D) (prefix distribution : string)
  : result unit * St * PublishedRepoCollection D :=
  match ByPrefixDistribution collection prefix distribution with
  | Ok repo =>
      let '(removePrefix, removePoolComponent, repoPosition) :=
        remove_scan repo 0 (list_ collection) true true (-1) in
      match RemoveFiles (heap repo) removePrefix removePoolComponent
                        publishedStorage with
      | (Ok _, publishedStorage) =>
          match drop_position (list_ collection) repoPosition with
          | Some l =>
              let '(r, d) :=
                call (Delete (Key (heap repo))) (db collection) in
              (r, publishedStorage, {| db := d; list_ := l |})
          | None =>
              (Panic "runtime error: index out of range",
               publishedStorage, collection)
          end
      | (other, publishedStorage) => (other, publishedStorage, collection)
      end
  | Err e => (Err e, publishedStorage, collection)
  | Panic msg => (Panic msg, publishedStorage, collection)
  end.
End Collection.

(** ** Observing and instantiating the collaborators *)

(** A call made on the published storage. *)
Inductive Call : Type :=
| CallMkDir (path : string)
| CallCreateFile (path : string)
| CallRemoveDirs (path : string)
| CallChecksumsForFile (path : string).

Global Instance Call_eq_dec : EqDecision Call.
Proof. solve_decision. Defined.

Definition recorded {St A : Type} (c : Call) (m : Reply St A)
  : Reply (St * list Call) A :=
  fun s =>
    let '(r, s') := m (fst s) in (r, (s', snd s ++ [c])).

(** Any published storage, with the calls made on it written down in
    order. *)
Global Instance recording (St : Type) `{PublishedStorage St}
  : PublishedStorage (St * list Call) :=
  {| MkDir path := recorded (CallMkDir path) (MkDir path);
     CreateFile path := recorded (CallCreateFile path) (CreateFile path);
     RemoveDirs path := recorded (CallRemoveDirs path) (RemoveDirs path);
     ChecksumsForFile path :=
       recorded (CallChecksumsForFile path) (ChecksumsForFile path) |}.

(** A published tree held in memory, as the set of paths that exist in it:
    removing a path that is not there is an error. *)
Definition MemStorage : Type := list string.

Definition under (path entry : string) : bool :=
  bool_decide (entry = path) || String.prefix (path +:+ "/") entry.

Global Instance mem_storage : PublishedStorage MemStorage :=
  {| MkDir path := fun st => (inl tt, path :: st);
     CreateFile path := fun st => (inl path, path :: st);
     RemoveDirs path := fun st =>
       if existsb (under path) st
       then (inl tt, filter (fun e => negb (under path e)) st)
       else (inr ("remove " +:+ path +:+ ": no such file or directory"), st);
     ChecksumsForFile path := fun st =>
       if bool_decide (path ∈ st)
       then (inl {| Size := 0; MD5 := "d41d8cd98f00b204e9800998ecf8427e";
                   SHA1 := "da39a3ee5e6b4b0d3255bfef95601890afd80709";
                   SHA256 := "e3b0c44298fc1c149afbf4c8996fb92427ae41e4649b934ca495991b7852b855" |}, st)
       else (inr ("open " +:+ path +:+ ": no such file or directory"), st) |}.

(** A key-value store held in memory. *)
Global Instance mem_database : Database (gmap string string) :=
  {| Put key value := fun d => (inl tt, <[key := value]> d);
     Delete key := fun d => (inl tt, delete key d);
     FetchByPrefix prefix := fun d =>
       (map_to_list (filter (fun kv => String.prefix prefix kv.1 = true) d)).*2 |}.

(** *** A msgpack codec for [PublishedRepo]

    The record is a map from the field names to the values; a string is
    [fixstr], [str 8], [str 16] or [str 32] by its length, the list of
    architectures is an array of strings.  The decoder reads such maps,
    with the fields in any order and any of them missing; a field that is
    missing keeps the value the receiver has. *)
Module Msgpack.
Definition byte (n : N) : string := String (ascii_of_N n) "".

Definition be16 (n : N) : string :=
  byte (n / 256)%N +:+ byte (n mod 256)%N.
Definition be32 (n : N) : string :=
  be16 (n / 65536)%N +:+ be16 (n mod 65536)%N.

Definition put_str (s : string) : string :=
  let n := N.of_nat (String.length s) in
  (if decide (n < 32)%N then byte (160 + n)%N
   else if decide (n < 256)%N then byte 217 +:+ byte n
   else if decide (n < 65536)%N then byte 218 +:+ be16 n
   else byte 219 +:+ be32 n) +:+ s.

Definition put_array_header (n : N) : string :=
  if decide (n < 16)%N then byte (144 + n)%N
  else if decide (n < 65536)%N then byte 220 +:+ be16 n
  else byte 221 +:+ be32 n.

Definition put_strs (l : list string) : string :=
  put_array_header (N.of_nat (length l))
  +:+ fold_right (fun s acc => put_str s +:+ acc) "" l.

Definition encode (p : PublishedRepo) : string :=
  byte 135
  +:+ put_str "UUID" +:+ put_str (UUID p)
  +:+ put_str "Prefix" +:+ put_str (Prefix p)
  +:+ put_str "Distribution" +:+ put_str (Distribution p)
  +:+ put_str "Component" +:+ put_str (Component p)
  +:+ put_str "Architectures" +:+ put_strs (Architectures p)
  +:+ put_str "SourceKind" +:+ put_str (SourceKind p)
  +:+ put_str "SnapshotUUID" +:+ put_str (SourceUUID p).

(** Reading: each reader gives the value and the rest of the input. *)
Fixpoint get_uint (bytes : nat) (acc : N) (input : string)
  : option (N * string) :=
  match bytes with
  | O => Some (acc, input)
  | Datatypes.S bytes =>
      match input with
      | String c rest => get_uint bytes (acc * 256 + N_of_ascii c)%N rest
      | EmptyString => None
      end
  end.

Definition take_bytes (n : N) (input : string) : option (string * string) :=
  if decide (n <= N.of_nat (String.length input))%N
  then Some (String.substring 0 (N.to_nat n) input,
             String.substring (N.to_nat n)
                              (String.length input - N.to_nat n) input)
  else None.

Definition get_str (input : string) : option (string * string) :=
  match input with
  | String c rest =>
      let b := N_of_ascii c in
      if decide (160 <= b < 192)%N then take_bytes (b - 160) rest
      else if decide (b = 217%N) then
        '(n, rest) ← get_uint 1 0 rest; take_bytes n rest
      else if decide (b = 218%N) then
        '(n, rest) ← get_uint 2 0 rest; take_bytes n rest
      else if decide (b = 219%N) then
        '(n, rest) ← get_uint 4 0 rest; take_bytes n rest
      else None
  | EmptyString => None
  end.

Fixpoint get_strs_n (n : nat) (input : string)
  : option (list string * string) :=
  match n with
  | O => Some ([], input)
  | Datatypes.S n =>
      '(s, rest) ← get_str input;
      '(l, rest) ← get_strs_n n rest;
      Some (s :: l, rest)
  end.

Definition get_strs (input : string) : option (list string * string) :=
  match input with
  | String c rest =>
      let b := N_of_ascii c in
      if decide (144 <= b < 160)%N then get_strs_n (N.to_nat (b - 144)) rest
      else if decide (b = 220%N) then
        '(n, rest) ← get_uint 2 0 rest; get_strs_n (N.to_nat n) rest
      else if decide (b = 221%N) then
        '(n, rest) ← get_uint 4 0 rest; get_strs_n (N.to_nat n) rest
      else None
  | EmptyString => None
  end.

Definition set_string_field (key value : string) (p : PublishedRepo)
  : option PublishedRepo :=
  let upd uuid prefix distribution component sourceKind sourceUUID :=
    {| UUID := uuid; Prefix := prefix; Distribution := distribution;
       Component := component; Architectures := Architectures p;
       SourceKind := sourceKind; SourceUUID := sourceUUID;
       snapshot := snapshot p; localRepo := localRepo p |} in
  if decide (key = "UUID") then
    Some (upd value (Prefix p) (Distribution p) (Component p) (SourceKind p) (SourceUUID p))
  else if decide (key = "Prefix") then
    Some (upd (UUID p) value (Distribution p) (Component p) (SourceKind p) (SourceUUID p))
  else if decide (key = "Distribution") then
    Some (upd (UUID p) (Prefix p) value (Component p) (SourceKind p) (SourceUUID p))
  else if decide (key = "Component") then
    Some (upd (UUID p) (Prefix p) (Distribution p) value (SourceKind p) (SourceUUID p))
  else if decide (key = "SourceKind") then
    Some (upd (UUID p) (Prefix p) (Distribution p) (Component p) value (SourceUUID p))
  else if decide (key = "SnapshotUUID") then
    Some (upd (UUID p) (Prefix p) (Distribution p) (Component p) (SourceKind p) value)
  else None.

Fixpoint get_fields (n : nat) (input : string) (p : PublishedRepo)
  : option PublishedRepo :=
  match n with
  | O => if decide (input = "") then Some p else None
  | Datatypes.S n =>
      '(key, rest) ← get_str input;
      if decide (key = "Architectures") then
        '(l, rest) ← get_strs rest;
        get_fields n rest (set_Architectures p l)
      else
        '(value, rest) ← get_str rest;
        p ← set_string_field key value p;
        get_fields n rest p
  end.

Definition decode (input : string) (p : PublishedRepo)
  : result PublishedRepo :=
  let fields :=
    match input with
    | String c rest =>
        let b := N_of_ascii c in
        if decide (128 <= b < 144)%N
        then get_fields (N.to_nat (b - 128)) rest p else None
    | EmptyString => None
    end in
  match fields with
  | Some p => Ok p
  | None => Err (Foreign "msgpack decode error")
  end.

Definition codec : Codec :=
  {| codec_Encode := encode; codec_Decode := decode |}.
End Msgpack.

(** ** Vocabulary of the properties *)

Definition no_slash (s : string) : bool :=
  forallb (fun c => negb (bool_decide (c = "/"%char))) (list_ascii_of_string s).

(** An ordinary path element: not empty, no separator, neither [.] nor
    [..]. *)
Definition plain_segment (s : string) : bool :=
  negb (bool_decide (s = "")) && negb (bool_decide (s = "."))
  && negb (bool_decide (s = "..")) && no_slash s.

(** The elements [Clean] keeps of a path. *)
Definition kept (P : string) : list string :=
  fold_left (clean_element (strings_HasPrefix P "/")) (strings_Split P "/") [].

(** The calls written down by a recording storage during [Remove]. *)
Definition calls_of {St D A : Type}
    (run : A * (St * list Call) * PublishedRepoCollection D) : list Call :=
  snd (snd (fst run)).

(** A source [NewPublishedRepo] accepts: a snapshot or a local repo. *)
Definition is_source (source : Value) : bool :=
  match source with
  | VSnapshot _ | VLocalRepo _ => true
  | _ => false
  end.

(** All the strings collected are the string [s], and there is one. *)
Definition all_are (s : string) (l : list string) : Prop :=
  l <> [] /\ forall x : string, x ∈ l -> x = s.

(** What the codec sends of [p], in the receiver [q]: the exported fields
    of [p], the source handles of [q]. *)
Definition persisted (p q : PublishedRepo) : PublishedRepo :=
  {| UUID := UUID p; Prefix := Prefix p; Distribution := Distribution p;
     Component := Component p; Architectures := Architectures p;
     SourceKind := SourceKind p; SourceUUID := SourceUUID p;
     snapshot := snapshot q; localRepo := localRepo q |}.

(** An operation on the registry. *)
Inductive Op : Type :=
| OpAdd (repo : ptr)
| OpUpdate (repo : ptr)
| OpRemove (prefix distribution : string).

Section Registry.
Context {St D : Type} `{PublishedStorage St} `{Database D} `{Codec}.
Variable heap : ptr -> PublishedRepo.

(** The registry and the published storage after an operation, whatever
    the operation returned. *)
Definition apply_op (state : St * PublishedRepoCollection D) (o : Op)
  : St * PublishedRepoCollection D :=
  match o with
  | OpAdd repo => (fst state, snd (Add heap (snd state) repo))
  | OpUpdate repo => (fst state, snd (Update heap (snd state) repo))
  | OpRemove prefix distribution =>
      let '(_, st, c) := Remove heap (fst state) (snd state) prefix distribution in
      (st, c)
  end.

Definition name_of (r : ptr) : string * string :=
  (Prefix (heap r), Distribution (heap r)).

(** The identity invariant: two entries at different positions differ in
    prefix or distribution. *)
Definition unique_names (c : PublishedRepoCollection D) : Prop :=
  forall (i j : nat) (a b : ptr),
    list_ c !! i = Some a -> list_ c !! j = Some b -> i <> j ->
    (Prefix (heap a), Distribution (heap a))
    <> (Prefix (heap b), Distribution (heap b)).
End Registry.

(** ** Sample data *)

Definition sample_repo (uuid prefix distribution component : string)
  : PublishedRepo :=
  {| UUID := uuid; Prefix := prefix; Distribution := distribution;
     Component := component; Architectures := ["amd64"; "source"];
     SourceKind := "snapshot"; SourceUUID := "5a3c";
     snapshot := None; localRepo := None |}.

(** Four published repositories: two share the prefix [p] and the
    component, one has the distribution [.], one lives alone under [q]. *)
Definition sample_heap : ptr -> PublishedRepo :=
  fun r =>
    match r with
    | 0 => sample_repo "u0" "p" "a" "main"
    | 1 => sample_repo "u1" "p" "b" "main"
    | 2 => sample_repo "u2" "p" "." "main"
    | _ => sample_repo "u3" "q" "a" "contrib"
    end.

Definition sample_registry : PublishedRepoCollection (gmap string string) :=
  {| db := ∅; list_ := [0; 1; 3] |}.

Definition sample_tree : MemStorage :=
  ["p/dists"; "p/dists/a"; "p/dists/b"; "p/pool"; "p/pool/main";
   "q/dists"; "q/dists/a"; "q/pool"; "q/pool/contrib"].

(** A record as an old version wrote it: no [SourceKind] field. *)
Definition legacy_record : string :=
  Msgpack.byte 134
  +:+ Msgpack.put_str "UUID" +:+ Msgpack.put_str "u9"
  +:+ Msgpack.put_str "Prefix" +:+ Msgpack.put_str "."
  +:+ Msgpack.put_str "Distribution" +:+ Msgpack.put_str "wheezy"
  +:+ Msgpack.put_str "Component" +:+ Msgpack.put_str "main"
  +:+ Msgpack.put_str "Architectures" +:+ Msgpack.put_strs ["i386"]
  +:+ Msgpack.put_str "SnapshotUUID" +:+ Msgpack.put_str "77aa".

(** The zero value [PublishedRepo{}], the receiver of a decoding. *)
Definition zero_repo : PublishedRepo :=
  {| UUID := ""; Prefix := ""; Distribution := ""; Component := "";
     Architectures := []; SourceKind := ""; SourceUUID := "";
     snapshot := None; localRepo := None |}.

(** Mirrors of wheezy and jessie, and snapshots of them: [s1] of one
    mirror, [s3] of another release, [s2] merged from these two, [s4] of
    two mirrors of the same release with different components. *)
Definition sample_factory : CollectionFactory :=
  {| RemoteRepoCollection_ByUUID := fun uuid =>
       if decide (uuid = "r1") then Some (RemoteRepo.Build "wheezy" ["main"])
       else if decide (uuid = "r2")
       then Some (RemoteRepo.Build "wheezy" ["main"; "contrib"])
       else if decide (uuid = "r3") then Some (RemoteRepo.Build "jessie" ["main"])
       else None;
     LocalRepoCollection_ByUUID := fun _ => None;
     SnapshotCollection_ByUUID := fun uuid =>
       if decide (uuid = "s1") then Some (Snapshot.Build "s1" "repo" ["r1"])
       else if decide (uuid = "s3") then Some (Snapshot.Build "s3" "repo" ["r3"])
       else None |}.

Definition snapshot_s1 : Snapshot.t := Snapshot.Build "s1" "repo" ["r1"].
Definition snapshot_s2 : Snapshot.t := Snapshot.Build "s2" "snapshot" ["s1"; "s3"].
Definition snapshot_s4 : Snapshot.t := Snapshot.Build "s4" "repo" ["r1"; "r2"].

(** Packages held in memory, and a publishing environment over the
    in-memory tree: linking and compressing add the files to the tree,
    signing adds the signature files, the clock stands still. *)
Record SamplePackage : Type :=
  { pkg_name : string; pkg_arch : string }.

Definition sample_architectures (packages : list SamplePackage)
    (includeSource : bool) : list string :=
  remove_dups
    (filter (fun a => a <> "source" \/ includeSource = true)
            (pkg_arch <$> packages)).

Global Instance mem_publishing
  : Publishing MemStorage SamplePackage (list SamplePackage) :=
  {| Snapshot_RefList s :=
       if decide (Snapshot.UUID s = "s1")
       then [ {| pkg_name := "nginx"; pkg_arch := "amd64" |};
              {| pkg_name := "nginx"; pkg_arch := "source" |} ]
       else [];
     LocalRepo_RefList _ := [];
     NewPackageListFromRefList refs := fun st => (inl refs, st);
     PackageList_Architectures := sample_architectures;
     MatchesArchitecture pkg arch := bool_decide (pkg_arch pkg = arch);
     LinkFromPool pkg prefix component := fun st =>
       (inl tt, filepath_Join [prefix; "pool"; component; pkg_name pkg] :: st);
     Package_Stanza pkg :=
       <["Package" := pkg_name pkg]> (<["Architecture" := pkg_arch pkg]> ∅);
     Stanza_WriteTo _ _ := fun st => (inl tt, st);
     WriteByte _ _ := fun st => (inl tt, st);
     Flush _ := fun st => (inl tt, st);
     CompressFile file := fun st =>
       (inl tt, (file +:+ ".bz2") :: (file +:+ ".gz") :: st);
     Close _ := fun st => st;
     time_Now _ := "Sat, 31 Oct 2026 09:30:00 UTC";
     range_generatedFiles := map_to_list;
     DetachedSign _ out := fun st => (inl tt, out :: st);
     ClearSign _ out := fun st => (inl tt, out :: st) |}.

Definition published_s1 : PublishedRepo :=
  {| UUID := "6ba7"; Prefix := "."; Distribution := "stable";
     Component := "main"; Architectures := [];
     SourceKind := "snapshot"; SourceUUID := "s1";
     snapshot := Some snapshot_s1; localRepo := None |}.

(** ** The other functions of the file *)

(** *** String

    Modelled from the spec: [Snapshot.String] and [LocalRepo.String] are
    not among the sources; the two are taken as given. *)
Section Describe.
Variable Snapshot_String : Snapshot.t -> string.
Variable LocalRepo_String : LocalRepo.t -> string.

(** Lines 161-174. *)
Definition PublishedRepo_String (p : PublishedRepo) : result string :=
  let source : result string :=
    match snapshot p, localRepo p with
    | Some s, _ => Ok (Snapshot_String s)
    | None, Some l => Ok (LocalRepo_String l)
    | None, None => Panic "no snapshot/localRepo"
    end in
  match source with
  | Ok source =>
      Ok (Prefix p +:+ "/" +:+ Distribution p +:+ " (" +:+ Component p
          +:+ ") [" +:+ strings_Join (Architectures p) ", "
          +:+ "] publishes " +:+ source)
  | Err e => Err e
  | Panic msg => Panic msg
  end.
End Describe.

(** *** LoadComplete *)

Definition set_snapshot (p : PublishedRepo) (s : option Snapshot.t)
  : PublishedRepo :=
  {| UUID := UUID p; Prefix := Prefix p; Distribution := Distribution p;
     Component := Component p; Architectures := Architectures p;
     SourceKind := SourceKind p; SourceUUID := SourceUUID p;
     snapshot := s; localRepo := localRepo p |}.

Definition set_localRepo (p : PublishedRepo) (l : option LocalRepo.t)
  : PublishedRepo :=
  {| UUID := UUID p; Prefix := Prefix p; Distribution := Distribution p;
     Component := Component p; Architectures := Architectures p;
     SourceKind := SourceKind p; SourceUUID := SourceUUID p;
     snapshot := snapshot p; localRepo := l |}.

(** Lines 497-510.  [LoadComplete] writes the handle into the receiver, so
    it gives the receiver back with what it returns.  A [ByUUID] that fails
    gives nil and an error, whose message is [lookup_error] of the uuid. *)
Definition LoadComplete (lookup_error : string -> string)
    (repo : PublishedRepo) (collectionFactory : CollectionFactory)
  : result unit * PublishedRepo :=
  if decide (SourceKind repo = "snapshot") then
    match SnapshotCollection_ByUUID collectionFactory (SourceUUID repo) with
    | Some s => (Ok tt, set_snapshot repo (Some s))
    | None => (Err (Foreign (lookup_error (SourceUUID repo))),
               set_snapshot repo None)
    end
  else if decide (SourceKind repo = "local") then
    match LocalRepoCollection_ByUUID collectionFactory (SourceUUID repo) with
    | Some l => (Ok tt, set_localRepo repo (Some l))
    | None => (Err (Foreign (lookup_error (SourceUUID repo))),
               set_localRepo repo None)
    end
  else (Panic "unknown SourceKind", repo).

(** *** The lookups and the iteration of the collection *)

Section Lookups.
Context {D : Type}.
Variable heap : ptr -> PublishedRepo.




(** Lines 554-564: the handler runs on the entries in order, over its own
    state [W]; the first error ends the loop. *)
Fixpoint ForEach_from {W : Type} (l : list ptr) (handler : ptr -> M W unit)
  : M W unit :=
  match l with
  | [] => ret tt
  | r :: l => (handler r ;;; ForEach_from l handler)%go
  end.

Definition PublishedRepoCollection_ForEach {W : Type}
    (collection : PublishedRepoCollection D) (handler : ptr -> M W unit)
  : M W unit :=
  ForEach_from (list_ collection) handler.
End Lookups.

(** *** NewPublishedRepoCollection *)

(** The heap with the struct [p] at the address [a]. *)
Definition store (heap : ptr -> PublishedRepo) (a : ptr) (p : PublishedRepo)
  : ptr -> PublishedRepo :=
  fun r => if decide (r = a) then p else heap r.

(** Lines 450-457.  Each record read gets a new struct, at the next free
    address [next] of the heap; a record that does not decode is skipped
    (the message logged is left out), a decoder that panics ends the
    loading. *)
Fixpoint load_records `{Codec} (blobs : list string)
    (heap : ptr -> PublishedRepo) (next : ptr) (loaded : list ptr)
  : result ((ptr -> PublishedRepo) * ptr * list ptr) :=
  match blobs with
  | [] => Ok (heap, next, loaded)
  | blob :: blobs =>
      match Decode zero_repo blob with
      | Ok r => load_records blobs (store heap next r) (Datatypes.S next)
                             (loaded ++ [next])
      | Err _ => load_records blobs heap (Datatypes.S next) loaded
      | Panic msg => Panic msg
      end
  end.

(** Lines 441-460: the heap, the next free address and the collection. *)
Definition NewPublishedRepoCollection {D : Type} `{Database D} `{Codec}
    (db : D) (heap : ptr -> PublishedRepo) (next : ptr)
  : result ((ptr -> PublishedRepo) * ptr * PublishedRepoCollection D) :=
  match load_records (FetchByPrefix "U" db) heap next [] with
  | Ok (heap, next, loaded) => Ok (heap, next, {| db := db; list_ := loaded |})
  | Err e => Err e
  | Panic msg => Panic msg
  end.

(** A store that refuses every write. *)
Record ReadOnlyStore : Type := { contents : gmap string string }.

Global Instance read_only_database : Database ReadOnlyStore :=
  {| Put _ _ := fun d => (inr "leveldb: read-only mode", d);
     Delete _ := fun d => (inr "leveldb: read-only mode", d);
     FetchByPrefix prefix := fun d => FetchByPrefix prefix (contents d) |}.

(** The struct a record decodes to, when it does. *)
Definition decoded `{Codec} (blob : string) : option PublishedRepo :=
  match Decode zero_repo blob with Ok r => Some r | _ => None end.

(** A store with the record of a published repository, a record of an old
    version, a value that is no record, and a key of another collection. *)
Definition sample_store : gmap string string :=
  <["Up>>a" := Msgpack.encode (sample_repo "u0" "p" "a" "main")]>
    (<["U.>>wheezy" := legacy_record]>
       (<["Ubroken" := "not msgpack"]>
          (<["Ssnap" := Msgpack.encode (sample_repo "u7" "s" "s" "s")]> ∅))).

(** The string has no [>]. *)
Definition no_gt (s : string) : bool :=
  forallb (fun c => negb (bool_decide (c = ">"%char))) (list_ascii_of_string s).

(** ** Vocabulary of the further properties of [Publish] *)

(** Lines 262-267: the path of the index of one architecture, below the
    directory of the distribution. *)
Definition relativePath (p : PublishedRepo) (arch : string) : string :=
  if decide (arch = "source")
  then filepath_Join [Component p; "source"; "Sources"]
  else filepath_Join [Component p; "binary-" +:+ arch; "Packages"].

(** The three keys lines 328-344 set for one architecture. *)
Definition generated_names (p : PublishedRepo) (arch : string) : list string :=
  [relativePath p arch; relativePath p arch +:+ ".gz";
   relativePath p arch +:+ ".bz2"].


(** A computation that does not panic, whatever the state. *)
Definition never_panics {S A : Type} (m : M S A) : Prop :=
  forall (s : S) (msg : string), (m s).1 <> Panic msg.

(** ** Vocabulary of the shape of a cleaned path *)

(** The elements [Clean] holds while it reads a path, most recent first:
    ordinary elements on top of the [..] elements kept at the start of a
    relative path; a rooted path keeps no [..]. *)
Definition canonical_stack (rooted : bool) (out : list string) : Prop :=
  exists (reals : list string) (k : nat),
    out = reals ++ replicate k ".."
    /\ Forall (fun s => plain_segment s = true) reals
    /\ (rooted = true -> k = 0).

(** A cleaned relative path: [.], or [..] elements followed by ordinary
    elements, joined by the separator. *)
Definition relative_path (path : string) : Prop :=
  path = "."
  \/ exists (k : nat) (reals : list string),
       Forall (fun s => plain_segment s = true) reals
       /\ replicate k ".." ++ reals <> []
       /\ path = strings_Join (replicate k ".." ++ reals) "/".

(** ** What the msgpack formats can hold

    [str 32] and [array 32] carry their length in four bytes. *)
Definition fits32 (n : nat) : bool :=
  bool_decide (N.of_nat n < 4294967296)%N.

Definition encodable (p : PublishedRepo) : bool :=
  fits32 (String.length (UUID p)) && fits32 (String.length (Prefix p))
  && fits32 (String.length (Distribution p))
  && fits32 (String.length (Component p))
  && fits32 (length (Architectures p))
  && forallb (fun a => fits32 (String.length a)) (Architectures p)
  && fits32 (String.length (SourceKind p))
  && fits32 (String.length (SourceUUID p)).

(** * Properties *)

(** ** Strings and paths *)

(** The cases of the table Go tests [Clean] with. *)
Example filepath_Clean_table :
  filepath_Clean <$>
    ["abc"; "abc/def"; "a/b/c"; "."; ".."; "../.."; "../../abc"; "/abc"; "/";
     ""; "abc/"; "abc/def/"; "a/b/c/"; "./"; "../"; "../../"; "/abc/";
     "abc//def//ghi"; "//abc"; "///abc"; "//abc//"; "abc//";
     "abc/./def"; "/./abc/def"; "abc/.";
     "abc/def/ghi/../jkl"; "abc/def/../ghi/../jkl"; "abc/def/.."; "abc/def/../..";
     "/abc/def/../.."; "abc/def/../../.."; "/abc/def/../../..";
     "abc/def/../../../ghi/jkl/../../../mno"; "/../abc";
     "abc/./../def"; "abc//./../def"; "abc/../../././../def"]
  = ["abc"; "abc/def"; "a/b/c"; "."; ".."; "../.."; "../../abc"; "/abc"; "/";
     "."; "abc"; "abc/def"; "a/b/c"; "."; ".."; "../.."; "/abc";
     "abc/def/ghi"; "/abc"; "/abc"; "/abc"; "abc";
     "abc/def"; "/abc/def"; "abc";
     "abc/def/jkl"; "abc/jkl"; "abc"; ".";
     "/"; ".."; "/";
     "../../mno"; "/abc";
     "def"; "def"; "../../def"].
Proof. vm_compute. reflexivity. Qed.

Example filepath_Join_Dir_table :
  filepath_Join <$> [["a"; "b"]; ["a"; ""]; [""; "b"]; ["/"; "a"]; ["a/"; "b"];
                     [""; ""]; ["."; "dists"; "stable"]]
  = ["a/b"; "a"; "b"; "/a"; "a/b"; ""; "dists/stable"]
  /\ filepath_Dir <$> ["/a/b"; "a/b"; "a"; ""; "/"; "dists/stable/Release"]
     = ["/a"; "a"; "."; "."; "/"; "dists/stable"].
Proof. vm_compute. done. Qed.

Lemma length_app_string (a b : string) :
  String.length (a +:+ b) = String.length a + String.length b.
Proof. induction a as [|c a IH]; simpl; [done | by rewrite IH]. Qed.

Lemma strings_Split_nonempty (s : string) (sep : ascii) :
  strings_Split s sep <> [].
Proof.
  induction s as [|c s IH]; simpl; [done|].
  case_decide; [done|]. destruct (strings_Split s sep); done.
Qed.

Lemma strings_Split_app (a b : string) (sep : ascii) :
  strings_Split (a +:+ String sep b) sep
  = strings_Split a sep ++ strings_Split b sep.
Proof.
  induction a as [|c a IH]; simpl.
  - by rewrite decide_True.
  - case_decide; [by rewrite IH|].
    rewrite IH. pose proof (strings_Split_nonempty a sep).
    destruct (strings_Split a sep); done.
Qed.

Lemma strings_Split_no_slash (s : string) :
  no_slash s = true -> strings_Split s "/" = [s].
Proof.
  unfold no_slash. induction s as [|c s IH]; simpl; [done|].
  intros [Hc Hs]%andb_true_iff. rewrite (IH Hs).
  case_decide; [|done]. subst c. done.
Qed.

Lemma strings_Join_cons (x : string) (l : list string) (sep : string) :
  l <> [] -> strings_Join (x :: l) sep = x +:+ sep +:+ strings_Join l sep.
Proof. destruct l; done. Qed.

Lemma app_string_assoc (a b c : string) : (a +:+ b) +:+ c = a +:+ (b +:+ c).
Proof.
  induction a as [|x a IH]; [done|].
  change (String x ((a +:+ b) +:+ c) = String x (a +:+ (b +:+ c))).
  by f_equal.
Qed.

Lemma app_string_nil_r (a : string) : a +:+ "" = a.
Proof.
  induction a as [|c a IH]; [done|].
  change (String c (a +:+ "") = String c a). by rewrite IH.
Qed.

Lemma substring_all (s : string) : substring 0 (String.length s) s = s.
Proof. induction s as [|c s IH]; [done|]. cbn. by rewrite IH. Qed.

Lemma strings_Join_app (l1 l2 : list string) (sep : string) :
  l1 <> [] -> l2 <> [] ->
  strings_Join (l1 ++ l2) sep
  = strings_Join l1 sep +:+ sep +:+ strings_Join l2 sep.
Proof.
  induction l1 as [|x l1 IH]; [done|]. intros _ H2.
  destruct l1 as [|y l1].
  - simpl app. by rewrite strings_Join_cons.
  - rewrite <- app_comm_cons. rewrite strings_Join_cons by done.
    rewrite IH by done. rewrite (strings_Join_cons x (y :: l1)) by done.
    by rewrite !app_string_assoc.
Qed.

Lemma plain_segment_no_slash (s : string) :
  plain_segment s = true -> no_slash s = true.
Proof. unfold plain_segment. by intros [_ ?]%andb_true_iff. Qed.

Lemma plain_segment_length (s : string) :
  plain_segment s = true -> 0 < String.length s.
Proof. destruct s; [done | simpl; lia]. Qed.

Lemma clean_element_plain (rooted : bool) (out : list string) (e : string) :
  plain_segment e = true -> clean_element rooted out e = e :: out.
Proof.
  unfold plain_segment, clean_element.
  intros [[[H1 H2]%andb_true_iff H3]%andb_true_iff _]%andb_true_iff.
  apply negb_true_iff, bool_decide_eq_false in H1, H2, H3.
  by rewrite !decide_False.
Qed.

Lemma fold_clean_plain (rooted : bool) (segs out : list string) :
  Forall (fun s => plain_segment s = true) segs ->
  fold_left (clean_element rooted) segs out = rev segs ++ out.
Proof.
  intros Hs. revert out. induction Hs as [|s segs Hp _ IH]; intros out; [done|].
  simpl. rewrite clean_element_plain by done. rewrite IH.
  by rewrite <- app_assoc.
Qed.

Lemma strings_Split_Join_plain (segs : list string) :
  Forall (fun s => plain_segment s = true) segs -> segs <> [] ->
  strings_Split (strings_Join segs "/") "/" = segs.
Proof.
  induction 1 as [|s segs Hp Hs IH]; [done|]. intros _.
  destruct segs as [|s' segs].
  - simpl. by apply strings_Split_no_slash, plain_segment_no_slash.
  - rewrite strings_Join_cons by done.
    change ("/" +:+ ?x) with (String "/" x).
    rewrite strings_Split_app, IH by done.
    by rewrite strings_Split_no_slash by by apply plain_segment_no_slash.
Qed.

Lemma strings_HasPrefix_slash (c : ascii) (s : string) :
  strings_HasPrefix (String c s) "/" = bool_decide (c = "/"%char).
Proof.
  unfold strings_HasPrefix. change (String.length "/") with 1.
  rewrite bool_decide_eq_true_2 by (simpl; lia).
  change (String.substring 0 1 (String c s)) with (String c (String.substring 0 0 s)).
  replace (String.substring 0 0 s) with "" by by destruct s.
  simpl. apply bool_decide_ext. split; [by intros [= ->] | by intros ->].
Qed.

Lemma strings_HasPrefix_app (a b : string) :
  a <> "" -> strings_HasPrefix (a +:+ b) "/" = strings_HasPrefix a "/".
Proof.
  destruct a as [|c a]; [done|]. intros _.
  change (String c a +:+ b) with (String c (a +:+ b)).
  by rewrite !strings_HasPrefix_slash.
Qed.

Lemma strings_HasPrefix_plain (s : string) :
  plain_segment s = true -> strings_HasPrefix s "/" = false.
Proof.
  intros Hp. apply plain_segment_no_slash in Hp.
  destruct s as [|c s]; [done|]. rewrite strings_HasPrefix_slash.
  apply bool_decide_eq_false. intros ->. done.
Qed.

Lemma strings_Join_plain_nonempty (segs l : list string) (sep : string) :
  Forall (fun s => plain_segment s = true) segs -> segs <> [] ->
  strings_Join (l ++ segs) sep <> "".
Proof.
  intros Hs Hne Hj.
  assert (Hlen : forall l' : list string, l' <> [] ->
            Forall (fun s => plain_segment s = true) l' ->
            0 < String.length (strings_Join l' sep)).
  { intros l' Hl' Hp. destruct Hp as [|x l' Hx Hp]; [done|].
    apply plain_segment_length in Hx. destruct l'.
    - simpl. lia.
    - rewrite strings_Join_cons, length_app_string by done. lia. }
  destruct l as [|y l].
  - specialize (Hlen segs Hne Hs). simpl in Hj. rewrite Hj in Hlen.
    simpl in Hlen. lia.
  - rewrite strings_Join_app in Hj by done.
    specialize (Hlen segs Hne Hs).
    apply (f_equal String.length) in Hj.
    rewrite !length_app_string in Hj. simpl in Hj. lia.
Qed.

Lemma filepath_Join_cons_nonempty (e : string) (rest : list string) :
  e <> "" ->
  filepath_Join (e :: rest) = filepath_Clean (strings_Join (e :: rest) "/").
Proof. intros He. cbn [filepath_Join]. by rewrite decide_False. Qed.

Lemma filepath_Clean_plain (segs : list string) :
  Forall (fun s => plain_segment s = true) segs -> segs <> [] ->
  let path := strings_Join segs "/" in
  filepath_Clean path = clean_render false (rev segs).
Proof.
  intros Hs Hne path. unfold filepath_Clean.
  pose proof (strings_Join_plain_nonempty segs [] "/" Hs Hne) as Hpath.
  rewrite decide_False by done.
  assert (Hroot : strings_HasPrefix path "/" = false).
  { subst path. destruct Hs as [|s segs Hp Hs]; [done|]. destruct segs.
    - by apply strings_HasPrefix_plain.
    - rewrite strings_Join_cons by done.
      rewrite strings_HasPrefix_app by by destruct s.
      by apply strings_HasPrefix_plain. }
  rewrite Hroot. subst path.
  rewrite strings_Split_Join_plain, fold_clean_plain, app_nil_r by done.
  rewrite decide_False; [done|].
  unfold clean_render. rewrite rev_involutive. done.
Qed.

(** Joining a path with ordinary segments: the segments are appended to
    the cleaned path. *)
Lemma filepath_Join_plain (P : string) (segs : list string) :
  Forall (fun s => plain_segment s = true) segs -> segs <> [] ->
  filepath_Join (P :: segs)
  = clean_render (strings_HasPrefix P "/") (rev segs ++ kept P).
Proof.
  intros Hs Hne. destruct (decide (P = "")) as [->|HP].
  - change (filepath_Join ("" :: segs)) with (filepath_Join segs).
    change (kept "") with (@nil string).
    change (strings_HasPrefix "" "/") with false. rewrite app_nil_r.
    destruct segs as [|s segs]; [done|].
    rewrite filepath_Join_cons_nonempty
      by (pose proof (Forall_inv Hs); by destruct s).
    by apply filepath_Clean_plain.
  - rewrite filepath_Join_cons_nonempty by done.
    rewrite strings_Join_cons by done.
    unfold filepath_Clean, kept.
    rewrite decide_False by by destruct P.
    rewrite strings_HasPrefix_app by done.
    change ("/" +:+ ?x) with (String "/" x).
    rewrite strings_Split_app, strings_Split_Join_plain by done.
    rewrite fold_left_app, fold_clean_plain by done.
    rewrite decide_False; [done|].
    unfold clean_render. rewrite rev_app_distr, rev_involutive.
    intros Hb. apply (f_equal String.length) in Hb.
    rewrite length_app_string in Hb.
    destruct (strings_Join _ "/") eqn:Hj in Hb.
    + by apply strings_Join_plain_nonempty in Hj.
    + simpl in Hb. lia.
Qed.

(** The length of such a joined path is that of the segments joined, plus
    an amount that depends on the path before them only. *)
Lemma filepath_Join_plain_length (P : string) :
  exists base : nat, forall segs : list string,
    Forall (fun s => plain_segment s = true) segs -> segs <> [] ->
    String.length (filepath_Join (P :: segs))
    = base + String.length (strings_Join segs "/").
Proof.
  exists (String.length (if strings_HasPrefix P "/" then "/" else "")
          + match kept P with
            | [] => 0
            | _ => String.length (strings_Join (rev (kept P)) "/") + 1
            end).
  intros segs Hs Hne. rewrite filepath_Join_plain by done.
  unfold clean_render. rewrite length_app_string, rev_app_distr, rev_involutive.
  destruct (kept P) as [|k ks] eqn:Hk.
  - simpl. lia.
  - rewrite strings_Join_app; [|by (intros ?%(f_equal (@length string)); rewrite length_rev in *)|done].
    rewrite !length_app_string. simpl. lia.
Qed.

(** ** The registry *)

Arguments filepath_Join : simpl never.

Section CollectionFacts.
Context {St D : Type} `{PublishedStorage St} `{Database D} `{Codec}.
Variable heap : ptr -> PublishedRepo.

Lemma ByPrefixDistribution_Ok (c : PublishedRepoCollection D)
    (prefix distribution : string) (X : ptr) :
  ByPrefixDistribution heap c prefix distribution = Ok X ->
  X ∈ list_ c /\ Prefix (heap X) = prefix
  /\ Distribution (heap X) = distribution.
Proof.
  unfold ByPrefixDistribution.
  destruct (find _ _) as [r|] eqn:Hf; [|done]. intros [= ->].
  apply find_some in Hf as [Hin Hn]. unfold same_name in Hn.
  apply andb_true_iff in Hn as [?%bool_decide_eq_true ?%bool_decide_eq_true].
  by rewrite list_elem_of_In.
Qed.

(** The flags the loop of [Remove] computes. *)
Lemma remove_scan_flags (repo : ptr) (l : list ptr) :
  forall (i : Z) (rp rpc : bool) (pos : Z),
    (remove_scan heap repo i l rp rpc pos).1
    = (rp && forallb (fun r => bool_decide (r = repo)
                 || negb (bool_decide (Prefix (heap r) = Prefix (heap repo)))) l,
       rpc && forallb (fun r => bool_decide (r = repo)
                 || negb (bool_decide (Prefix (heap r) = Prefix (heap repo))
                          && bool_decide (Component (heap r) = Component (heap repo)))) l).
Proof.
  induction l as [|r l IH]; intros i rp rpc pos; simpl.
  - by rewrite !andb_true_r.
  - repeat case_decide; rewrite IH; simpl;
      repeat (first [rewrite bool_decide_eq_true_2 by done
                    | rewrite bool_decide_eq_false_2 by done]); simpl;
      rewrite ?andb_false_r, ?andb_false_l; done.
Qed.

(** [repoPosition] after the loop: the index of an occurrence of
    [repo] when there is one. *)
Lemma remove_scan_position_notin (repo : ptr) (l : list ptr) :
  repo ∉ l ->
  forall (i : Z) (rp rpc : bool) (pos : Z),
    (remove_scan heap repo i l rp rpc pos).2 = pos.
Proof.
  induction l as [|r l IH]; intros Hin i rp rpc pos; [done|].
  apply not_elem_of_cons in Hin as [Hr Hin].
  cbn [remove_scan]. rewrite decide_False by done.
  case_decide; by rewrite IH.
Qed.

Lemma remove_scan_position_in (repo : ptr) (l : list ptr) :
  repo ∈ l ->
  forall (i : Z) (rp rpc : bool) (pos : Z),
    (i <= (remove_scan heap repo i l rp rpc pos).2 < i + Z.of_nat (length l))%Z
    /\ l !! Z.to_nat ((remove_scan heap repo i l rp rpc pos).2 - i) = Some repo.
Proof.
  induction l as [|r l IH]; intros Hin i rp rpc pos.
  { by apply elem_of_nil in Hin. }
  assert (Hshift : forall res : bool * bool * Z,
            (i + 1 <= res.2 < i + 1 + Z.of_nat (length l))%Z
            /\ l !! Z.to_nat (res.2 - (i + 1)) = Some repo ->
            (i <= res.2 < i + Z.of_nat (length (r :: l)))%Z
            /\ (r :: l) !! Z.to_nat (res.2 - i) = Some repo).
  { intros res [Hb Hl]. split; [simpl; lia|].
    replace (Z.to_nat (res.2 - i))
      with (Datatypes.S (Z.to_nat (res.2 - (i + 1)))) by lia.
    done. }
  cbn [remove_scan]. destruct (decide (r = repo)) as [->|Hr].
  - destruct (decide (repo ∈ l)) as [Hl|Hl].
    + by apply Hshift, IH.
    + rewrite remove_scan_position_notin by done.
      split; [simpl; lia|]. by rewrite Z.sub_diag.
  - apply elem_of_cons in Hin as [->|Hin]; [done|].
    case_decide; by apply Hshift, IH.
Qed.
End CollectionFacts.

Section RemoveFacts.
Context {St D : Type} `{PublishedStorage St} `{Database D} `{Codec}.
Variable heap : ptr -> PublishedRepo.

(** Cutting an entry out of the list leaves the other entries, each as
    often as before. *)
Lemma drop_position_perm (l : list ptr) (pos : nat) (x : ptr) :
  l !! pos = Some x ->
  exists l' : list ptr,
    drop_position l (Z.of_nat pos) = Some l' /\ l' ≡ₚ delete pos l.
Proof.
  intros Hpos. pose proof (lookup_lt_Some _ _ _ Hpos) as Hlt.
  unfold drop_position.
  destruct (last l) as [y|] eqn:Hlast;
    [|apply last_None in Hlast; subst l; done].
  rewrite decide_True by lia. rewrite Nat2Z.id. eexists; split; [done|].
  apply last_Some in Hlast as [l0 ->]. rewrite length_app in *. simpl in *.
  replace (length l0 + 1 - 1) with (length l0) by lia.
  destruct (decide (pos = length l0)) as [->|Hne].
  - rewrite take_insert_ge, take_app_length by lia.
    rewrite delete_take_drop, take_app_length.
    rewrite drop_ge by (rewrite length_app; simpl; lia).
    by rewrite app_nil_r.
  - assert (pos < length l0) as Hlt0 by lia.
    rewrite take_insert_lt, take_app_length by lia.
    rewrite lookup_app_l in Hpos by done.
    rewrite (delete_take_drop (l0 ++ [y])).
    rewrite take_app_le by lia.
    rewrite drop_app_le by lia.
    rewrite insert_take_drop by done.
    rewrite app_assoc. rewrite <- Permutation_cons_append.
    by rewrite Permutation_middle.
Qed.

Lemma Remove_found (st : St) (c : PublishedRepoCollection D)
    (prefix distribution : string) (X : ptr) :
  ByPrefixDistribution heap c prefix distribution = Ok X ->
  Remove heap st c prefix distribution
  = let '(rp, rpc, pos) := remove_scan heap X 0 (list_ c) true true (-1) in
    match RemoveFiles (heap X) rp rpc st with
    | (Ok _, st') =>
        match drop_position (list_ c) pos with
        | Some l =>
            let '(r, d) := call (Delete (Key (heap X))) (db c) in
            (r, st', {| db := d; list_ := l |})
        | None => (Panic "runtime error: index out of range", st', c)
        end
    | (other, st') => (other, st', c)
    end.
Proof. intros HX. unfold Remove. by rewrite HX. Qed.

(** After a successful [RemoveFiles], [Remove] cuts the entry out and
    deletes its key; it does not panic. *)
Lemma Remove_after_files (st st' : St) (c : PublishedRepoCollection D)
    (prefix distribution : string) (X : ptr) (rp rpc : bool) (pos : Z) (u : unit) :
  ByPrefixDistribution heap c prefix distribution = Ok X ->
  remove_scan heap X 0 (list_ c) true true (-1) = (rp, rpc, pos) ->
  RemoveFiles (heap X) rp rpc st = (Ok u, st') ->
  exists l' : list ptr,
    l' ≡ₚ delete (Z.to_nat pos) (list_ c)
    /\ list_ c !! Z.to_nat pos = Some X
    /\ Remove heap st c prefix distribution
       = ((call (Delete (Key (heap X))) (db c)).1, st',
          {| db := (call (Delete (Key (heap X))) (db c)).2; list_ := l' |}).
Proof.
  intros HX Hscan Hfiles. rewrite (Remove_found _ _ _ _ _ HX), Hscan, Hfiles.
  apply ByPrefixDistribution_Ok in HX as (Hin & _ & _).
  pose proof (remove_scan_position_in heap X (list_ c) Hin 0 true true (-1)) as Hp.
  rewrite Hscan in Hp. simpl in Hp. destruct Hp as [Hb Hl].
  rewrite Z.sub_0_r in Hl.
  destruct (drop_position_perm _ _ _ Hl) as (l' & Hd & Hperm).
  rewrite Z2Nat.id in Hd by lia. rewrite Hd.
  exists l'. split; [done|]. split; [done|].
  by destruct (call (Delete (Key (heap X))) (db c)).
Qed.
End RemoveFacts.

(** C10.  When [RemoveFiles] returns an error during [Remove], [Remove]
    returns that error, and the registry is as before: the same list and
    the same database, on which no call was made.  When [RemoveFiles]
    succeeds, the entry is cut out of the list and its key is deleted. *)
Theorem Remove_atomic {St D : Type} `{PublishedStorage St} `{Database D}
    (heap : ptr -> PublishedRepo) (st st' : St) (c : PublishedRepoCollection D)
    (prefix distribution : string) (X : ptr) (rp rpc : bool) (pos : Z)
    (r : result unit) :
  ByPrefixDistribution heap c prefix distribution = Ok X ->
  remove_scan heap X 0 (list_ c) true true (-1) = (rp, rpc, pos) ->
  RemoveFiles (heap X) rp rpc st = (r, st') ->
  (forall e : error, r = Err e ->
     Remove heap st c prefix distribution = (Err e, st', c))
  /\ (r = Ok tt ->
      exists l' : list ptr,
        l' ≡ₚ delete (Z.to_nat pos) (list_ c)
        /\ list_ c !! Z.to_nat pos = Some X
        /\ Remove heap st c prefix distribution
           = ((call (Delete (Key (heap X))) (db c)).1, st',
              {| db := (call (Delete (Key (heap X))) (db c)).2;
                 list_ := l' |})).
Proof.
  intros HX Hscan Hfiles. split.
  - intros e ->. by rewrite (Remove_found _ _ _ _ _ _ HX), Hscan, Hfiles.
  - intros ->. by eapply Remove_after_files.
Qed.

Section Invariant.
Context {St D : Type} `{PublishedStorage St} `{Database D} `{Codec}.
Variable heap : ptr -> PublishedRepo.

Lemma unique_names_NoDup (c : PublishedRepoCollection D) :
  unique_names heap c <-> NoDup (name_of heap <$> list_ c).
Proof.
  rewrite NoDup_alt. unfold unique_names. split.
  - intros Hu i j n Hi Hj. destruct (decide (i = j)) as [|Hne]; [done|].
    apply list_lookup_fmap_Some in Hi as (a & -> & Ha).
    apply list_lookup_fmap_Some in Hj as (b & Hn & Hb).
    by destruct (Hu i j a b Ha Hb Hne).
  - intros Hn i j a b Ha Hb Hne Heq. apply Hne.
    apply (Hn i j (name_of heap a)).
    + by rewrite list_lookup_fmap, Ha.
    + rewrite list_lookup_fmap, Hb. simpl. unfold name_of. by rewrite Heq.
Qed.

Lemma CheckDuplicate_Some (c : PublishedRepoCollection D) (x : ptr) :
  is_Some (CheckDuplicate heap c x) <-> name_of heap x ∈ name_of heap <$> list_ c.
Proof.
  unfold CheckDuplicate. rewrite list_elem_of_fmap. split.
  - intros [r Hr]. apply find_some in Hr as [Hin Hn]. exists r.
    apply list_elem_of_In in Hin. split; [|done].
    unfold same_name in Hn.
    apply andb_true_iff in Hn as [?%bool_decide_eq_true ?%bool_decide_eq_true].
    unfold name_of. congruence.
  - intros (r & Hn & Hin). destruct (find _ _) as [r'|] eqn:Hf; [by eexists|].
    apply list_elem_of_In in Hin.
    pose proof (find_none _ _ Hf r Hin) as Hno. unfold same_name in Hno.
    injection Hn as Hp Hd.
    rewrite !bool_decide_eq_true_2 in Hno by done. done.
Qed.

Lemma Add_preserves (c : PublishedRepoCollection D) (x : ptr) :
  unique_names heap c -> unique_names heap (Add heap c x).2.
Proof.
  rewrite !unique_names_NoDup. intros Hn. unfold Add.
  destruct (CheckDuplicate heap c x) as [r|] eqn:Hc; [done|].
  unfold Update. destruct (call _ _) as [[u|e|msg] d]; simpl; [|done..].
  rewrite fmap_app. apply NoDup_app. split; [done|]. split.
  - intros n Hin ->%list_elem_of_singleton.
    apply CheckDuplicate_Some in Hin. rewrite Hc in Hin. by destruct Hin.
  - apply NoDup_singleton.
Qed.

Lemma Remove_preserves (st : St) (c : PublishedRepoCollection D)
    (prefix distribution : string) :
  unique_names heap c ->
  unique_names heap (Remove heap st c prefix distribution).2.
Proof.
  intros Hn.
  destruct (ByPrefixDistribution heap c prefix distribution) as [X|e|msg] eqn:HX;
    [|unfold Remove; by rewrite HX..].
  destruct (remove_scan heap X 0 (list_ c) true true (-1)) as [[rp rpc] pos] eqn:Hs.
  destruct (RemoveFiles (heap X) rp rpc st) as [[[]|e|msg] st'] eqn:Hf.
  - destruct (Remove_after_files heap _ _ _ _ _ _ _ _ _ _ HX Hs Hf)
      as (l' & Hperm & _ & ->).
    simpl. apply unique_names_NoDup. simpl. rewrite Hperm.
    rewrite list_fmap_delete.
    eapply sublist_NoDup; [|apply sublist_delete].
    by apply unique_names_NoDup.
  - by rewrite (Remove_found _ _ _ _ _ _ HX), Hs, Hf.
  - by rewrite (Remove_found _ _ _ _ _ _ HX), Hs, Hf.
Qed.

Lemma apply_op_preserves (state : St * PublishedRepoCollection D) (o : Op) :
  unique_names heap state.2 -> unique_names heap (apply_op heap state o).2.
Proof.
  intros Hn. destruct o as [x|x|prefix distribution]; simpl.
  - by apply Add_preserves.
  - unfold Update. by destruct (call _ _).
  - pose proof (Remove_preserves state.1 state.2 prefix distribution Hn) as Hr.
    by destruct (Remove heap _ _ _ _) as [[? ?] ?].
Qed.

Lemma run_preserves (ops : list Op) (state : St * PublishedRepoCollection D) :
  unique_names heap state.2 ->
  unique_names heap (fold_left (apply_op heap) ops state).2.
Proof.
  revert state. induction ops as [|o ops IH]; intros state Hn; [done|].
  simpl. by apply IH, apply_op_preserves.
Qed.
End Invariant.

(** C2.  [Add] returns the error of the duplicate check exactly when an
    entry of the list has the prefix and the distribution of the new one,
    and then changes nothing; otherwise it stores the new one, and on
    success appends it.  In a registry built from the empty list by [Add],
    [Update] and [Remove], entries at different positions differ in prefix
    or distribution. *)
Theorem Add_keeps_names_unique {St D : Type}
    `{PublishedStorage St} `{Database D} `{Codec} (heap : ptr -> PublishedRepo) :
  (forall (c : PublishedRepoCollection D) (x : ptr),
     let duplicate :=
       exists r : ptr, r ∈ list_ c /\ Prefix (heap r) = Prefix (heap x)
                       /\ Distribution (heap r) = Distribution (heap x) in
     let already_exists :=
       Errorf ("published repo with prefix/distribution "
                 +:+ Prefix (heap x) +:+ "/" +:+ Distribution (heap x)
                 +:+ " already exists") in
     ((Add heap c x).1 = Err already_exists <-> duplicate)
     /\ (duplicate -> Add heap c x = (Err already_exists, c))
     /\ (~ duplicate ->
         Add heap c x
         = match Put (Key (heap x)) (Encode (heap x)) (db c) with
           | (inl _, d) => (Ok tt, {| db := d; list_ := list_ c ++ [x] |})
           | (inr msg, d) => (Err (Foreign msg), {| db := d; list_ := list_ c |})
           end))
  /\ (forall (st : St) (d : D) (ops : list Op),
        unique_names heap
          (fold_left (apply_op heap) ops (st, {| db := d; list_ := [] |})).2).
Proof.
  split.
  - intros c x duplicate already_exists.
    assert (Hdup : duplicate <-> is_Some (CheckDuplicate heap c x)).
    { rewrite CheckDuplicate_Some, list_elem_of_fmap. unfold name_of.
      subst duplicate. split.
      - intros (r & ? & ? & ?). exists r. split; [congruence | done].
      - intros (r & [= ? ?] & ?). by exists r. }
    assert (Hno : ~ duplicate ->
              Add heap c x
              = match Put (Key (heap x)) (Encode (heap x)) (db c) with
                | (inl _, d) => (Ok tt, {| db := d; list_ := list_ c ++ [x] |})
                | (inr msg, d) => (Err (Foreign msg), {| db := d; list_ := list_ c |})
                end).
    { intros Hn. unfold Add.
      destruct (CheckDuplicate heap c x) eqn:Hc; [destruct Hn; by apply Hdup|].
      unfold Update, call. by destruct (Put _ _ _) as [[[]|msg] d]. }
    assert (Hyes : duplicate -> Add heap c x = (Err already_exists, c)).
    { intros [r Hr]%Hdup. unfold Add. by rewrite Hr. }
    split; [|done]. split.
    + intros Hadd. destruct (decide (is_Some (CheckDuplicate heap c x))) as [|Hn];
        [by apply Hdup|].
      rewrite Hno in Hadd by by rewrite Hdup.
      by destruct (Put _ _ _) as [[[]|msg] d].
    + intros Hd. by rewrite Hyes.
  - intros st d ops. apply run_preserves. intros i j a b Hi. done.
Qed.

Section RemoveCalls.
Context {St D : Type} `{PublishedStorage St} `{Database D} `{Codec}.
Variable heap : ptr -> PublishedRepo.

Lemma call_RemoveDirs_recorded (path : string) (st : St) (log : list Call) :
  call (RemoveDirs path) (st, log)
  = match RemoveDirs path st with
    | (inl u, st') => (Ok u, (st', log ++ [CallRemoveDirs path]))
    | (inr msg, st') => (Err (Foreign msg), (st', log ++ [CallRemoveDirs path]))
    end.
Proof.
  unfold call. cbn [RemoveDirs recording]. unfold recorded. cbn [fst snd].
  by destruct (RemoveDirs path st) as [[u|msg] st'].
Qed.

(** The [RemoveDirs] calls of [RemoveFiles]: the second one is made when
    the first one succeeded. *)
Lemma RemoveFiles_calls (p : PublishedRepo) (rp rpc : bool) (st : St)
    (log : list Call) :
  (RemoveFiles p rp rpc (st, log)).2.2
  = log ++
    if rp then
      CallRemoveDirs (filepath_Join [Prefix p; "dists"]) ::
      match RemoveDirs (filepath_Join [Prefix p; "dists"]) st with
      | (inl _, _) => [CallRemoveDirs (filepath_Join [Prefix p; "pool"])]
      | _ => []
      end
    else
      CallRemoveDirs (filepath_Join [Prefix p; "dists"; Distribution p]) ::
      match RemoveDirs (filepath_Join [Prefix p; "dists"; Distribution p]) st with
      | (inl _, _) =>
          if rpc
          then [CallRemoveDirs (filepath_Join [Prefix p; "pool"; Component p])]
          else []
      | _ => []
      end.
Proof.
  unfold RemoveFiles.
  generalize (filepath_Join [Prefix p; "dists"])
             (filepath_Join [Prefix p; "pool"])
             (filepath_Join [Prefix p; "dists"; Distribution p])
             (filepath_Join [Prefix p; "pool"; Component p]).
  intros d1 d2 d3 d4. unfold bind, ret.
  destruct rp.
  - rewrite call_RemoveDirs_recorded.
    destruct (RemoveDirs d1 st) as [[[]|msg] st1]; [|done].
    rewrite call_RemoveDirs_recorded.
    destruct (RemoveDirs d2 st1) as [[[]|msg] st2]; simpl;
      by rewrite <- app_assoc.
  - rewrite call_RemoveDirs_recorded.
    destruct (RemoveDirs d3 st) as [[[]|msg] st1]; [|done].
    destruct rpc; [|done].
    rewrite call_RemoveDirs_recorded.
    destruct (RemoveDirs d4 st1) as [[[]|msg] st2]; simpl;
      by rewrite <- app_assoc.
Qed.

(** [Remove] makes the storage calls of [RemoveFiles], with the flags of
    its loop. *)
Lemma Remove_calls (st : St) (log : list Call)
    (c : PublishedRepoCollection D) (prefix distribution : string) (X : ptr) :
  ByPrefixDistribution heap c prefix distribution = Ok X ->
  calls_of (Remove heap (st, log) c prefix distribution)
  = (RemoveFiles (heap X)
       (remove_scan heap X 0 (list_ c) true true (-1)).1.1
       (remove_scan heap X 0 (list_ c) true true (-1)).1.2 (st, log)).2.2.
Proof.
  intros HX. rewrite (Remove_found _ _ _ _ _ _ HX).
  destruct (remove_scan heap X 0 (list_ c) true true (-1)) as [[rp rpc] pos].
  simpl. destruct (RemoveFiles (heap X) rp rpc (st, log)) as [[u|e|msg] st'];
    [|done..].
  destruct (drop_position (list_ c) pos); [|done].
  by destruct (call _ _).
Qed.

Lemma forallb_other_false (X : ptr) (l : list ptr) (P : ptr -> bool) :
  forallb (fun r => bool_decide (r = X) || negb (P r)) l = false
  <-> exists Y : ptr, Y ∈ l /\ Y <> X /\ P Y = true.
Proof.
  induction l as [|r l IH]; simpl.
  - split; [done|]. intros (Y & HY & _). by apply elem_of_nil in HY.
  - rewrite andb_false_iff, IH. split.
    + intros [Hr|(Y & HY & HYX & HP)].
      * apply orb_false_iff in Hr as [Hr HP]. apply bool_decide_eq_false in Hr.
        apply negb_false_iff in HP. exists r. split; [left|done].
      * exists Y. split; [by right|done].
    + intros (Y & [->|HY]%elem_of_cons & HYX & HP).
      * left. by rewrite HP, bool_decide_eq_false_2.
      * right. by exists Y.
Qed.
End RemoveCalls.

(** With an ordinary distribution and component, the directories
    [RemoveFiles] removes one by one are not [<Prefix>/dists] or
    [<Prefix>/pool]. *)
Lemma plain_paths_differ (P Dn C : string) :
  plain_segment Dn = true -> plain_segment C = true ->
  let inner := [filepath_Join [P; "dists"; Dn]; filepath_Join [P; "pool"; C]] in
  (filepath_Join [P; "dists"] ∉ inner) /\ (filepath_Join [P; "pool"] ∉ inner).
Proof.
  intros HD HC inner. destruct (filepath_Join_plain_length P) as [base Hlen].
  assert (Hd : plain_segment "dists" = true) by done.
  assert (Hp : plain_segment "pool" = true) by done.
  pose proof (Hlen ["dists"] ltac:(by repeat constructor) ltac:(done)) as L1.
  pose proof (Hlen ["pool"] ltac:(by repeat constructor) ltac:(done)) as L2.
  pose proof (Hlen ["dists"; Dn] ltac:(by repeat constructor) ltac:(done)) as L3.
  pose proof (Hlen ["pool"; C] ltac:(by repeat constructor) ltac:(done)) as L4.
  rewrite strings_Join_cons, !length_app_string in L3, L4 by done.
  apply plain_segment_length in HD, HC. simpl in L1, L2, L3, L4.
  subst inner. split; intros Hin;
    repeat (apply elem_of_cons in Hin as [Hin|Hin]);
    try (by apply elem_of_nil in Hin);
    apply (f_equal String.length) in Hin; lia.
Qed.

(** C1 (as amended).  When another entry of the list has the prefix of
    the target [X], [Remove] passes [removePrefix = false] to
    [RemoveFiles], and [removePoolComponent = true] exactly when no other
    entry has both the prefix and the component of [X]; the storage is
    asked to remove [Join(Prefix, "dists", Distribution)] and then, if that
    succeeded and [removePoolComponent] holds, [Join(Prefix, "pool",
    Component)], and nothing else; when the distribution and the component
    of [X] are ordinary path elements, neither call is on [<Prefix>/dists]
    or [<Prefix>/pool].  When no other entry has the prefix, both flags are
    true and the storage is asked to remove [<Prefix>/dists] and then, if
    that succeeded, [<Prefix>/pool]. *)
Theorem Remove_shared_prefix {St D : Type}
    `{PublishedStorage St} `{Database D} (heap : ptr -> PublishedRepo)
    (st : St) (c : PublishedRepoCollection D) (prefix distribution : string)
    (X : ptr) :
  ByPrefixDistribution heap c prefix distribution = Ok X ->
  let P := Prefix (heap X) in
  let Dn := Distribution (heap X) in
  let C := Component (heap X) in
  let shares_prefix :=
    exists Y : ptr, Y ∈ list_ c /\ Y <> X /\ Prefix (heap Y) = P in
  let shares_pool :=
    exists Y : ptr, Y ∈ list_ c /\ Y <> X /\ Prefix (heap Y) = P
                    /\ Component (heap Y) = C in
  let flags := (remove_scan heap X 0 (list_ c) true true (-1)).1 in
  let calls := calls_of (Remove heap (st, []) c prefix distribution) in
  (shares_prefix ->
     flags.1 = false
     /\ (flags.2 = true <-> ~ shares_pool)
     /\ calls
        = CallRemoveDirs (filepath_Join [P; "dists"; Dn]) ::
          match RemoveDirs (filepath_Join [P; "dists"; Dn]) st with
          | (inl _, _) =>
              if flags.2 then [CallRemoveDirs (filepath_Join [P; "pool"; C])]
              else []
          | _ => []
          end
     /\ (plain_segment Dn = true -> plain_segment C = true ->
         (CallRemoveDirs (filepath_Join [P; "dists"]) ∉ calls)
         /\ (CallRemoveDirs (filepath_Join [P; "pool"]) ∉ calls)))
  /\ (~ shares_prefix ->
      flags = (true, true)
      /\ calls
         = CallRemoveDirs (filepath_Join [P; "dists"]) ::
           match RemoveDirs (filepath_Join [P; "dists"]) st with
           | (inl _, _) => [CallRemoveDirs (filepath_Join [P; "pool"])]
           | _ => []
           end).
Proof.
  intros HX P Dn C shares_prefix shares_pool flags calls.
  assert (Hcalls : calls = (RemoveFiles (heap X) flags.1 flags.2 (st, [])).2.2)
    by by apply Remove_calls.
  rewrite RemoveFiles_calls in Hcalls. simpl in Hcalls.
  assert (Hflags : flags
            = (forallb (fun r => bool_decide (r = X)
                   || negb (bool_decide (Prefix (heap r) = P))) (list_ c),
               forallb (fun r => bool_decide (r = X)
                   || negb (bool_decide (Prefix (heap r) = P)
                            && bool_decide (Component (heap r) = C))) (list_ c)))
    by apply remove_scan_flags.
  assert (Hrp : flags.1 = false <-> shares_prefix).
  { rewrite Hflags. simpl. rewrite forallb_other_false. subst shares_prefix.
    by setoid_rewrite bool_decide_eq_true. }
  assert (Hrpc : flags.2 = false <-> shares_pool).
  { rewrite Hflags. simpl. rewrite forallb_other_false. subst shares_pool.
    setoid_rewrite andb_true_iff. by setoid_rewrite bool_decide_eq_true. }
  split.
  - intros Hsh. apply Hrp in Hsh as Hfalse. rewrite Hfalse in Hcalls.
    split; [done|]. split.
    { rewrite <- Hrpc. symmetry. apply not_false_iff_true. }
    split; [done|].
    intros HD HC. destruct (plain_paths_differ P Dn C HD HC) as [Hd Hp].
    assert (Hsub : forall path, CallRemoveDirs path ∈ calls ->
              path ∈ [filepath_Join [P; "dists"; Dn]; filepath_Join [P; "pool"; C]]).
    { intros path. rewrite Hcalls. intros [[= ->]|Hin]%elem_of_cons; [left|].
      destruct (RemoveDirs _ st) as [[u|msg] st1]; [|by apply elem_of_nil in Hin].
      destruct (flags.2); [|by apply elem_of_nil in Hin].
      apply list_elem_of_singleton in Hin as [= ->]. right. left. }
    split; intros Hin; [by apply Hd, Hsub | by apply Hp, Hsub].
  - intros Hsh. assert (flags.1 = true) as Htrue.
    { apply not_false_iff_true. intros E. by apply Hsh, Hrp. }
    assert (flags.2 = true) as Htrue2.
    { apply not_false_iff_true. intros E. apply Hsh.
      apply Hrpc in E as (Y & ? & ? & ? & ?). by exists Y. }
    rewrite Htrue in Hcalls. split; [|done].
    destruct flags. simpl in *. by subst.
Qed.

Lemma Remove_atomic_witness :
  Remove sample_heap ["q/pool"] sample_registry "q" "a"
  = (Err (Foreign "remove q/dists: no such file or directory"),
     ["q/pool"], sample_registry).
Proof.
  apply (Remove_atomic sample_heap ["q/pool"] ["q/pool"]
           sample_registry "q" "a" 3 true true 2
           (Err (Foreign "remove q/dists: no such file or directory")));
    reflexivity.
Defined.

Lemma Remove_shared_prefix_witness :
  ByPrefixDistribution sample_heap sample_registry "p" "a" = Ok 0
  /\ (remove_scan sample_heap 0 0 (list_ sample_registry) true true (-1)).1
     = (false, false)
  /\ calls_of (Remove sample_heap (sample_tree, []) sample_registry "p" "a")
     = [CallRemoveDirs "p/dists/a"]
  /\ (CallRemoveDirs "p/dists"
      ∉ calls_of (Remove sample_heap (sample_tree, []) sample_registry "p" "a"))
  /\ (CallRemoveDirs "p/pool"
      ∉ calls_of (Remove sample_heap (sample_tree, []) sample_registry "p" "a")).
Proof.
  split; [reflexivity|].
  destruct (Remove_shared_prefix sample_heap sample_tree
              sample_registry "p" "a" 0 eq_refl) as [Hshared _].
  destruct Hshared as (_ & _ & Hcalls & Hkeeps).
  { exists 1. repeat split; [|done]. apply list_elem_of_In. simpl. tauto. }
  split; [reflexivity|]. split; [rewrite Hcalls; reflexivity|].
  exact (Hkeeps eq_refl eq_refl).
Defined.

(** C1 as stated fails: with the distribution [.], and another entry
    under the same prefix, [Remove] asks the storage to remove
    [<Prefix>/dists], and the tree of the other entry goes with it. *)
Lemma Remove_shared_prefix_counterexample :
  let c : PublishedRepoCollection (gmap string string) :=
    {| db := ∅; list_ := [2; 1] |} in
  let run := Remove sample_heap (sample_tree, []) c "p" "." in
  ByPrefixDistribution sample_heap c "p" "." = Ok 2
  /\ (exists Y : ptr, Y ∈ list_ c /\ Y <> 2
                      /\ Prefix (sample_heap Y) = Prefix (sample_heap 2))
  /\ CallRemoveDirs (filepath_Join [Prefix (sample_heap 2); "dists"]) ∈ calls_of run
  /\ run.1.2.1 = ["p/pool"; "p/pool/main"; "q/dists"; "q/dists/a"; "q/pool";
                  "q/pool/contrib"].
Proof.
  intros c run. split; [reflexivity|]. split.
  { exists 1. repeat split; [|done]. apply list_elem_of_In. simpl. tauto. }
  split; [|reflexivity].
  apply list_elem_of_In. vm_compute. tauto.
Qed.

(** ** Encoding and decoding *)

(** ** The msgpack codec gives back what it was given *)

Module MsgpackFacts.
Import Msgpack.

Lemma byte_app (n : N) (x : string) : byte n +:+ x = String (ascii_of_N n) x.
Proof. done. Qed.

Lemma substring_app_l (s rest : string) :
  substring 0 (String.length s) (s +:+ rest) = s.
Proof.
  induction s as [|c s IH]; [by destruct rest|].
  change (String c s +:+ rest) with (String c (s +:+ rest)).
  cbn [String.length substring]. by rewrite IH.
Qed.

Lemma substring_app_r (s rest : string) (m : nat) :
  substring (String.length s) m (s +:+ rest) = substring 0 m rest.
Proof.
  induction s as [|c s IH]; [done|].
  change (String c s +:+ rest) with (String c (s +:+ rest)).
  cbn [String.length substring]. by rewrite IH.
Qed.

Lemma take_bytes_app (s rest : string) :
  take_bytes (N.of_nat (String.length s)) (s +:+ rest) = Some (s, rest).
Proof.
  unfold take_bytes. rewrite length_app_string, Nat2N.id.
  rewrite decide_True by lia.
  rewrite substring_app_l, substring_app_r.
  replace (String.length s + String.length rest - String.length s)
    with (String.length rest) by lia.
  by rewrite substring_all.
Qed.

Lemma get_uint_byte (k : nat) (acc n : N) (x : string) :
  (n < 256)%N ->
  get_uint (Datatypes.S k) acc (byte n +:+ x)
  = get_uint k (acc * 256 + n)%N x.
Proof.
  intros Hn. rewrite byte_app. cbn [get_uint].
  by rewrite N_ascii_embedding.
Qed.

Lemma get_uint_1 (n : N) (x : string) :
  (n < 256)%N -> get_uint 1 0 (byte n +:+ x) = Some (n, x).
Proof. intros Hn. by rewrite get_uint_byte. Qed.

Lemma get_uint_2 (n : N) (x : string) :
  (n < 65536)%N -> get_uint 2 0 (be16 n +:+ x) = Some (n, x).
Proof.
  intros Hn. unfold be16. rewrite app_string_assoc.
  rewrite !get_uint_byte by
    (try apply N.mod_upper_bound; try apply N.Div0.div_lt_upper_bound; lia).
  cbn [get_uint]. do 2 f_equal.
  rewrite (N.div_mod n 256) at 3 by lia. lia.
Qed.

Lemma get_uint_4 (n : N) (x : string) :
  (n < 4294967296)%N -> get_uint 4 0 (be32 n +:+ x) = Some (n, x).
Proof.
  intros Hn. unfold be32, be16. rewrite !app_string_assoc.
  assert (n / 65536 < 65536)%N
    by (apply N.Div0.div_lt_upper_bound; lia).
  assert (n mod 65536 < 65536)%N by (apply N.mod_upper_bound; lia).
  rewrite !get_uint_byte by
    (try apply N.mod_upper_bound; try apply N.Div0.div_lt_upper_bound; lia).
  cbn [get_uint]. do 2 f_equal.
  rewrite (N.div_mod n 65536) at 5 by lia.
  rewrite (N.div_mod (n / 65536) 256) at 3 by lia.
  rewrite (N.div_mod (n mod 65536) 256) at 3 by lia.
  lia.
Qed.

(** A string written is the string read, with the rest of the input
    left as it is. *)
Lemma get_str_put_str (s rest : string) :
  fits32 (String.length s) = true ->
  get_str (put_str s +:+ rest) = Some (s, rest).
Proof.
  unfold fits32. intros Hfit%bool_decide_eq_true. unfold put_str. cbv zeta.
  set (n := N.of_nat (String.length s)) in *.
  rewrite app_string_assoc.
  destruct (decide (n < 32)%N) as [H32|H32].
  { rewrite byte_app. cbn [get_str]. cbv zeta.
    rewrite N_ascii_embedding by lia.
    rewrite decide_True by lia.
    replace (160 + n - 160)%N with n by lia. apply take_bytes_app. }
  destruct (decide (n < 256)%N) as [H256|H256].
  { rewrite app_string_assoc, byte_app. cbn [get_str]. cbv zeta.
    change (N_of_ascii (ascii_of_N 217)) with 217%N.
    rewrite decide_False, decide_True by lia.
    rewrite get_uint_1 by done. cbn. apply take_bytes_app. }
  destruct (decide (n < 65536)%N) as [H64k|H64k].
  { rewrite app_string_assoc, byte_app. cbn [get_str]. cbv zeta.
    change (N_of_ascii (ascii_of_N 218)) with 218%N.
    rewrite decide_False, decide_False, decide_True by lia.
    rewrite get_uint_2 by done. cbn. apply take_bytes_app. }
  rewrite app_string_assoc, byte_app. cbn [get_str]. cbv zeta.
  change (N_of_ascii (ascii_of_N 219)) with 219%N.
  rewrite decide_False, decide_False, decide_False, decide_True by lia.
  rewrite get_uint_4 by done. cbn. apply take_bytes_app.
Qed.

Lemma get_strs_n_put (l : list string) (rest : string) :
  forallb (fun a => fits32 (String.length a)) l = true ->
  get_strs_n (length l)
    (fold_right (fun s acc => put_str s +:+ acc) "" l +:+ rest)
  = Some (l, rest).
Proof.
  induction l as [|s l IH]; [done|]. cbn [forallb length fold_right get_strs_n].
  intros [Hs Hl]%andb_true_iff.
  rewrite app_string_assoc, get_str_put_str by done.
  cbn. by rewrite IH.
Qed.

(** A list of strings written is the list read. *)
Lemma get_strs_put_strs (l : list string) (rest : string) :
  fits32 (length l) = true ->
  forallb (fun a => fits32 (String.length a)) l = true ->
  get_strs (put_strs l +:+ rest) = Some (l, rest).
Proof.
  unfold fits32. intros Hfit%bool_decide_eq_true Hl.
  unfold put_strs, put_array_header.
  set (n := N.of_nat (length l)) in *.
  rewrite app_string_assoc.
  assert (N.to_nat n = length l) as Hn by (subst n; apply Nat2N.id).
  destruct (decide (n < 16)%N) as [H16|H16].
  { rewrite byte_app. cbn [get_strs]. cbv zeta.
    rewrite N_ascii_embedding by lia.
    rewrite decide_True by lia.
    replace (144 + n - 144)%N with n by lia. rewrite Hn.
    by apply get_strs_n_put. }
  destruct (decide (n < 65536)%N) as [H64k|H64k].
  { rewrite app_string_assoc, byte_app. cbn [get_strs]. cbv zeta.
    change (N_of_ascii (ascii_of_N 220)) with 220%N.
    rewrite decide_False, decide_True by lia.
    rewrite get_uint_2 by done. cbn. rewrite Hn. by apply get_strs_n_put. }
  rewrite app_string_assoc, byte_app. cbn [get_strs]. cbv zeta.
  change (N_of_ascii (ascii_of_N 221)) with 221%N.
  rewrite decide_False, decide_False, decide_True by lia.
  rewrite get_uint_4 by done. cbn. rewrite Hn. by apply get_strs_n_put.
Qed.

(** The record written is the record read: the exported fields of [p],
    in the receiver [q]. *)
Lemma decode_encode (p q : PublishedRepo) :
  encodable p = true -> decode (encode p) q = Ok (persisted p q).
Proof.
  unfold encodable.
  intros [[[[[[[HU HP]%andb_true_iff HD]%andb_true_iff HC]%andb_true_iff
            HAn]%andb_true_iff HA]%andb_true_iff HK]%andb_true_iff
          HS]%andb_true_iff.
  unfold decode, encode. rewrite byte_app.
  change (N_of_ascii (ascii_of_N 135)) with 135%N.
  rewrite decide_True by lia.
  change (N.to_nat (135 - 128)) with 7.
  rewrite <- (app_string_nil_r (put_str (SourceUUID p))).
  cbn [get_fields].
  repeat first
    [ rewrite get_strs_put_strs by done
    | rewrite get_str_put_str by done
    | progress cbn [mbind option_bind set_string_field]
    | rewrite decide_True by done
    | rewrite decide_False by done ].
  done.
Qed.
End MsgpackFacts.

(** C6 (as amended).  For a [p] within the limits of msgpack (each string
    and the list of architectures shorter than 2^32), [Decode] of
    [Encode(p)] succeeds, and the value it yields has the [UUID],
    [Prefix], [Distribution], [Component], [Architectures] and
    [SourceUUID] of [p]; its [SourceKind] is that of [p] when that is not
    empty, and ["snapshot"] when it is.  For every input a codec decodes
    to a record with an empty [SourceKind], [Decode] yields that record
    with [SourceKind = "snapshot"]. *)
Theorem Decode_Encode (p q : PublishedRepo) :
  encodable p = true ->
  (exists r : PublishedRepo,
     Decode (H := Msgpack.codec) q (Encode (H := Msgpack.codec) p) = Ok r
     /\ UUID r = UUID p /\ Prefix r = Prefix p
     /\ Distribution r = Distribution p /\ Component r = Component p
     /\ Architectures r = Architectures p /\ SourceUUID r = SourceUUID p
     /\ SourceKind r = (if decide (SourceKind p = "") then "snapshot"
                        else SourceKind p)
     /\ (SourceKind p <> "" -> r = persisted p q))
  /\ (forall (other : Codec) (input : string) (r : PublishedRepo),
        codec_Decode (Codec := other) input q = Ok r -> SourceKind r = "" ->
        Decode (H := other) q input = Ok (set_SourceKind r "snapshot")
        /\ SourceKind (set_SourceKind r "snapshot") = "snapshot").
Proof.
  intros Hfits. split.
  - unfold Decode, Encode. cbn [codec_Decode codec_Encode Msgpack.codec].
    rewrite (MsgpackFacts.decode_encode p q Hfits). cbn [SourceKind persisted].
    destruct (decide (SourceKind p = "")) as [Hk|Hk]; eexists; split; try done.
    all: repeat split; try done.
  - intros other input r Hr Hk. unfold Decode. rewrite Hr.
    by rewrite decide_True.
Qed.

Lemma Decode_Encode_witness :
  Decode (H := Msgpack.codec) zero_repo
         (Encode (H := Msgpack.codec) (sample_repo "u0" "p" "a" "main"))
  = Ok (sample_repo "u0" "p" "a" "main")
  /\ exists r : PublishedRepo,
       Decode (H := Msgpack.codec) zero_repo legacy_record = Ok r
       /\ SourceKind r = "snapshot".
Proof.
  destruct (Decode_Encode (sample_repo "u0" "p" "a" "main") zero_repo eq_refl)
    as [(r & Hr & _ & _ & _ & _ & _ & _ & _ & Hsame) Hlegacy].
  split.
  - rewrite Hr. f_equal. by apply Hsame.
  - eexists. apply (Hlegacy Msgpack.codec legacy_record _ eq_refl eq_refl).
Defined.

(** C6 as stated fails for a value with an empty [SourceKind]: decoding
    what it encodes to gives [SourceKind = "snapshot"]. *)
Lemma Decode_Encode_counterexample :
  exists r : PublishedRepo,
    Decode (H := Msgpack.codec) zero_repo (Encode (H := Msgpack.codec) zero_repo)
    = Ok r
    /\ SourceKind r <> SourceKind zero_repo.
Proof. eexists. split; [vm_compute; reflexivity | done]. Qed.

(** ** NewPublishedRepo *)

Lemma is_source_kind (source : Value) :
  is_source source = true ->
  exists (kind uuid : string) (snap : option Snapshot.t) (lrepo : option LocalRepo.t),
    match source with
    | VSnapshot s => Ok ("snapshot", Snapshot.UUID s, Some s, None)
    | VLocalRepo l => Ok ("local", LocalRepo.UUID l, None, Some l)
    | _ => Panic "unknown source kind"
    end = Ok (kind, uuid, snap, lrepo).
Proof. destruct source; try done; intros _; by repeat eexists. Qed.

Lemma invalid_prefix_iff (prefix : string) :
  invalid_prefix prefix = true
  <-> exists part : string,
        part ∈ strings_Split prefix "/"
        /\ (part = ".." \/ part = "dists" \/ part = "pool").
Proof.
  unfold invalid_prefix. rewrite existsb_exists.
  setoid_rewrite list_elem_of_In. unfold forbidden_part.
  setoid_rewrite orb_true_iff. setoid_rewrite orb_true_iff.
  setoid_rewrite bool_decide_eq_true. split.
  - intros (part & ? & [[?|?]|?]); exists part; tauto.
  - intros (part & ? & [?|[?|?]]); exists part; tauto.
Qed.

(** C3.  The prefix is cleaned, loses one leading and one trailing slash,
    and is cleaned again.  When a part of the result between slashes is
    [..], [dists] or [pool], the construction fails with [invalid prefix]
    followed by the result; otherwise a repository that is returned has
    the result as its [Prefix], and one is returned when distribution and
    component are given. *)
Theorem NewPublishedRepo_prefix (fuel : nat) (newUUID prefix distribution
    component : string) (architectures : list string) (source : Value)
    (collectionFactory : CollectionFactory) :
  is_source source = true ->
  let cleaned := normalize_prefix prefix in
  let outcome := NewPublishedRepo fuel newUUID prefix distribution component
                   architectures source collectionFactory in
  cleaned
  = filepath_Clean
      (let once := filepath_Clean prefix in
       let no_lead := if strings_HasPrefix once "/" then slice_from 1 once
                      else once in
       if strings_HasSuffix no_lead "/"
       then slice_to (String.length no_lead - 1) no_lead else no_lead)
  /\ ((exists part : string,
         part ∈ strings_Split cleaned "/"
         /\ (part = ".." \/ part = "dists" \/ part = "pool")) ->
      outcome = Some (Err (Errorf ("invalid prefix " +:+ cleaned))))
  /\ ((~ exists part : string,
         part ∈ strings_Split cleaned "/"
         /\ (part = ".." \/ part = "dists" \/ part = "pool")) ->
      (forall r : PublishedRepo, outcome = Some (Ok r) -> Prefix r = cleaned)
      /\ (distribution <> "" -> component <> "" ->
          exists r : PublishedRepo, outcome = Some (Ok r) /\ Prefix r = cleaned))
  /\ normalize_prefix "/foo/bar/" = "foo/bar"
  /\ NewPublishedRepo fuel newUUID "foo/dists/x" distribution component
       architectures source collectionFactory
     = Some (Err (Errorf "invalid prefix foo/dists/x")).
Proof.
  intros Hsrc cleaned outcome.
  destruct (is_source_kind source Hsrc) as (kind & uuid & snap & lrepo & Hkind).
  split; [done|]. split; [|split; [|split]].
  - intros Hbad%invalid_prefix_iff. subst outcome. unfold NewPublishedRepo.
    rewrite Hkind. fold cleaned. by rewrite Hbad.
  - intros Hgood. rewrite <- invalid_prefix_iff in Hgood.
    apply not_true_is_false in Hgood.
    subst outcome. unfold NewPublishedRepo. rewrite Hkind. fold cleaned.
    rewrite Hgood. split.
    + intros r. destruct (bool_decide (component = "") || bool_decide (distribution = "")).
      * destruct (walk _ _ _ _ _) as [[[rcs rds]|e|msg]|]; try done.
        destruct (guess_distribution distribution rds); try done.
        by intros [= <-].
      * by intros [= <-].
    + intros Hd Hc. rewrite !bool_decide_eq_false_2 by done. simpl.
      by eexists.
  - by vm_compute.
  - unfold NewPublishedRepo. rewrite Hkind.
    change (normalize_prefix "foo/dists/x") with "foo/dists/x".
    by change (invalid_prefix "foo/dists/x") with true.
Qed.

Lemma NewPublishedRepo_prefix_witness :
  NewPublishedRepo 0 "6ba7" "//srv/../debian/./stable/" "wheezy" "main" ["amd64"]
                   (VSnapshot snapshot_s1) sample_factory
  = Some (Ok {| UUID := "6ba7"; Prefix := "debian/stable";
                Distribution := "wheezy"; Component := "main";
                Architectures := ["amd64"]; SourceKind := "snapshot";
                SourceUUID := "s1"; snapshot := Some snapshot_s1;
                localRepo := None |})
  /\ NewPublishedRepo 0 "6ba7" "a/../pool" "wheezy" "main" ["amd64"]
                      (VSnapshot snapshot_s1) sample_factory
     = Some (Err (Errorf "invalid prefix pool")).
Proof.
  split.
  - destruct (NewPublishedRepo_prefix 0 "6ba7" "//srv/../debian/./stable/"
                "wheezy" "main" ["amd64"] (VSnapshot snapshot_s1) sample_factory
                eq_refl) as (_ & _ & Hgood & _).
    destruct Hgood as [_ Hex].
    { intros (part & Hin & Hpart). vm_compute in Hin.
      apply list_elem_of_In in Hin. simpl in Hin.
      destruct Hin as [<-|[<-|[]]]; destruct Hpart as [|[|]]; done. }
    destruct (Hex ltac:(done) ltac:(done)) as (r & Hr & _). reflexivity.
  - destruct (NewPublishedRepo_prefix 0 "6ba7" "a/../pool"
                "wheezy" "main" ["amd64"] (VSnapshot snapshot_s1) sample_factory
                eq_refl) as (_ & Hbad & _).
    apply Hbad. exists "pool". split; [|tauto].
    apply list_elem_of_In. vm_compute. tauto.
Defined.

(** C9.  With a snapshot or a local repo as source and distribution and
    component given, the prefixes [""] and ["/"] give a repository whose
    [Prefix] is ["."]: cleaning maps both to ["."], and ["."] is not one of
    the refused parts. *)
Theorem NewPublishedRepo_root (fuel : nat) (newUUID prefix distribution
    component : string) (architectures : list string) (source : Value)
    (collectionFactory : CollectionFactory) :
  is_source source = true -> distribution <> "" -> component <> "" ->
  prefix = "" \/ prefix = "/" ->
  normalize_prefix prefix = "."
  /\ invalid_prefix "." = false
  /\ exists r : PublishedRepo,
       NewPublishedRepo fuel newUUID prefix distribution component
                        architectures source collectionFactory = Some (Ok r)
       /\ Prefix r = "." /\ Distribution r = distribution
       /\ Component r = component.
Proof.
  intros Hsrc Hd Hc Hp.
  destruct (is_source_kind source Hsrc) as (kind & uuid & snap & lrepo & Hkind).
  assert (Hn : normalize_prefix prefix = ".") by by destruct Hp as [->| ->].
  split; [done|]. split; [done|].
  unfold NewPublishedRepo. rewrite Hkind, Hn.
  change (invalid_prefix ".") with false. cbv iota.
  rewrite !bool_decide_eq_false_2 by done. simpl. by eexists.
Qed.

Lemma NewPublishedRepo_root_witness :
  exists r : PublishedRepo,
    NewPublishedRepo 0 "6ba7" "/" "wheezy" "main" []
                     (VLocalRepo (LocalRepo.Build "l1" "" "")) sample_factory
    = Some (Ok r)
    /\ Prefix r = ".".
Proof.
  destruct (NewPublishedRepo_root 0 "6ba7" "/" "wheezy" "main" []
              (VLocalRepo (LocalRepo.Build "l1" "" "")) sample_factory
              eq_refl ltac:(done) ltac:(done) (or_intror eq_refl))
    as (_ & _ & r & Hr & Hp & _).
  by exists r.
Defined.

(** *** Guessing the distribution and the component *)

(** A walk that has ended ends the same way with more iterations
    allowed. *)
Lemma walk_more_fuel (cf : CollectionFactory) (fuel : nat) :
  forall (current : list Value) (rcs rds : list string)
         (r : result (list string * list string)) (fuel' : nat),
    walk fuel cf current rcs rds = Some r -> fuel <= fuel' ->
    walk fuel' cf current rcs rds = Some r.
Proof.
  induction fuel as [|fuel IH]; intros current rcs rds r fuel' Hw Hle.
  - destruct current; [|done]. by destruct fuel'.
  - destruct current as [|head current]; [by destruct fuel'|].
    destruct fuel' as [|fuel']; [lia|].
    simpl in *. destruct head; try done; apply IH; (done || lia).
Qed.

Lemma sorted_le_last (l : list string) (z : string) :
  StronglySorted String.le l -> last l = Some z ->
  forall x : string, x ∈ l -> String.le x z.
Proof.
  induction 1 as [|y l Hl IH Hy]; intros Hlast x Hx.
  { by apply elem_of_nil in Hx. }
  destruct l as [|y' l'].
  - simpl in Hlast. injection Hlast as <-.
    apply list_elem_of_singleton in Hx as ->. done.
  - change (last (y :: y' :: l')) with (last (y' :: l')) in Hlast.
    apply elem_of_cons in Hx as [->|Hx]; [|by apply IH].
    rewrite Forall_forall in Hy. apply Hy.
    by apply last_Some_elem_of.
Qed.

(** On a sorted slice, first equal to last says that all the strings are
    the same one. *)
Lemma unanimous_sort (l : list string) (d : string) :
  unanimous (sort_Strings l) = Some d <-> all_are d l.
Proof.
  unfold sort_Strings, all_are.
  pose proof (StronglySorted_merge_sort String.le l) as Hs.
  pose proof (merge_sort_Permutation String.le l) as Hp.
  destruct (merge_sort String.le l) as [|first rest] eqn:Hm.
  - apply Permutation_nil_l in Hp as <-. simpl. split; [done|]. by intros [? _].
  - unfold unanimous. split.
    + case_decide as Hlast; [|done]. intros [= ->]. split.
      { intros ->. by apply Permutation_nil_r in Hp. }
      intros x Hx. rewrite <- Hp in Hx.
      assert (String.le x d) by by eapply sorted_le_last.
      assert (String.le d x).
      { apply StronglySorted_inv in Hs as [_ Hall].
        apply elem_of_cons in Hx as [->|Hx]; [done|].
        rewrite Forall_forall in Hall. by apply Hall. }
      by apply (anti_symm String.le).
    + intros [_ Hall].
      assert (Hall' : forall x, x ∈ first :: rest -> x = d).
      { intros x Hx. apply Hall. by rewrite <- Hp. }
      assert (first = d) as -> by (apply Hall'; left).
      destruct (last (d :: rest)) as [z|] eqn:Hlast;
        [|by apply last_None in Hlast].
      assert (z = d) as -> by by apply Hall', last_Some_elem_of.
      by rewrite decide_True.
Qed.

Lemma unanimous_sort_None (l : list string) :
  unanimous (sort_Strings l) = None <-> ~ exists d : string, all_are d l.
Proof.
  split.
  - intros Hn [d Hd%unanimous_sort]. congruence.
  - intros Hn. destruct (unanimous (sort_Strings l)) as [d|] eqn:Hu; [|done].
    destruct Hn. exists d. by apply unanimous_sort.
Qed.

(** C4.  With no distribution given, and a walk that ends (within [fuel]
    iterations, and so within any larger number) having collected the root
    distributions [rds]: when there is at least one and all are the same
    string (the first equals the last after sorting), that string is the
    distribution of the repository returned; in every other case the
    construction fails with "unable to guess distribution name, please
    specify explicitly". *)
Theorem NewPublishedRepo_guess_distribution (fuel fuel' : nat)
    (newUUID prefix component : string) (architectures : list string)
    (source : Value) (collectionFactory : CollectionFactory)
    (rcs rds : list string) :
  is_source source = true ->
  invalid_prefix (normalize_prefix prefix) = false ->
  walk fuel collectionFactory [source] [] [] = Some (Ok (rcs, rds)) ->
  fuel <= fuel' ->
  let outcome := NewPublishedRepo fuel' newUUID prefix "" component
                   architectures source collectionFactory in
  let guess_fails :=
    Errorf "unable to guess distribution name, please specify explicitly" in
  (forall d : string,
     all_are d rds <-> unanimous (sort_Strings rds) = Some d)
  /\ (forall d : string,
        all_are d rds <->
        exists r : PublishedRepo, outcome = Some (Ok r) /\ Distribution r = d)
  /\ ((~ exists d : string, all_are d rds) <-> outcome = Some (Err guess_fails)).
Proof.
  intros Hsrc Hprefix Hwalk0 Hle outcome guess_fails.
  pose proof (walk_more_fuel _ _ _ _ _ _ _ Hwalk0 Hle) as Hwalk.
  destruct (is_source_kind source Hsrc) as (kind & uuid & snap & lrepo & Hkind).
  assert (Hout : outcome
            = match unanimous (sort_Strings rds) with
              | Some d =>
                  Some (Ok {| UUID := newUUID; Prefix := normalize_prefix prefix;
                              Distribution := d;
                              Component := guess_component component rcs;
                              Architectures := architectures;
                              SourceKind := kind; SourceUUID := uuid;
                              snapshot := snap; localRepo := lrepo |})
              | None => Some (Err guess_fails)
              end).
  { subst outcome. unfold NewPublishedRepo. rewrite Hkind, Hprefix.
    rewrite (bool_decide_eq_true_2 ("" = "")), orb_true_r by done.
    rewrite Hwalk. unfold guess_distribution. rewrite decide_True by done.
    by destruct (unanimous (sort_Strings rds)). }
  split; [|split].
  - intros d. by rewrite unanimous_sort.
  - intros d. rewrite <- unanimous_sort, Hout. split.
    + intros ->. by eexists.
    + intros (r & Hr & <-).
      destruct (unanimous (sort_Strings rds)); [|done].
      by injection Hr as <-.
  - rewrite <- unanimous_sort_None, Hout. split.
    + by intros ->.
    + by destruct (unanimous (sort_Strings rds)).
Qed.

Lemma NewPublishedRepo_guess_distribution_witness :
  (exists r : PublishedRepo,
     NewPublishedRepo 9 "6ba7" "." "" "" ["amd64"] (VSnapshot snapshot_s4)
                      sample_factory = Some (Ok r)
     /\ Distribution r = "wheezy")
  /\ NewPublishedRepo 9 "6ba7" "." "" "" ["amd64"] (VSnapshot snapshot_s2)
                      sample_factory
     = Some (Err (Errorf "unable to guess distribution name, please specify explicitly")).
Proof.
  split.
  - apply (NewPublishedRepo_guess_distribution 3 9 "6ba7" "." "" ["amd64"]
             (VSnapshot snapshot_s4) sample_factory
             ["main"; "main"; "contrib"] ["wheezy"; "wheezy"]
             eq_refl eq_refl eq_refl ltac:(lia)).
    split; [done|]. intros x Hx. apply list_elem_of_In in Hx. simpl in Hx.
    destruct Hx as [<-|[<-|[]]]; reflexivity.
  - apply (NewPublishedRepo_guess_distribution 5 9 "6ba7" "." "" ["amd64"]
             (VSnapshot snapshot_s2) sample_factory
             ["main"; "main"] ["wheezy"; "jessie"]
             eq_refl eq_refl eq_refl ltac:(lia)).
    intros (d & _ & Hall).
    assert ("wheezy" = d) by (apply Hall; left).
    assert ("jessie" = d) by (apply Hall; right; left).
    congruence.
Defined.

(** C5.  With no component given, and a walk that ends (within [fuel]
    iterations, and so within any larger number) having collected the root
    components [rcs]: the construction fails only where the distribution
    cannot be settled; where it can, the repository returned has the
    collected component when there is at least one and all are the same
    string, and [main] in every other case. *)
Theorem NewPublishedRepo_guess_component (fuel fuel' : nat)
    (newUUID prefix distribution : string) (architectures : list string)
    (source : Value) (collectionFactory : CollectionFactory)
    (rcs rds : list string) :
  is_source source = true ->
  invalid_prefix (normalize_prefix prefix) = false ->
  walk fuel collectionFactory [source] [] [] = Some (Ok (rcs, rds)) ->
  fuel <= fuel' ->
  let outcome := NewPublishedRepo fuel' newUUID prefix distribution ""
                   architectures source collectionFactory in
  (forall c : string,
     all_are c rcs <-> unanimous (sort_Strings rcs) = Some c)
  /\ (forall d : string,
        distribution = d /\ d <> "" \/ distribution = "" /\ all_are d rds ->
        exists r : PublishedRepo,
          outcome = Some (Ok r) /\ Distribution r = d
          /\ (forall c : string, all_are c rcs -> Component r = c)
          /\ ((~ exists c : string, all_are c rcs) -> Component r = "main"))
  /\ (forall e : error,
        outcome = Some (Err e) ->
        distribution = "" /\ (~ exists d : string, all_are d rds)
        /\ e = Errorf "unable to guess distribution name, please specify explicitly")
  /\ (forall msg : string, outcome <> Some (Panic msg)) /\ outcome <> None.
Proof.
  intros Hsrc Hprefix Hwalk0 Hle outcome.
  pose proof (walk_more_fuel _ _ _ _ _ _ _ Hwalk0 Hle) as Hwalk.
  destruct (is_source_kind source Hsrc) as (kind & uuid & snap & lrepo & Hkind).
  assert (Hout : outcome
            = match guess_distribution distribution rds with
              | Ok d =>
                  Some (Ok {| UUID := newUUID; Prefix := normalize_prefix prefix;
                              Distribution := d;
                              Component := guess_component "" rcs;
                              Architectures := architectures;
                              SourceKind := kind; SourceUUID := uuid;
                              snapshot := snap; localRepo := lrepo |})
              | Err e => Some (Err e)
              | Panic msg => Some (Panic msg)
              end).
  { subst outcome. unfold NewPublishedRepo. rewrite Hkind, Hprefix.
    rewrite (bool_decide_eq_true_2 ("" = "")) by done. rewrite orb_true_l.
    by rewrite Hwalk. }
  assert (Hcomp : (forall c : string, all_are c rcs -> guess_component "" rcs = c)
                  /\ ((~ exists c : string, all_are c rcs) ->
                      guess_component "" rcs = "main")).
  { unfold guess_component. rewrite decide_True by done. split.
    - intros c Hc%unanimous_sort. by rewrite Hc.
    - intros Hn%unanimous_sort_None. by rewrite Hn. }
  split; [|split; [|split; [|split]]].
  - intros c. by rewrite unanimous_sort.
  - intros d Hd. rewrite Hout.
    assert (guess_distribution distribution rds = Ok d) as ->.
    { unfold guess_distribution.
      destruct Hd as [[-> Hne]|[-> Hall%unanimous_sort]].
      - by rewrite decide_False.
      - by rewrite decide_True, Hall. }
    eexists. split; [done|]. split; [done|]. exact Hcomp.
  - intros e. rewrite Hout. unfold guess_distribution.
    case_decide as Hd; [|done].
    destruct (unanimous (sort_Strings rds)) eqn:Hu; [done|].
    intros [= <-]. by apply unanimous_sort_None in Hu.
  - intros msg. rewrite Hout. unfold guess_distribution.
    case_decide; [|done]. by destruct (unanimous (sort_Strings rds)).
  - rewrite Hout. by destruct (guess_distribution distribution rds).
Qed.

Lemma NewPublishedRepo_guess_component_witness :
  exists r : PublishedRepo,
    NewPublishedRepo 9 "6ba7" "." "" "" ["amd64"] (VSnapshot snapshot_s4)
                     sample_factory = Some (Ok r)
    /\ Distribution r = "wheezy" /\ Component r = "main".
Proof.
  destruct (NewPublishedRepo_guess_component 3 9 "6ba7" "." "" ["amd64"]
              (VSnapshot snapshot_s4) sample_factory
              ["main"; "main"; "contrib"] ["wheezy"; "wheezy"]
              eq_refl eq_refl eq_refl ltac:(lia)) as (_ & Hok & _).
  destruct (Hok "wheezy") as (r & Hr & Hd & _ & Hmain).
  { right. split; [done|]. split; [done|].
    intros x Hx. apply list_elem_of_In in Hx. simpl in Hx.
    destruct Hx as [<-|[<-|[]]]; reflexivity. }
  exists r. split; [done|]. split; [done|]. apply Hmain.
  intros (c & _ & Hall).
  assert ("main" = c) by (apply Hall; left).
  assert ("contrib" = c) by (apply Hall; right; right; left).
  congruence.
Defined.

(** ** Publish *)

Section PublishFacts.
Context {St Pkg RefList : Type}.
Context `{PublishedStorage St} `{Publishing St Pkg RefList}.

Lemma Publish_loaded (p : PublishedRepo) (signer : bool) (st st' : St)
    (packages : list Pkg) :
  load_packages p st = (Ok packages, st') ->
  Publish p signer st
  = match settle_architectures p packages with
    | Ok p' =>
        let '(r, st'') := materialize p' packages signer st' in (r, st'', p')
    | Err e => (Err e, st', p)
    | Panic msg => (Panic msg, st', p)
    end.
Proof. intros Hl. unfold Publish. by rewrite Hl. Qed.

Lemma length_zero_iff {A : Type} (l : list A) : length l = 0 <-> l = [].
Proof. by destruct l. Qed.

Lemma settle_architectures_eq (p : PublishedRepo) (packages : list Pkg) :
  settle_architectures p packages
  = if decide (packages = []) then Err (Errorf "snapshot is empty")
    else
      let computed :=
        if decide (Architectures p = [])
        then PackageList_Architectures packages true
        else Architectures p in
      if decide (computed = []) then
        Err (Errorf "unable to figure out list of architectures, please supply explicit list")
      else Ok (set_Architectures p (sort_Strings computed)).
Proof.
  unfold settle_architectures.
  destruct packages as [|pkg packages]; [done|].
  rewrite (decide_False (P := length (pkg :: packages) = 0)) by done.
  rewrite (decide_False (P := pkg :: packages = [])) by done.
  cbv zeta.
  destruct (Architectures p) as [|a archs] eqn:Ha.
  - rewrite (decide_True (P := length [] = 0)) by done.
    rewrite (decide_True (P := [] = [])) by done.
    destruct (PackageList_Architectures (pkg :: packages) true) as [|c cs].
    + by rewrite !decide_True.
    + by rewrite !decide_False.
  - rewrite (decide_False (P := length (a :: archs) = 0)) by done.
    rewrite (decide_False (P := a :: archs = [])) by done.
    by rewrite !decide_False.
Qed.
End PublishFacts.

(** C7.  Once the directories are made and the packages loaded:
    [Publish] fails with "snapshot is empty" when the package list is
    empty; with no architectures given it takes those of the package list,
    asked for with the source architecture included, and fails when there
    are still none; otherwise it goes on with the architectures sorted, and
    leaves them sorted in the receiver. *)
Theorem Publish_architectures {St Pkg RefList : Type}
    `{PublishedStorage St} `{Publishing St Pkg RefList}
    (p : PublishedRepo) (signer : bool) (st st' : St) (packages : list Pkg) :
  load_packages p st = (Ok packages, st') ->
  let computed :=
    if decide (Architectures p = [])
    then PackageList_Architectures packages true
    else Architectures p in
  let sorted := set_Architectures p (sort_Strings computed) in
  (packages = [] ->
   Publish p signer st = (Err (Errorf "snapshot is empty"), st', p))
  /\ (packages <> [] -> computed = [] ->
      Publish p signer st
      = (Err (Errorf "unable to figure out list of architectures, please supply explicit list"),
         st', p))
  /\ (packages <> [] -> computed <> [] ->
      Publish p signer st
      = (let '(r, st'') := materialize sorted packages signer st' in
         (r, st'', sorted))
      /\ (Publish p signer st).2 = sorted
      /\ Sorted String.le (Architectures sorted)
      /\ Architectures sorted ≡ₚ computed).
Proof.
  intros Hl computed sorted.
  rewrite (Publish_loaded _ _ _ _ _ Hl), settle_architectures_eq.
  fold computed. fold sorted. split; [|split].
  - intros ->. by rewrite decide_True.
  - intros Hp Hc. by rewrite decide_False, decide_True.
  - intros Hp Hc. rewrite decide_False, decide_False by done.
    split; [done|]. split.
    { subst sorted. by destruct (materialize _ packages signer st'). }
    split.
    + apply Sorted_merge_sort. apply _.
    + apply merge_sort_Permutation.
Qed.

Section ReleaseFacts.
Lemma stanza_append_other (key other s : string) (release : Stanza) :
  key <> other -> stanza_append key s release !! other = release !! other.
Proof. intros Hne. unfold stanza_append. by rewrite lookup_insert_ne. Qed.

(** The sums added for the generated files leave the other fields as
    they are. *)
Lemma release_sums_other (other : string)
    (generatedFiles : list (string * ChecksumInfo)) (release : Stanza) :
  other <> "MD5Sum" -> other <> "SHA1" -> other <> "SHA256" ->
  fold_left
    (fun release '(path, info) =>
       let line (hash : string) :=
         " " +:+ hash +:+ " " +:+ fmt_8d (Size info) +:+ " " +:+ path +:+ "
" in
       stanza_append "SHA256" (line (SHA256 info))
         (stanza_append "SHA1" (line (SHA1 info))
            (stanza_append "MD5Sum" (line (MD5 info)) release)))
    generatedFiles release !! other
  = release !! other.
Proof.
  intros H1 H2 H3. revert release.
  induction generatedFiles as [|[path info] files IH]; intros release; [done|].
  simpl. rewrite IH. by rewrite !stanza_append_other.
Qed.

Lemma release_stanza_fields (p : PublishedRepo) (date : string)
    (generatedFiles : list (string * ChecksumInfo)) :
  let release := release_stanza p date generatedFiles in
  release !! "Origin" = Some (Prefix p +:+ " " +:+ Distribution p)
  /\ release !! "Label" = Some (Prefix p +:+ " " +:+ Distribution p)
  /\ release !! "Codename" = Some (Distribution p)
  /\ release !! "Components" = Some (Component p)
  /\ release !! "Architectures"
     = Some (strings_Join (StrSlicesSubstract (Architectures p) ["source"]) " ").
Proof.
  unfold release_stanza. cbv zeta.
  repeat split; rewrite release_sums_other by done;
    repeat (first [by rewrite lookup_insert_eq
                  | rewrite lookup_insert_ne by done]).
Qed.

Lemma StrSlicesSubstract_source (l : list string) :
  StrSlicesSubstract l ["source"] = filter (fun a => a <> "source") l
  /\ "source" ∉ StrSlicesSubstract l ["source"].
Proof.
  unfold StrSlicesSubstract. split.
  - apply list_filter_iff. intros a. rewrite list_elem_of_singleton. done.
  - rewrite list_elem_of_filter. intros [Hn _]. apply Hn. left.
Qed.
End ReleaseFacts.

(** C8.  Once the packages are loaded, the architectures settled and the
    files of every architecture generated, [Publish] writes the Release
    stanza whose [Architectures] field is the architectures without
    [source], joined with spaces, whose [Origin] and [Label] are the prefix,
    a space and the distribution, whose [Codename] is the distribution and
    whose [Components] is the component. *)
Theorem Publish_release_stanza {St Pkg RefList : Type}
    `{PublishedStorage St} `{Publishing St Pkg RefList}
    (p p' : PublishedRepo) (signer : bool) (st st1 st2 : St)
    (packages : list Pkg) (generatedFiles : gmap string ChecksumInfo) :
  load_packages p st = (Ok packages, st1) ->
  settle_architectures p packages = Ok p' ->
  publish_architectures p' packages ∅ (Architectures p') st1
  = (Ok generatedFiles, st2) ->
  let release :=
    release_stanza p' (time_Now st2) (range_generatedFiles generatedFiles) in
  Publish p signer st
  = (let '(r, st3) := write_release p' release signer st2 in (r, st3, p'))
  /\ release !! "Architectures"
     = Some (strings_Join
               (filter (fun a => a <> "source") (Architectures p')) " ")
  /\ ("source" ∉ filter (fun a => a <> "source") (Architectures p'))
  /\ release !! "Origin" = Some (Prefix p +:+ " " +:+ Distribution p)
  /\ release !! "Label" = Some (Prefix p +:+ " " +:+ Distribution p)
  /\ release !! "Codename" = Some (Distribution p)
  /\ release !! "Components" = Some (Component p).
Proof.
  intros Hl Hs Hg release.
  assert (Hsame : Prefix p' = Prefix p /\ Distribution p' = Distribution p
                  /\ Component p' = Component p).
  { rewrite settle_architectures_eq in Hs.
    destruct (decide (packages = [])) as [|_]; [done|]. cbv zeta in Hs.
    match type of Hs with
    | (if decide (?c = []) then _ else _) = _ =>
        destruct (decide (c = [])) as [|_]; [done|]
    end.
    by injection Hs as <-. }
  destruct Hsame as (HP & HD & HC).
  destruct (release_stanza_fields p' (time_Now st2)
              (range_generatedFiles generatedFiles))
    as (HO & HL & HCn & HCs & HA).
  destruct (StrSlicesSubstract_source (Architectures p')) as [Hf Hno].
  fold release in HO, HL, HCn, HCs, HA.
  rewrite HP, HD in HO, HL. rewrite HD in HCn. rewrite HC in HCs.
  rewrite Hf in HA, Hno.
  split; [|done].
  rewrite (Publish_loaded _ _ _ _ _ Hl), Hs.
  unfold materialize, bind. rewrite Hg. done.
Qed.

Lemma Publish_architectures_witness :
  exists st : MemStorage,
    Publish published_s1 true []
    = (Ok tt, st, set_Architectures published_s1 ["amd64"; "source"])
    /\ "dists/stable/Release.gpg" ∈ st.
Proof.
  assert (Hload : load_packages published_s1 []
                  = (Ok [ {| pkg_name := "nginx"; pkg_arch := "amd64" |};
                          {| pkg_name := "nginx"; pkg_arch := "source" |} ],
                     ["dists/stable"; "pool"]))
    by (vm_compute; reflexivity).
  destruct (Publish_architectures published_s1 true [] _ _ Hload)
    as (_ & _ & Hgo).
  destruct (Hgo ltac:(done) ltac:(done)) as (Hrun & _).
  rewrite Hrun. eexists. split; [vm_compute; reflexivity|].
  apply list_elem_of_In. vm_compute. tauto.
Defined.

Lemma Publish_release_stanza_witness :
  exists (release : Stanza) (st2 : MemStorage),
    Publish published_s1 false []
    = (let '(r, st3) :=
         write_release (set_Architectures published_s1 ["amd64"; "source"])
                       release false st2 in
       (r, st3, set_Architectures published_s1 ["amd64"; "source"]))
    /\ release !! "Architectures" = Some "amd64"
    /\ release !! "Origin" = Some ". stable"
    /\ release !! "Codename" = Some "stable"
    /\ release !! "Components" = Some "main".
Proof.
  pose (packages := [ {| pkg_name := "nginx"; pkg_arch := "amd64" |};
                      {| pkg_name := "nginx"; pkg_arch := "source" |} ]).
  pose (p' := set_Architectures published_s1 ["amd64"; "source"]).
  pose (run := publish_architectures p' packages ∅ (Architectures p')
                 ["dists/stable"; "pool"]).
  pose (generatedFiles := match run.1 with Ok g => g | _ => ∅ end).
  assert (Hload : load_packages published_s1 []
                  = (Ok packages, ["dists/stable"; "pool"]))
    by (vm_compute; reflexivity).
  assert (Hsettle : settle_architectures published_s1 packages = Ok p')
    by (vm_compute; reflexivity).
  assert (Hgen : run = (Ok generatedFiles, run.2))
    by (vm_compute; reflexivity).
  destruct (Publish_release_stanza published_s1 p' false [] _ _ packages
              generatedFiles Hload Hsettle Hgen)
    as (Hrun & HA & _ & HO & _ & HC & HCs).
  eexists _, _. split; [exact Hrun|].
  split; [exact HA|]. split; [exact HO|]. split; [exact HC | exact HCs].
Defined.

(** * Further properties *)

(** ** Lookups in the registry *)

Section LookupFacts.
Context {D : Type}.
Variable heap : ptr -> PublishedRepo.

Lemma find_app_first {A : Type} (f : A -> bool) (l1 l2 : list A) :
  find f (l1 ++ l2)
  = match find f l1 with Some x => Some x | None => find f l2 end.
Proof.
  induction l1 as [|x l1 IH]; [done|]. simpl. by destruct (f x).
Qed.

Lemma same_name_true (prefix distribution : string) (r : ptr) :
  same_name heap prefix distribution r = true
  <-> name_of heap r = (prefix, distribution).
Proof.
  unfold same_name, name_of. rewrite andb_true_iff, !bool_decide_eq_true.
  split; [by intros [-> ->] | by intros [= -> ->]].
Qed.

(** What [find] gives, by positions. *)
Lemma find_first {A : Type} (f : A -> bool) (l : list A) (x : A) :
  find f l = Some x
  <-> exists i : nat,
        l !! i = Some x /\ f x = true
        /\ forall (j : nat) (y : A), j < i -> l !! j = Some y -> f y = false.
Proof.
  induction l as [|y l IH]; simpl.
  - split; [done|]. by intros (i & Hi & _).
  - destruct (f y) eqn:Hy.
    + split.
      * intros [= ->]. exists 0. split; [done|]. split; [done|]. intros; lia.
      * intros ([|i] & Hi & Hx & Hbefore).
        -- by injection Hi as ->.
        -- specialize (Hbefore 0 y ltac:(lia) eq_refl). congruence.
    + rewrite IH. split.
      * intros (i & Hi & Hx & Hbefore). exists (Datatypes.S i).
        split; [done|]. split; [done|].
        intros [|j] z Hj Hz; [by injection Hz as <-|].
        apply (Hbefore j); [lia | done].
      * intros ([|i] & Hi & Hx & Hbefore).
        -- injection Hi as ->. congruence.
        -- exists i. split; [done|]. split; [done|].
           intros j z Hj Hz. apply (Hbefore (Datatypes.S j)); [lia | done].
Qed.

Lemma find_None_iff {A : Type} (f : A -> bool) (l : list A) :
  find f l = None <-> forall x : A, x ∈ l -> f x = false.
Proof.
  induction l as [|y l IH]; simpl.
  - split; [|done]. intros _ x Hx. by apply elem_of_nil in Hx.
  - destruct (f y) eqn:Hy.
    + split; [done|]. intros Hall. specialize (Hall y ltac:(left)). congruence.
    + rewrite IH. split.
      * intros Hall x [->|Hx]%elem_of_cons; [done | by apply Hall].
      * intros Hall x Hx. apply Hall. by right.
Qed.

(** With unique names the entry found is the entry of that name, wherever
    it stands. *)
Lemma find_unique_name (c : PublishedRepoCollection D)
    (prefix distribution : string) (r : ptr) :
  unique_names heap c ->
  find (same_name heap prefix distribution) (list_ c) = Some r
  <-> r ∈ list_ c /\ name_of heap r = (prefix, distribution).
Proof.
  intros Hu. rewrite find_first. split.
  - intros (i & Hi & Hn%same_name_true & _). split; [|done].
    by apply list_elem_of_lookup_2 in Hi.
  - intros [Hin Hn]. apply list_elem_of_lookup_1 in Hin as [i Hi].
    exists i. split; [done|]. split; [by apply same_name_true|].
    intros j y Hj Hy. apply not_true_iff_false. intros Hy'%same_name_true.
    apply (Hu j i y r Hy Hi); [lia|]. unfold name_of in *. congruence.
Qed.
End LookupFacts.

(** X1.  [ByPrefixDistribution] gives the first entry of the list with
    the prefix and the distribution asked for, and the error "not found"
    exactly when no entry has them, as in an empty registry; it does not
    panic. *)
Theorem ByPrefixDistribution_first {D : Type} (heap : ptr -> PublishedRepo)
    (c : PublishedRepoCollection D) (prefix distribution : string) :
  (forall r : ptr,
     ByPrefixDistribution heap c prefix distribution = Ok r
     <-> exists i : nat,
           list_ c !! i = Some r
           /\ Prefix (heap r) = prefix /\ Distribution (heap r) = distribution
           /\ forall (j : nat) (r' : ptr),
                j < i -> list_ c !! j = Some r' ->
                ~ (Prefix (heap r') = prefix
                   /\ Distribution (heap r') = distribution))
  /\ (ByPrefixDistribution heap c prefix distribution
      = Err (Errorf ("published repo with prefix/distribution "
                       +:+ prefix +:+ "/" +:+ distribution +:+ " not found"))
      <-> forall r : ptr,
            r ∈ list_ c ->
            ~ (Prefix (heap r) = prefix /\ Distribution (heap r) = distribution))
  /\ (forall msg : string,
        ByPrefixDistribution heap c prefix distribution <> Panic msg).
Proof.
  unfold ByPrefixDistribution. split; [|split].
  - intros r.
    assert (Hiff : find (same_name heap prefix distribution) (list_ c) = Some r
              <-> exists i : nat,
                    list_ c !! i = Some r
                    /\ Prefix (heap r) = prefix
                    /\ Distribution (heap r) = distribution
                    /\ forall (j : nat) (r' : ptr),
                         j < i -> list_ c !! j = Some r' ->
                         ~ (Prefix (heap r') = prefix
                            /\ Distribution (heap r') = distribution)).
    { rewrite find_first. split.
      - intros (i & Hi & Hn%same_name_true & Hbefore). injection Hn as Hp Hd.
        exists i. split; [done|]. split; [done|]. split; [done|].
        intros j y Hj Hy [Hp' Hd']. specialize (Hbefore j y Hj Hy).
        apply not_true_iff_false in Hbefore. apply Hbefore, same_name_true.
        unfold name_of. congruence.
      - intros (i & Hi & Hp & Hd & Hbefore). exists i. split; [done|]. split.
        { apply same_name_true. unfold name_of. congruence. }
        intros j y Hj Hy. apply not_true_iff_false. intros Hy'%same_name_true.
        apply (Hbefore j y Hj Hy). by injection Hy' as -> ->. }
    rewrite <- Hiff. destruct (find _ _) as [r0|]; split; congruence.
  - destruct (find _ _) as [r0|] eqn:Hf.
    + split; [done|]. intros Hall. apply find_first in Hf as (i & Hi & Hn & _).
      apply same_name_true in Hn. destruct (Hall r0).
      * by apply list_elem_of_lookup_2 in Hi.
      * by injection Hn as -> ->.
    + split; [|done]. intros _ r Hr [Hp Hd].
      rewrite find_None_iff in Hf. specialize (Hf r Hr).
      apply not_true_iff_false in Hf. apply Hf, same_name_true.
      unfold name_of. congruence.
  - intros msg. by destruct (find _ _).
Qed.

(** X2.  After an [Add] that succeeded, the entry added is the one
    [ByPrefixDistribution] gives for its prefix and distribution, and the
    duplicate a second [Add] of it would meet; the lookups of other names
    are as before, and the registry has one entry more. *)
Theorem Add_then_lookup {D : Type} `{Database D} `{Codec}
    (heap : ptr -> PublishedRepo) (c c' : PublishedRepoCollection D) (x : ptr) :
  Add heap c x = (Ok tt, c') ->
  ByPrefixDistribution heap c' (Prefix (heap x)) (Distribution (heap x)) = Ok x
  /\ CheckDuplicate heap c' x = Some x
  /\ (forall prefix distribution : string,
        (prefix, distribution) <> (Prefix (heap x), Distribution (heap x)) ->
        ByPrefixDistribution heap c' prefix distribution
        = ByPrefixDistribution heap c prefix distribution)
  /\ Len c' = Datatypes.S (Len c)
  /\ (Add heap c' x).1
     = Err (Errorf ("published repo with prefix/distribution "
                      +:+ Prefix (heap x) +:+ "/" +:+ Distribution (heap x)
                      +:+ " already exists")).
Proof.
  unfold Add. destruct (CheckDuplicate heap c x) eqn:Hdup; [done|].
  unfold Update. destruct (call _ _) as [[[]|e|msg] d]; simpl; [|done..].
  intros [= <-]. unfold CheckDuplicate in Hdup.
  assert (Hself : same_name heap (Prefix (heap x)) (Distribution (heap x)) x = true)
    by by apply same_name_true.
  assert (Hfind : find (same_name heap (Prefix (heap x)) (Distribution (heap x)))
                       (list_ c ++ [x]) = Some x).
  { rewrite find_app_first, Hdup. cbn [find]. by rewrite Hself. }
  split; [|split; [|split; [|split]]].
  - unfold ByPrefixDistribution. simpl. by rewrite Hfind.
  - unfold CheckDuplicate. simpl. exact Hfind.
  - intros prefix distribution Hne. unfold ByPrefixDistribution. cbn [list_].
    rewrite find_app_first.
    destruct (find (same_name heap prefix distribution) (list_ c)); [done|].
    cbn [find].
    destruct (same_name heap prefix distribution x) eqn:Hn; [|done].
    apply same_name_true in Hn. unfold name_of in Hn. congruence.
  - unfold Len. simpl. rewrite length_app. simpl. lia.
  - unfold CheckDuplicate. simpl. by rewrite Hfind.
Qed.

Lemma Add_then_lookup_witness :
  exists c' : PublishedRepoCollection (gmap string string),
    Add (H1 := Msgpack.codec) sample_heap sample_registry 2 = (Ok tt, c')
    /\ ByPrefixDistribution sample_heap c' "p" "." = Ok 2
    /\ Len c' = 4.
Proof.
  pose (c' := (Add (H1 := Msgpack.codec) sample_heap sample_registry 2).2).
  assert (Hadd : Add (H1 := Msgpack.codec) sample_heap sample_registry 2
                 = (Ok tt, c')) by (vm_compute; reflexivity).
  exists c'. split; [exact Hadd|].
  destruct (Add_then_lookup (H0 := Msgpack.codec) sample_heap sample_registry
              c' 2 Hadd) as (Hfound & _ & _ & Hlen & _).
  split; [exact Hfound | exact Hlen].
Defined.

Section RemoveLookup.
Context {St D : Type} `{PublishedStorage St} `{Database D}.
Variable heap : ptr -> PublishedRepo.

(** Where [RemoveFiles] succeeded, the list after [Remove] is the list
    before without the entry found, whatever [Delete] answers. *)
Lemma Remove_list (st st' : St) (c c' : PublishedRepoCollection D)
    (prefix distribution : string) (X : ptr) (r : result unit) :
  unique_names heap c ->
  ByPrefixDistribution heap c prefix distribution = Ok X ->
  RemoveFiles (heap X)
    (remove_scan heap X 0 (list_ c) true true (-1)).1.1
    (remove_scan heap X 0 (list_ c) true true (-1)).1.2 st = (Ok tt, st') ->
  Remove heap st c prefix distribution = (r, st', c') ->
  r = (call (Delete (Key (heap X))) (db c)).1
  /\ db c' = (call (Delete (Key (heap X))) (db c)).2
  /\ unique_names heap c'
  /\ (forall y : ptr, y ∈ list_ c' <-> y ∈ list_ c /\ y <> X)
  /\ Datatypes.S (Len c') = Len c.
Proof.
  intros Hu HX Hfiles Hrun.
  destruct (remove_scan heap X 0 (list_ c) true true (-1)) as [[rp rpc] pos] eqn:Hs.
  simpl in Hfiles.
  destruct (Remove_after_files heap _ _ _ _ _ _ _ _ _ _ HX Hs Hfiles)
    as (l' & Hperm & Hpos & Heq).
  rewrite Heq in Hrun. injection Hrun as <- <-.
  assert (Hnd : NoDup (list_ c)).
  { apply unique_names_NoDup in Hu. by apply NoDup_fmap_1 in Hu. }
  split; [done|]. split; [done|]. split; [|split].
  - apply unique_names_NoDup. simpl. rewrite Hperm, list_fmap_delete.
    eapply sublist_NoDup; [|apply sublist_delete]. by apply unique_names_NoDup.
  - intros y. simpl. rewrite Hperm.
    pose proof (delete_Permutation _ _ _ Hpos) as Hdel.
    assert (HndX : NoDup (X :: delete (Z.to_nat pos) (list_ c)))
      by by rewrite <- Hdel.
    apply NoDup_cons in HndX as [HXnot _].
    split.
    + intros Hy. split; [rewrite Hdel; by right|]. by intros ->.
    + intros [Hy Hne]. rewrite Hdel in Hy.
      by apply elem_of_cons in Hy as [->|Hy].
  - unfold Len. simpl. rewrite Hperm, length_delete by by eexists.
    apply lookup_lt_Some in Hpos. lia.
Qed.
End RemoveLookup.

(** X3.  In a registry with unique names, after a [Remove] that succeeded
    the name removed is not found any more, every other name is found as
    before, the names are still unique and the registry has one entry
    less. *)
Theorem Remove_then_lookup {St D : Type} `{PublishedStorage St} `{Database D}
    (heap : ptr -> PublishedRepo) (st st' : St)
    (c c' : PublishedRepoCollection D) (prefix distribution : string) :
  unique_names heap c ->
  Remove heap st c prefix distribution = (Ok tt, st', c') ->
  ByPrefixDistribution heap c' prefix distribution
  = Err (Errorf ("published repo with prefix/distribution "
                   +:+ prefix +:+ "/" +:+ distribution +:+ " not found"))
  /\ (forall prefix' distribution' : string,
        (prefix', distribution') <> (prefix, distribution) ->
        ByPrefixDistribution heap c' prefix' distribution'
        = ByPrefixDistribution heap c prefix' distribution')
  /\ unique_names heap c'
  /\ Datatypes.S (Len c') = Len c.
Proof.
  intros Hu Hrun.
  destruct (ByPrefixDistribution heap c prefix distribution) as [X|e|msg] eqn:HX;
    [|unfold Remove in Hrun; by rewrite HX in Hrun..].
  pose proof (Remove_found heap st c prefix distribution X HX) as Hfound.
  destruct (remove_scan heap X 0 (list_ c) true true (-1)) as [[rp rpc] pos] eqn:Hs.
  destruct (RemoveFiles (heap X) rp rpc st) as [[[]|e|msg] st1] eqn:Hf;
    [|rewrite Hfound in Hrun; done..].
  assert (st1 = st') as ->.
  { rewrite Hfound in Hrun. destruct (drop_position _ _); [|done].
    destruct (call _ _). by injection Hrun. }
  destruct (Remove_list heap st st' c c' prefix distribution X (Ok tt) Hu HX)
    as (_ & _ & Hu' & Hmem & Hlen); [by rewrite Hs | done |].
  apply ByPrefixDistribution_Ok in HX as (HXin & HXp & HXd).
  assert (Hlookup : forall (p d : string) (r : ptr),
            find (same_name heap p d) (list_ c') = Some r
            <-> find (same_name heap p d) (list_ c) = Some r /\ r <> X).
  { intros p d r. rewrite !find_unique_name by done. rewrite Hmem. tauto. }
  split; [|split; [|done]].
  - unfold ByPrefixDistribution.
    destruct (find _ (list_ c')) as [r|] eqn:Hr; [|done].
    apply Hlookup in Hr as [Hr Hne]. apply find_unique_name in Hr as [Hrin Hrn]; [|done].
    destruct Hne. apply list_elem_of_lookup_1 in Hrin as [i Hi].
    apply list_elem_of_lookup_1 in HXin as [j Hj].
    destruct (decide (i = j)) as [->|Hij]; [congruence|].
    destruct (Hu i j r X Hi Hj Hij). unfold name_of in Hrn. congruence.
  - intros p d Hne. unfold ByPrefixDistribution.
    destruct (find _ (list_ c')) as [r|] eqn:Hr.
    + apply Hlookup in Hr as [-> _]. done.
    + destruct (find _ (list_ c)) as [r|] eqn:Hr0; [|done].
      assert (r <> X) as HrX.
      { intros ->. apply find_unique_name in Hr0 as [_ Hn]; [|done].
        unfold name_of in Hn. congruence. }
      assert (find (same_name heap p d) (list_ c') = Some r) by by apply Hlookup.
      congruence.
Qed.

Lemma Remove_then_lookup_witness :
  exists (st' : MemStorage) (c' : PublishedRepoCollection (gmap string string)),
    Remove sample_heap sample_tree sample_registry "q" "a" = (Ok tt, st', c')
    /\ ByPrefixDistribution sample_heap c' "q" "a"
       = Err (Errorf "published repo with prefix/distribution q/a not found")
    /\ ByPrefixDistribution sample_heap c' "p" "b" = Ok 1.
Proof.
  pose (run := Remove sample_heap sample_tree sample_registry "q" "a").
  assert (Hrun : run = (Ok tt, run.1.2, run.2)) by (vm_compute; reflexivity).
  exists run.1.2, run.2. split; [exact Hrun|].
  assert (Hu : unique_names sample_heap sample_registry).
  { apply unique_names_NoDup. apply (bool_decide_unpack _). by vm_compute. }
  destruct (Remove_then_lookup sample_heap sample_tree _ sample_registry _
              "q" "a" Hu Hrun) as (Hgone & Hother & _).
  split; [exact Hgone|]. by rewrite (Hother "p" "b").
Defined.

(** X4.  [Remove] takes the entry out of the list before it deletes the
    key: when the files are removed and [Delete] then fails, [Remove]
    returns the error of [Delete], and the entry is gone from the registry
    in memory all the same. *)
Theorem Remove_delete_fails {St D : Type} `{PublishedStorage St} `{Database D}
    (heap : ptr -> PublishedRepo) (st st' : St) (c : PublishedRepoCollection D)
    (prefix distribution : string) (X : ptr) (msg : string) (d' : D) :
  unique_names heap c ->
  ByPrefixDistribution heap c prefix distribution = Ok X ->
  RemoveFiles (heap X)
    (remove_scan heap X 0 (list_ c) true true (-1)).1.1
    (remove_scan heap X 0 (list_ c) true true (-1)).1.2 st = (Ok tt, st') ->
  Delete (Key (heap X)) (db c) = (inr msg, d') ->
  exists c' : PublishedRepoCollection D,
    Remove heap st c prefix distribution = (Err (Foreign msg), st', c')
    /\ db c' = d'
    /\ (forall y : ptr, y ∈ list_ c' <-> y ∈ list_ c /\ y <> X)
    /\ Datatypes.S (Len c') = Len c.
Proof.
  intros Hu HX Hfiles Hdel.
  destruct (Remove heap st c prefix distribution) as [[r st1] c'] eqn:Hrun.
  assert (st1 = st') as ->.
  { rewrite (Remove_found heap st c prefix distribution X HX) in Hrun.
    destruct (remove_scan heap X 0 (list_ c) true true (-1)) as [[rp rpc] pos].
    simpl in Hfiles. rewrite Hfiles in Hrun.
    destruct (drop_position _ _); [|by injection Hrun].
    destruct (call _ _). by injection Hrun. }
  destruct (Remove_list heap st st' c c' prefix distribution X r Hu HX Hfiles Hrun)
    as (Hr & Hdb & _ & Hmem & Hlen).
  unfold call in Hr, Hdb. rewrite Hdel in Hr, Hdb. simpl in Hr, Hdb. subst r.
  by exists c'.
Qed.

Lemma Remove_delete_fails_witness :
  exists c' : PublishedRepoCollection ReadOnlyStore,
    Remove sample_heap sample_tree
           {| db := {| contents := ∅ |}; list_ := [0; 1; 3] |} "q" "a"
    = (Err (Foreign "leveldb: read-only mode"),
       ["p/dists"; "p/dists/a"; "p/dists/b"; "p/pool"; "p/pool/main"], c')
    /\ list_ c' = [0; 1].
Proof.
  assert (Hu : unique_names sample_heap
                 {| db := {| contents := ∅ |}; list_ := [0; 1; 3] |}).
  { apply unique_names_NoDup. apply (bool_decide_unpack _). by vm_compute. }
  assert (Hfiles : RemoveFiles (sample_heap 3)
            (remove_scan sample_heap 3 0 [0; 1; 3] true true (-1)).1.1
            (remove_scan sample_heap 3 0 [0; 1; 3] true true (-1)).1.2
            sample_tree
          = (Ok tt, ["p/dists"; "p/dists/a"; "p/dists/b"; "p/pool"; "p/pool/main"]))
    by (vm_compute; reflexivity).
  destruct (Remove_delete_fails sample_heap sample_tree
              ["p/dists"; "p/dists/a"; "p/dists/b"; "p/pool"; "p/pool/main"]
              {| db := {| contents := ∅ |}; list_ := [0; 1; 3] |}
              "q" "a" 3 "leveldb: read-only mode" {| contents := ∅ |}
              Hu ltac:(reflexivity) Hfiles ltac:(reflexivity))
    as (c' & Hrun & _).
  exists c'. split; [exact Hrun|].
  vm_compute in Hrun. by injection Hrun as <-.
Defined.

(** X5.  [Remove] of a prefix and distribution no entry has returns the
    error of the lookup; it makes no call on the published storage and
    leaves the list and the database as they are. *)
Theorem Remove_missing {St D : Type} `{PublishedStorage St} `{Database D}
    (heap : ptr -> PublishedRepo) (st : St) (c : PublishedRepoCollection D)
    (prefix distribution : string) :
  (forall r : ptr,
     r ∈ list_ c ->
     ~ (Prefix (heap r) = prefix /\ Distribution (heap r) = distribution)) ->
  Remove heap (st, []) c prefix distribution
  = (Err (Errorf ("published repo with prefix/distribution "
                    +:+ prefix +:+ "/" +:+ distribution +:+ " not found")),
     (st, []), c).
Proof.
  intros Hno.
  destruct (ByPrefixDistribution_first heap c prefix distribution)
    as (_ & Herr & _).
  apply Herr in Hno. unfold Remove. by rewrite Hno.
Qed.

Lemma Remove_missing_witness :
  Remove sample_heap (sample_tree, []) sample_registry "p" "wheezy"
  = (Err (Errorf "published repo with prefix/distribution p/wheezy not found"),
     (sample_tree, []), sample_registry).
Proof.
  apply (Remove_missing sample_heap sample_tree sample_registry "p" "wheezy").
  intros r Hr [_ Hd]. apply list_elem_of_In in Hr. simpl in Hr.
  destruct Hr as [<-|[<-|[<-|[]]]]; discriminate Hd.
Defined.



(** X7.  [ForEach] runs the handler on the entries in the order of the
    list, each call in the state the call before has left, and stops at
    the first call that does not return nil: it returns what that call
    returns, an error or a panic, and leaves the state that call left, so
    the handler is not run on the entries after it.  Where no call fails
    in the states the run reaches it returns nil after the last entry,
    and at once on an empty registry. *)
Theorem ForEach_first_error {D W : Type} (c : PublishedRepoCollection D)
    (handler : ptr -> M W unit) (w : W) :
  let reached (n : nat) : W :=
    fold_left (fun w' r0 => (handler r0 w').2) (take n (list_ c)) w in
  (forall (n : nat) (r : ptr) (res : result unit) (w2 : W),
     list_ c !! n = Some r ->
     (forall (i : nat) (r0 : ptr),
        i < n -> list_ c !! i = Some r0 ->
        (handler r0 (reached i)).1 = Ok tt) ->
     handler r (reached n) = (res, w2) -> res <> Ok tt ->
     PublishedRepoCollection_ForEach c handler w = (res, w2))
  /\ (list_ c = [] -> PublishedRepoCollection_ForEach c handler w = (Ok tt, w))
  /\ ((forall (i : nat) (r0 : ptr),
         list_ c !! i = Some r0 -> (handler r0 (reached i)).1 = Ok tt) ->
      PublishedRepoCollection_ForEach c handler w
      = (Ok tt, reached (length (list_ c)))).
Proof.
  unfold PublishedRepoCollection_ForEach. cbv zeta.
  generalize (list_ c). clear c. intros l.
  split; [|split].
  - induction l as [|r0 l IH] in w |- *; intros n r res w2 Hn Hbefore Hr Hres;
      [done|].
    cbn [ForEach_from]. unfold bind. destruct n as [|n].
    + injection Hn as ->. cbn [take fold_left] in Hr. rewrite Hr.
      by destruct res as [[]|e|msg].
    + specialize (Hbefore 0 r0 ltac:(lia) eq_refl) as H0.
      cbn [take fold_left] in H0.
      destruct (handler r0 w) as [res0 w'] eqn:Hcall. cbn [fst] in H0.
      subst res0.
      apply (IH w' n r res w2).
      * exact Hn.
      * intros i r1 Hi Hr1.
        specialize (Hbefore (Datatypes.S i) r1 ltac:(lia) Hr1).
        cbn [take fold_left] in Hbefore. by rewrite Hcall in Hbefore.
      * cbn [take fold_left] in Hr. by rewrite Hcall in Hr.
      * exact Hres.
  - by intros ->.
  - induction l as [|r0 l IH] in w |- *; intros Hall; [done|].
    cbn [ForEach_from length]. unfold bind.
    specialize (Hall 0 r0 eq_refl) as H0. cbn [take fold_left] in H0.
    destruct (handler r0 w) as [res0 w'] eqn:Hcall. cbn [fst] in H0.
    subst res0. cbn [take fold_left]. rewrite Hcall. cbn [snd]. apply IH.
    intros i r1 Hr1. specialize (Hall (Datatypes.S i) r1 Hr1).
    cbn [take fold_left] in Hall. by rewrite Hcall in Hall.
Qed.

Lemma ForEach_first_error_witness :
  PublishedRepoCollection_ForEach sample_registry
    (fun r visited =>
       (if decide (Distribution (sample_heap r) = "b")
        then Err (Errorf "stop") else Ok tt, visited ++ [r])) []
  = (Err (Errorf "stop"), [0; 1])
  /\ PublishedRepoCollection_ForEach sample_registry
       (fun r visited =>
          (if decide (length visited = 5) then Err (Errorf "full") else Ok tt,
           visited ++ [r])) []
     = (Ok tt, [0; 1; 3]).
Proof.
  split.
  - apply (proj1 (ForEach_first_error sample_registry
                    (fun r visited =>
                       (if decide (Distribution (sample_heap r) = "b")
                        then Err (Errorf "stop") else Ok tt, visited ++ [r]))
                    []) 1 1 (Err (Errorf "stop")) [0; 1]).
    + reflexivity.
    + intros [|i] r0 Hi Hr0; [|lia]. by injection Hr0 as <-.
    + reflexivity.
    + discriminate.
  - apply (proj2 (proj2 (ForEach_first_error sample_registry
                    (fun r visited =>
                       (if decide (length visited = 5)
                        then Err (Errorf "full") else Ok tt, visited ++ [r]))
                    []))).
    intros [|[|[|i]]] r0 Hr0; try (by injection Hr0 as <-).
    destruct i; discriminate Hr0.
Defined.

(** ** Loading, completing and printing *)

Lemma Decode_SourceKind `{Codec} (q r : PublishedRepo) (input : string) :
  Decode q input = Ok r -> SourceKind r <> "".
Proof.
  unfold Decode. destruct (codec_Decode input q) as [p|e|msg]; [|done..].
  case_decide as Hk; intros [= <-]; done.
Qed.

Section LoadFacts.
Context `{Codec}.

Lemma load_records_spec (blobs : list string) :
  forall (heap heap' : ptr -> PublishedRepo) (next next' : ptr)
         (loaded loaded' : list ptr),
    load_records blobs heap next loaded = Ok (heap', next', loaded') ->
    (forall r : ptr, r ∈ loaded -> r < next) ->
    exists new : list ptr,
      loaded' = loaded ++ new
      /\ next' = next + length blobs
      /\ (forall r : ptr, r < next -> heap' r = heap r)
      /\ (forall r : ptr, r ∈ new -> next <= r < next')
      /\ NoDup new
      /\ heap' <$> new = omap decoded blobs.
Proof.
  induction blobs as [|blob blobs IH];
    intros heap heap' next next' loaded loaded' Hload Hold.
  - injection Hload as <- <- <-. exists []. rewrite app_nil_r.
    split; [done|]. split; [simpl; lia|]. split; [done|].
    split; [intros y Hy; by apply elem_of_nil in Hy|].
    split; [constructor | done].
  - cbn [load_records] in Hload.
    assert (Hom : omap decoded (blob :: blobs)
                  = match decoded blob with
                    | Some p => p :: omap decoded blobs
                    | None => omap decoded blobs
                    end) by done.
    rewrite Hom. unfold decoded at 1.
    destruct (Decode zero_repo blob) as [p|e|msg] eqn:Hd; [| |done].
    + apply IH in Hload as (new & -> & -> & Hsame & Hrange & Hnd & Hmap).
      2:{ intros y [Hy|Hy]%elem_of_app;
            [apply Hold in Hy | apply list_elem_of_singleton in Hy]; lia. }
      exists (next :: new). rewrite <- app_assoc. split; [done|].
      split; [simpl; lia|]. split; [|split; [|split]].
      * intros r Hr. rewrite Hsame by lia. unfold store.
        rewrite decide_False by lia. done.
      * intros y [->|Hy]%elem_of_cons; [|apply Hrange in Hy]; simpl; lia.
      * constructor; [|done]. intros Hin%Hrange. lia.
      * rewrite fmap_cons, Hmap.
        f_equal. rewrite Hsame by lia. unfold store. by rewrite decide_True.
    + apply IH in Hload as (new & -> & -> & Hsame & Hrange & Hnd & Hmap).
      2:{ intros r Hr%Hold. lia. }
      exists new. split; [done|]. split; [simpl; lia|].
      split; [|split; [|split]].
      * intros r Hr. apply Hsame. lia.
      * intros r Hr%Hrange. simpl. lia.
      * done.
      * done.
Qed.
End LoadFacts.

(** X8.  [NewPublishedRepoCollection] reads the records under the keys
    that start with [U] and keeps, in the order read, the ones that decode,
    each in a struct of its own at a new address; the structs the heap had
    are untouched, and every entry loaded has a [SourceKind] that is not
    empty.  Records that do not decode are skipped. *)
Theorem NewPublishedRepoCollection_loads {D : Type} `{Database D} `{Codec}
    (d : D) (heap heap' : ptr -> PublishedRepo) (next next' : ptr)
    (c : PublishedRepoCollection D) :
  NewPublishedRepoCollection d heap next = Ok (heap', next', c) ->
  db c = d
  /\ heap' <$> list_ c = omap decoded (FetchByPrefix "U" d)
  /\ NoDup (list_ c)
  /\ (forall r : ptr, r ∈ list_ c -> next <= r < next')
  /\ (forall r : ptr, r < next -> heap' r = heap r)
  /\ (forall r : ptr, r ∈ list_ c -> SourceKind (heap' r) <> "")
  /\ Len c <= length (FetchByPrefix "U" d).
Proof.
  unfold NewPublishedRepoCollection.
  destruct (load_records (FetchByPrefix "U" d) heap next [])
    as [[[h n] l]|e|msg] eqn:Hload; [|done..].
  intros [= <- <- <-].
  apply load_records_spec in Hload
      as (new & -> & -> & Hsame & Hrange & Hnd & Hmap);
    [|intros r Hr; by apply elem_of_nil in Hr].
  simpl. split; [done|]. split; [done|]. split; [done|]. split; [done|].
  split; [done|]. split.
  - intros r Hr.
    assert (Hin : h r ∈ h <$> new) by by apply list_elem_of_fmap_2.
    rewrite Hmap in Hin. apply list_elem_of_omap in Hin as (blob & _ & Hb).
    unfold decoded in Hb.
    destruct (Decode zero_repo blob) as [p|e|msg] eqn:Hd; [|done..].
    injection Hb as <-. by apply Decode_SourceKind in Hd.
  - unfold Len. simpl.
    rewrite <- (length_fmap h), Hmap.
    assert (Hlen : forall blobs : list string,
              length (omap decoded blobs) <= length blobs); [|apply Hlen].
    intros blobs. induction blobs as [|blob blobs IH]; [done|].
    change (omap decoded (blob :: blobs))
      with (match decoded blob with
            | Some p => p :: omap decoded blobs
            | None => omap decoded blobs
            end).
    destruct (decoded blob); simpl; lia.
Qed.

Lemma NewPublishedRepoCollection_loads_witness :
  exists (heap' : ptr -> PublishedRepo)
         (c : PublishedRepoCollection (gmap string string)),
    NewPublishedRepoCollection (H0 := Msgpack.codec) sample_store sample_heap 4
    = Ok (heap', 7, c)
    /\ Len c = 2
    /\ SourceKind <$> (heap' <$> list_ c) = ["snapshot"; "snapshot"].
Proof.
  pose (run := NewPublishedRepoCollection (H0 := Msgpack.codec)
                 sample_store sample_heap 4).
  pose (heap' := match run with Ok (h, _, _) => h | _ => sample_heap end).
  pose (c := match run with
             | Ok (_, _, c) => c
             | _ => sample_registry
             end).
  assert (Hrun : run = Ok (heap', 7, c)) by (vm_compute; reflexivity).
  exists heap', c. split; [exact Hrun|].
  destruct (NewPublishedRepoCollection_loads (H0 := Msgpack.codec)
              sample_store sample_heap heap' 4 7 c Hrun)
    as (_ & Hmap & _).
  split; [reflexivity|]. rewrite Hmap. vm_compute. reflexivity.
Defined.

Lemma NewPublishedRepo_Ok_fields (fuel : nat) (newUUID prefix distribution
    component : string) (architectures : list string) (source : Value)
    (collectionFactory : CollectionFactory) (r : PublishedRepo) :
  NewPublishedRepo fuel newUUID prefix distribution component architectures
                   source collectionFactory = Some (Ok r) ->
  UUID r = newUUID /\ Architectures r = architectures
  /\ Prefix r = normalize_prefix prefix
  /\ invalid_prefix (Prefix r) = false
  /\ match source with
     | VSnapshot s =>
         SourceKind r = "snapshot" /\ SourceUUID r = Snapshot.UUID s
         /\ snapshot r = Some s /\ localRepo r = None
     | VLocalRepo l =>
         SourceKind r = "local" /\ SourceUUID r = LocalRepo.UUID l
         /\ snapshot r = None /\ localRepo r = Some l
     | _ => False
     end.
Proof.
  unfold NewPublishedRepo. intros Hr.
  destruct source as [s|l|rr|]; try done;
    destruct (invalid_prefix (normalize_prefix prefix)) eqn:Hp; try done;
    destruct (bool_decide (component = "") || bool_decide (distribution = ""));
    try (destruct (walk _ _ _ _ _) as [[[rcs rds]|e|msg]|]; try done;
         destruct (guess_distribution distribution rds); try done);
    injection Hr as <-; done.
Qed.

(** X9.  A repository made by [NewPublishedRepo], encoded, decoded into a
    new struct and completed by [LoadComplete] is the repository made, when
    the codec gives back what it was given and the collection of the
    source has the source under its UUID.  When the collection does not
    have it, [LoadComplete] returns the error of the lookup and the handle
    stays nil. *)
Theorem LoadComplete_restores `{Codec} (lookup_error : string -> string)
    (fuel : nat) (newUUID prefix distribution component : string)
    (architectures : list string) (source : Value)
    (collectionFactory : CollectionFactory) (r : PublishedRepo) :
  NewPublishedRepo fuel newUUID prefix distribution component architectures
                   source collectionFactory = Some (Ok r) ->
  codec_Decode (codec_Encode r) zero_repo = Ok (persisted r zero_repo) ->
  Decode zero_repo (Encode r) = Ok (persisted r zero_repo)
  /\ (forall cf : CollectionFactory,
        match source with
        | VSnapshot s => SnapshotCollection_ByUUID cf (Snapshot.UUID s) = Some s
        | VLocalRepo l => LocalRepoCollection_ByUUID cf (LocalRepo.UUID l) = Some l
        | _ => False
        end ->
        LoadComplete lookup_error (persisted r zero_repo) cf = (Ok tt, r))
  /\ (forall cf : CollectionFactory,
        match source with
        | VSnapshot s => SnapshotCollection_ByUUID cf (Snapshot.UUID s) = None
        | VLocalRepo l => LocalRepoCollection_ByUUID cf (LocalRepo.UUID l) = None
        | _ => False
        end ->
        LoadComplete lookup_error (persisted r zero_repo) cf
        = (Err (Foreign (lookup_error (SourceUUID r))), persisted r zero_repo)).
Proof.
  intros Hnew Hround.
  apply NewPublishedRepo_Ok_fields in Hnew as (_ & _ & _ & _ & Hsrc).
  split; [|split].
  - unfold Decode, Encode. rewrite Hround. simpl.
    rewrite decide_False; [done|].
    destruct source; try done; by destruct Hsrc as (-> & _).
  - intros cf Hcf. unfold LoadComplete. simpl.
    destruct source as [s|l| |]; try done;
      destruct Hsrc as (Hk & Hu & Hs & Hl); rewrite Hk, Hu; simpl.
    + rewrite Hcf. f_equal. destruct r; simpl in *. by subst.
    + rewrite Hcf. f_equal. destruct r; simpl in *. by subst.
  - intros cf Hcf. unfold LoadComplete. simpl.
    destruct source as [s|l| |]; try done;
      destruct Hsrc as (Hk & Hu & Hs & Hl); rewrite Hk, Hu; simpl.
    + by rewrite Hcf.
    + by rewrite Hcf.
Qed.

Lemma LoadComplete_restores_witness :
  exists r : PublishedRepo,
    NewPublishedRepo 9 "6ba7" "/debian/" "" "" ["amd64"] (VSnapshot snapshot_s1)
                     sample_factory = Some (Ok r)
    /\ LoadComplete (fun uuid => "snapshot with uuid " +:+ uuid +:+ " not found")
         (persisted r zero_repo) sample_factory
       = (Ok tt, r).
Proof.
  pose (r := {| UUID := "6ba7"; Prefix := "debian"; Distribution := "wheezy";
                Component := "main"; Architectures := ["amd64"];
                SourceKind := "snapshot"; SourceUUID := "s1";
                snapshot := Some snapshot_s1; localRepo := None |}).
  assert (Hnew : NewPublishedRepo 9 "6ba7" "/debian/" "" "" ["amd64"]
                   (VSnapshot snapshot_s1) sample_factory = Some (Ok r))
    by (vm_compute; reflexivity).
  assert (Hround : codec_Decode (Codec := Msgpack.codec)
                     (codec_Encode (Codec := Msgpack.codec) r) zero_repo
                   = Ok (persisted r zero_repo))
    by (vm_compute; reflexivity).
  exists r. split; [exact Hnew|].
  destruct (LoadComplete_restores (H := Msgpack.codec)
              (fun uuid => "snapshot with uuid " +:+ uuid +:+ " not found")
              9 "6ba7" "/debian/" "" "" ["amd64"] (VSnapshot snapshot_s1)
              sample_factory r Hnew Hround) as (_ & Hload & _).
  apply Hload. reflexivity.
Defined.

(** X10.  [String] panics exactly on a repository that has neither
    handle, and never returns an error.  So it gives the description of a
    repository made by [NewPublishedRepo], which starts with prefix, slash
    and distribution, and panics on the same repository as decoded into a
    new struct, until [LoadComplete] has set the handle. *)
Theorem String_needs_handle (Snapshot_String : Snapshot.t -> string)
    (LocalRepo_String : LocalRepo.t -> string)
    (fuel : nat) (newUUID prefix distribution component : string)
    (architectures : list string) (source : Value)
    (collectionFactory : CollectionFactory) (r : PublishedRepo) :
  NewPublishedRepo fuel newUUID prefix distribution component architectures
                   source collectionFactory = Some (Ok r) ->
  PublishedRepo_String Snapshot_String LocalRepo_String r
  = Ok (Prefix r +:+ "/" +:+ Distribution r +:+ " (" +:+ Component r
        +:+ ") [" +:+ strings_Join architectures ", " +:+ "] publishes "
        +:+ match source with
            | VSnapshot s => Snapshot_String s
            | VLocalRepo l => LocalRepo_String l
            | _ => ""
            end)
  /\ PublishedRepo_String Snapshot_String LocalRepo_String
       (persisted r zero_repo)
     = Panic "no snapshot/localRepo"
  /\ (forall p : PublishedRepo,
        (exists msg : string,
           PublishedRepo_String Snapshot_String LocalRepo_String p = Panic msg)
        <-> snapshot p = None /\ localRepo p = None)
  /\ (forall (p : PublishedRepo) (e : error),
        PublishedRepo_String Snapshot_String LocalRepo_String p <> Err e).
Proof.
  intros Hnew.
  apply NewPublishedRepo_Ok_fields in Hnew as (_ & Ha & _ & _ & Hsrc).
  split; [|split; [done|split]].
  - unfold PublishedRepo_String.
    destruct source as [s|l| |]; try done;
      destruct Hsrc as (_ & _ & Hs & Hl); by rewrite ?Hs, ?Hl, Ha.
  - intros p. unfold PublishedRepo_String.
    destruct (snapshot p), (localRepo p); split;
      try (intros [msg Hm]; done); try (intros [? ?]; done).
    intros _. by eexists.
  - intros p e. unfold PublishedRepo_String.
    by destruct (snapshot p), (localRepo p).
Qed.

Lemma String_needs_handle_witness :
  PublishedRepo_String Snapshot.UUID LocalRepo.UUID
    {| UUID := "6ba7"; Prefix := "debian"; Distribution := "wheezy";
       Component := "main"; Architectures := ["amd64"; "i386"];
       SourceKind := "snapshot"; SourceUUID := "s1";
       snapshot := Some snapshot_s1; localRepo := None |}
  = Ok "debian/wheezy (main) [amd64, i386] publishes s1".
Proof.
  assert (Hnew : NewPublishedRepo 9 "6ba7" "/debian/" "" "" ["amd64"; "i386"]
                   (VSnapshot snapshot_s1) sample_factory
                 = Some (Ok {| UUID := "6ba7"; Prefix := "debian";
                               Distribution := "wheezy"; Component := "main";
                               Architectures := ["amd64"; "i386"];
                               SourceKind := "snapshot"; SourceUUID := "s1";
                               snapshot := Some snapshot_s1;
                               localRepo := None |}))
    by (vm_compute; reflexivity).
  destruct (String_needs_handle Snapshot.UUID LocalRepo.UUID 9 "6ba7" "/debian/"
              "" "" ["amd64"; "i386"] (VSnapshot snapshot_s1) sample_factory
              _ Hnew) as (Hs & _).
  exact Hs.
Defined.

(** ** Keys *)

Lemma Key_parts (P P' D D' : string) :
  no_gt P = true -> no_gt P' = true ->
  P +:+ ">>" +:+ D = P' +:+ ">>" +:+ D' -> P = P' /\ D = D'.
Proof.
  revert P'. induction P as [|c P IH]; intros [|c' P'] HP HP' Heq.
  - change (String ">" (String ">" D) = String ">" (String ">" D')) in Heq.
    by injection Heq as ->.
  - change (String ">" (String ">" D) = String c' (P' +:+ ">>" +:+ D')) in Heq.
    injection Heq as <- _. by vm_compute in HP'.
  - change (String c (P +:+ ">>" +:+ D) = String ">" (String ">" D')) in Heq.
    injection Heq as -> _. by vm_compute in HP.
  - change (String c (P +:+ ">>" +:+ D) = String c' (P' +:+ ">>" +:+ D')) in Heq.
    injection Heq as -> Heq.
    unfold no_gt in HP, HP'. simpl in HP, HP'.
    apply andb_true_iff in HP as [_ HP], HP' as [_ HP'].
    destruct (IH P' HP HP' Heq) as [-> ->]. done.
Qed.

(** X11.  The key starts with [U], the prefix under which
    [NewPublishedRepoCollection] reads.  Two repositories whose prefixes
    have no [>] have the same key only when they have the same prefix and
    distribution, so in a registry with unique names and such prefixes no
    two entries are stored under one key.  Without the condition two names
    can share a key. *)
Theorem Key_injective (heap : ptr -> PublishedRepo) (D : Type)
    (c : PublishedRepoCollection D) :
  unique_names heap c ->
  (forall r : ptr, r ∈ list_ c -> no_gt (Prefix (heap r)) = true) ->
  NoDup ((fun r => Key (heap r)) <$> list_ c)
  /\ (forall p q : PublishedRepo,
        no_gt (Prefix p) = true -> no_gt (Prefix q) = true ->
        Key p = Key q ->
        Prefix p = Prefix q /\ Distribution p = Distribution q)
  /\ (forall p : PublishedRepo, strings_HasPrefix (Key p) "U" = true)
  /\ (exists p q : PublishedRepo,
        Key p = Key q /\ Prefix p <> Prefix q
        /\ invalid_prefix (Prefix p) = false /\ invalid_prefix (Prefix q) = false).
Proof.
  intros Hu Hgt.
  assert (Hinj : forall p q : PublishedRepo,
            no_gt (Prefix p) = true -> no_gt (Prefix q) = true ->
            Key p = Key q ->
            Prefix p = Prefix q /\ Distribution p = Distribution q).
  { intros p q Hp Hq Hk. unfold Key in Hk.
    change ("U" +:+ ?x) with (String "U" x) in Hk. injection Hk as Hk.
    by apply Key_parts. }
  split; [|split; [done|split]].
  - apply NoDup_alt. intros i j k Hi Hj.
    apply list_lookup_fmap_Some in Hi as (a & -> & Ha).
    apply list_lookup_fmap_Some in Hj as (b & Hk & Hb).
    destruct (decide (i = j)) as [|Hne]; [done|].
    destruct (Hinj (heap a) (heap b)) as [Hp Hd]; [| |done|].
    + apply Hgt. by apply list_elem_of_lookup_2 in Ha.
    + apply Hgt. by apply list_elem_of_lookup_2 in Hb.
    + destruct (Hu i j a b Ha Hb Hne). congruence.
  - intros p. unfold Key. change ("U" +:+ ?x) with (String "U" x).
    generalize (Prefix p +:+ ">>" +:+ Distribution p). intros rest.
    unfold strings_HasPrefix. change (String.length "U") with 1.
    rewrite bool_decide_eq_true_2 by (simpl; lia).
    change (String.substring 0 1 (String "U" rest))
      with (String "U" (String.substring 0 0 rest)).
    replace (String.substring 0 0 rest) with "" by by destruct rest.
    done.
  - exists (sample_repo "u0" "a>>b" "c" "main"),
           (sample_repo "u1" "a" "b>>c" "main").
    by vm_compute.
Qed.

Lemma Key_injective_witness :
  NoDup ((fun r => Key (sample_heap r)) <$> list_ sample_registry).
Proof.
  apply (Key_injective sample_heap _ sample_registry).
  - apply unique_names_NoDup. apply (bool_decide_unpack _). by vm_compute.
  - intros r Hr. apply list_elem_of_In in Hr. simpl in Hr.
    destruct Hr as [<-|[<-|[<-|[]]]]; reflexivity.
Defined.

(** ** More on the guessing of distribution and component *)

Lemma unanimous_sort_singleton (x : string) :
  unanimous (sort_Strings [x]) = Some x.
Proof.
  apply unanimous_sort. split; [done|].
  by intros y ->%list_elem_of_singleton.
Qed.

Lemma unanimous_sort_nil : unanimous (sort_Strings []) = None.
Proof. reflexivity. Qed.

(** X13.  For a local repo as source, and a prefix that is accepted, the
    walk ends at the local repo itself, whatever the collections hold: a
    distribution left empty becomes the default distribution of the local
    repo, and the construction fails when that is empty too; a component
    left empty becomes the default component, or [main] when that is
    empty. *)
Theorem NewPublishedRepo_local_repo (fuel : nat)
    (newUUID prefix distribution component : string)
    (architectures : list string) (l : LocalRepo.t)
    (collectionFactory : CollectionFactory) :
  invalid_prefix (normalize_prefix prefix) = false ->
  1 <= fuel ->
  let d := if decide (distribution = "") then LocalRepo.DefaultDistribution l
           else distribution in
  let c := if decide (component = "") then
             if decide (LocalRepo.DefaultComponent l = "") then "main"
             else LocalRepo.DefaultComponent l
           else component in
  NewPublishedRepo fuel newUUID prefix distribution component architectures
                   (VLocalRepo l) collectionFactory
  = if decide (d = "") then
      Some (Err (Errorf "unable to guess distribution name, please specify explicitly"))
    else
      Some (Ok {| UUID := newUUID; Prefix := normalize_prefix prefix;
                  Distribution := d; Component := c;
                  Architectures := architectures;
                  SourceKind := "local"; SourceUUID := LocalRepo.UUID l;
                  snapshot := None; localRepo := Some l |}).
Proof.
  intros Hp Hfuel d c.
  pose (rds := if decide (LocalRepo.DefaultDistribution l <> "")
               then [LocalRepo.DefaultDistribution l] else []).
  pose (rcs := if decide (LocalRepo.DefaultComponent l <> "")
               then [LocalRepo.DefaultComponent l] else []).
  assert (Hwalk : walk fuel collectionFactory [VLocalRepo l] [] []
                  = Some (Ok (rcs, rds))).
  { destruct fuel as [|fuel]; [lia|]. cbn [walk app]. by destruct fuel. }
  assert (Hgd : guess_distribution distribution rds
                = if decide (d = "") then
                    Err (Errorf "unable to guess distribution name, please specify explicitly")
                  else Ok d).
  { subst d rds. unfold guess_distribution.
    destruct (decide (distribution = "")) as [_|Hd]; [|by rewrite decide_False].
    destruct (decide (LocalRepo.DefaultDistribution l = "")) as [E|E].
    - rewrite (decide_False (P := LocalRepo.DefaultDistribution l <> ""))
        by (intros Hn; by apply Hn).
      by rewrite unanimous_sort_nil.
    - rewrite (decide_True (P := LocalRepo.DefaultDistribution l <> "")) by done.
      by rewrite unanimous_sort_singleton. }
  assert (Hgc : guess_component component rcs = c).
  { subst c rcs. unfold guess_component.
    destruct (decide (component = "")) as [_|Hc]; [|done].
    destruct (decide (LocalRepo.DefaultComponent l = "")) as [E|E].
    - rewrite (decide_False (P := LocalRepo.DefaultComponent l <> ""))
        by (intros Hn; by apply Hn).
      by rewrite unanimous_sort_nil.
    - rewrite (decide_True (P := LocalRepo.DefaultComponent l <> "")) by done.
      by rewrite unanimous_sort_singleton. }
  unfold NewPublishedRepo. rewrite Hp.
  destruct (bool_decide (component = "") || bool_decide (distribution = ""))
    eqn:Hguess.
  - rewrite Hwalk, Hgd, Hgc. by destruct (decide (d = "")).
  - apply orb_false_iff in Hguess as [Hc%bool_decide_eq_false Hd%bool_decide_eq_false].
    subst d c.
    rewrite (decide_False (P := distribution = "")) by done.
    rewrite (decide_False (P := component = "")) by done.
    by rewrite decide_False.
Qed.

Lemma NewPublishedRepo_local_repo_witness :
  NewPublishedRepo 1 "6ba7" "testing" "" "" []
                   (VLocalRepo (LocalRepo.Build "l1" "squeeze" "")) sample_factory
  = Some (Ok {| UUID := "6ba7"; Prefix := "testing";
                Distribution := "squeeze"; Component := "main";
                Architectures := [];
                SourceKind := "local"; SourceUUID := "l1";
                snapshot := None;
                localRepo := Some (LocalRepo.Build "l1" "squeeze" "") |}).
Proof.
  exact (NewPublishedRepo_local_repo 1 "6ba7" "testing" "" "" []
           (LocalRepo.Build "l1" "squeeze" "") sample_factory
           eq_refl (le_n 1)).
Defined.

Lemma push_sources_repo (cf : CollectionFactory) (s : Snapshot.t)
    (ids : list string) :
  Snapshot.SourceKind s = "repo" ->
  forall current : list Value,
    fold_left (push_source cf s) ids current
    = current ++ (VRemoteRepo <$> omap (RemoteRepoCollection_ByUUID cf) ids).
Proof.
  intros Hk. induction ids as [|uuid ids IH]; intros current.
  - by rewrite app_nil_r.
  - cbn [fold_left]. rewrite IH. unfold push_source.
    rewrite decide_True by done.
    change (omap (RemoteRepoCollection_ByUUID cf) (uuid :: ids))
      with (match RemoteRepoCollection_ByUUID cf uuid with
            | Some r => r :: omap (RemoteRepoCollection_ByUUID cf) ids
            | None => omap (RemoteRepoCollection_ByUUID cf) ids
            end).
    destruct (RemoteRepoCollection_ByUUID cf uuid); [|done].
    by rewrite fmap_cons, <- app_assoc.
Qed.

Lemma walk_mirrors (cf : CollectionFactory) (mirrors : list RemoteRepo.t) :
  forall (fuel : nat) (rcs rds : list string),
    length mirrors <= fuel ->
    walk fuel cf (VRemoteRepo <$> mirrors) rcs rds
    = Some (Ok (rcs ++ concat (RemoteRepo.Components <$> mirrors),
                rds ++ filter (fun d => d <> "")
                              (RemoteRepo.Distribution <$> mirrors))).
Proof.
  induction mirrors as [|m mirrors IH]; intros fuel rcs rds Hfuel.
  - simpl. rewrite !app_nil_r. by destruct fuel.
  - destruct fuel as [|fuel]; [simpl in Hfuel; lia|].
    rewrite fmap_cons. cbn [walk]. rewrite IH by (simpl in Hfuel; lia).
    rewrite !fmap_cons. cbn [concat]. rewrite filter_cons.
    destruct (decide (RemoteRepo.Distribution m <> ""));
      by rewrite <- !app_assoc.
Qed.

(** X14.  For a snapshot taken from mirrors, the walk visits the snapshot
    and then each mirror the collection has, skipping the ones it has not,
    and ends; it collects the distributions of these mirrors that are not
    empty and all their components, in the order of the source ids.  With
    distribution and component left empty the repository gets the
    distribution and the component the mirrors agree on, [main] when they
    do not agree on a component, and the construction fails when no mirror
    with a distribution is found. *)
Theorem NewPublishedRepo_snapshot_of_mirrors (fuel : nat)
    (newUUID prefix : string) (architectures : list string) (s : Snapshot.t)
    (collectionFactory : CollectionFactory) :
  Snapshot.SourceKind s = "repo" ->
  invalid_prefix (normalize_prefix prefix) = false ->
  let mirrors :=
    omap (RemoteRepoCollection_ByUUID collectionFactory) (Snapshot.SourceIDs s) in
  let rds := filter (fun d => d <> "") (RemoteRepo.Distribution <$> mirrors) in
  let rcs := concat (RemoteRepo.Components <$> mirrors) in
  1 + length mirrors <= fuel ->
  let outcome := NewPublishedRepo fuel newUUID prefix "" "" architectures
                   (VSnapshot s) collectionFactory in
  walk fuel collectionFactory [VSnapshot s] [] [] = Some (Ok (rcs, rds))
  /\ (forall d : string,
        all_are d rds ->
        exists r : PublishedRepo,
          outcome = Some (Ok r) /\ Distribution r = d
          /\ (forall c : string, all_are c rcs -> Component r = c)
          /\ ((~ exists c : string, all_are c rcs) -> Component r = "main"))
  /\ (rds = [] ->
      outcome
      = Some (Err (Errorf "unable to guess distribution name, please specify explicitly"))).
Proof.
  intros Hk Hp mirrors rds rcs Hfuel outcome.
  assert (Hwalk : walk fuel collectionFactory [VSnapshot s] [] []
                  = Some (Ok (rcs, rds))).
  { destruct fuel as [|fuel]; [lia|]. cbn [walk].
    rewrite push_sources_repo by done. rewrite app_nil_l.
    fold mirrors. rewrite walk_mirrors by lia. done. }
  split; [done|].
  assert (Hout : outcome
            = match guess_distribution "" rds with
              | Ok d =>
                  Some (Ok {| UUID := newUUID; Prefix := normalize_prefix prefix;
                              Distribution := d;
                              Component := guess_component "" rcs;
                              Architectures := architectures;
                              SourceKind := "snapshot";
                              SourceUUID := Snapshot.UUID s;
                              snapshot := Some s; localRepo := None |})
              | Err e => Some (Err e)
              | Panic msg => Some (Panic msg)
              end).
  { subst outcome. unfold NewPublishedRepo. rewrite Hp.
    rewrite (bool_decide_eq_true_2 ("" = "")) by done. cbn [orb].
    by rewrite Hwalk. }
  split.
  - intros d Hd%unanimous_sort. rewrite Hout. unfold guess_distribution.
    rewrite decide_True by done. rewrite Hd. eexists. split; [done|].
    split; [done|]. simpl. unfold guess_component.
    rewrite decide_True by done. split.
    + intros c Hc%unanimous_sort. by rewrite Hc.
    + intros Hn%unanimous_sort_None. by rewrite Hn.
  - intros Hnil. rewrite Hout, Hnil. done.
Qed.

Lemma NewPublishedRepo_snapshot_of_mirrors_witness :
  exists r : PublishedRepo,
    NewPublishedRepo 3 "6ba7" "" "" "" []
      (VSnapshot (Snapshot.Build "s5" "repo" ["r1"; "gone"; "r2"]))
      sample_factory = Some (Ok r)
    /\ Distribution r = "wheezy" /\ Component r = "main".
Proof.
  destruct (NewPublishedRepo_snapshot_of_mirrors 3 "6ba7" "" []
              (Snapshot.Build "s5" "repo" ["r1"; "gone"; "r2"]) sample_factory
              eq_refl eq_refl ltac:(vm_compute; lia)) as (_ & Hok & _).
  destruct (Hok "wheezy") as (r & Hr & Hd & _ & Hmain).
  { split; [done|]. intros x Hx. apply list_elem_of_In in Hx.
    vm_compute in Hx. destruct Hx as [<-|[<-|[]]]; reflexivity. }
  exists r. split; [exact Hr|]. split; [exact Hd|]. apply Hmain.
  intros (c & _ & Hall).
  assert ("main" = c) by (apply Hall; apply list_elem_of_In; vm_compute; tauto).
  assert ("contrib" = c) by (apply Hall; apply list_elem_of_In; vm_compute; tauto).
  congruence.
Defined.

(** ** What the walk does not guard against, and what it guarantees *)

Section WalkFacts.
Variable cf : CollectionFactory.

Lemma push_source_grows (s : Snapshot.t) (current : list Value) (uuid : string) :
  exists more : list Value,
    push_source cf s current uuid = current ++ more
    /\ (VOther ∉ more)
    /\ (Snapshot.SourceKind s = "snapshot" ->
        forall s' : Snapshot.t,
          SnapshotCollection_ByUUID cf uuid = Some s' -> VSnapshot s' ∈ more).
Proof.
  unfold push_source.
  destruct (decide (Snapshot.SourceKind s = "repo")) as [Hrepo|Hrepo].
  { destruct (RemoteRepoCollection_ByUUID cf uuid) as [r|].
    - exists [VRemoteRepo r]. split; [done|]. split.
      + by intros [=]%list_elem_of_singleton.
      + intros Hk. rewrite Hk in Hrepo. done.
    - exists []. rewrite app_nil_r. split; [done|]. split.
      + apply not_elem_of_nil.
      + intros Hk. rewrite Hk in Hrepo. done. }
  destruct (decide (Snapshot.SourceKind s = "local")) as [Hlocal|Hlocal].
  { destruct (LocalRepoCollection_ByUUID cf uuid) as [l|].
    - exists [VLocalRepo l]. split; [done|]. split.
      + by intros [=]%list_elem_of_singleton.
      + intros Hk. rewrite Hk in Hlocal. done.
    - exists []. rewrite app_nil_r. split; [done|]. split.
      + apply not_elem_of_nil.
      + intros Hk. rewrite Hk in Hlocal. done. }
  destruct (decide (Snapshot.SourceKind s = "snapshot")) as [Hsnap|Hsnap].
  { destruct (SnapshotCollection_ByUUID cf uuid) as [s0|].
    - exists [VSnapshot s0]. split; [done|]. split.
      + by intros [=]%list_elem_of_singleton.
      + intros _ s' [= <-]. by apply list_elem_of_singleton.
    - exists []. rewrite app_nil_r. split; [done|]. split.
      + apply not_elem_of_nil.
      + intros _ s' [=]. }
  exists []. rewrite app_nil_r. split; [done|]. split.
  - apply not_elem_of_nil.
  - intros Hk. done.
Qed.

Lemma push_sources_grow (s : Snapshot.t) (ids : list string) :
  forall current : list Value,
    exists more : list Value,
      fold_left (push_source cf s) ids current = current ++ more
      /\ (VOther ∉ more)
      /\ (Snapshot.SourceKind s = "snapshot" ->
          forall (uuid : string) (s' : Snapshot.t),
            uuid ∈ ids -> SnapshotCollection_ByUUID cf uuid = Some s' ->
            VSnapshot s' ∈ more).
Proof.
  induction ids as [|uuid ids IH]; intros current.
  - exists []. rewrite app_nil_r. split; [done|]. split; [apply not_elem_of_nil|].
    intros _ u s' Hu. by apply elem_of_nil in Hu.
  - cbn [fold_left].
    destruct (push_source_grows s current uuid) as (m1 & -> & Hno1 & Hin1).
    destruct (IH (current ++ m1)) as (m2 & -> & Hno2 & Hin2).
    exists (m1 ++ m2). rewrite <- app_assoc. split; [done|]. split.
    + rewrite elem_of_app. tauto.
    + intros Hk u s' [->|Hu]%elem_of_cons Hs'; rewrite elem_of_app.
      * left. by apply Hin1.
      * right. by apply (Hin2 Hk u).
Qed.

(** With a snapshot that is among its own sources on the frontier, the
    walk is never done. *)
Lemma walk_cycle (s : Snapshot.t) (uuid : string) :
  Snapshot.SourceKind s = "snapshot" ->
  uuid ∈ Snapshot.SourceIDs s ->
  SnapshotCollection_ByUUID cf uuid = Some s ->
  forall (fuel : nat) (current : list Value) (rcs rds : list string),
    VSnapshot s ∈ current -> VOther ∉ current ->
    walk fuel cf current rcs rds = None.
Proof.
  intros Hk Hu Hs. induction fuel as [|fuel IH]; intros current rcs rds Hin Hno.
  - destruct current; [by apply elem_of_nil in Hin | done].
  - destruct current as [|head current]; [by apply elem_of_nil in Hin|].
    apply not_elem_of_cons in Hno as [Hhead Hno].
    cbn [walk]. destruct head as [s'|l|r|]; [| | |done].
    + destruct (push_sources_grow s' (Snapshot.SourceIDs s') current)
        as (more & -> & Hnomore & Hmore).
      apply IH.
      * apply elem_of_cons in Hin as [[= <-]|Hin]; rewrite elem_of_app.
        -- right. by apply (Hmore Hk uuid).
        -- by left.
      * rewrite elem_of_app. tauto.
    + apply IH; [|done]. by apply elem_of_cons in Hin as [[=]|Hin].
    + apply IH; [|done]. by apply elem_of_cons in Hin as [[=]|Hin].
Qed.

(** The distributions the walk collects are not empty. *)
Lemma walk_distributions (fuel : nat) :
  forall (current : list Value) (rcs rds rcs' rds' : list string),
    walk fuel cf current rcs rds = Some (Ok (rcs', rds')) ->
    Forall (fun d => d <> "") rds -> Forall (fun d => d <> "") rds'.
Proof.
  induction fuel as [|fuel IH]; intros current rcs rds rcs' rds' Hw Hall.
  - destruct current; [|done]. by injection Hw as <- <-.
  - destruct current as [|head current]; [by injection Hw as <- <-|].
    cbn [walk] in Hw. destruct head as [s|l|r|]; [| | |done].
    + by eapply IH.
    + eapply IH; [exact Hw|].
      destruct (decide (LocalRepo.DefaultDistribution l <> "")); [|done].
      apply Forall_app. split; [done|]. by constructor.
    + eapply IH; [exact Hw|].
      destruct (decide (RemoteRepo.Distribution r <> "")); [|done].
      apply Forall_app. split; [done|]. by constructor.
Qed.
End WalkFacts.

(** X15.  The walk has no guard against a cycle: for a snapshot that is
    among its own sources, a construction that has to guess the
    distribution or the component never returns, however many iterations
    are allowed; with both given there is no walk and the repository is
    returned. *)
Theorem NewPublishedRepo_cycle (newUUID prefix distribution component : string)
    (architectures : list string) (s : Snapshot.t) (uuid : string)
    (collectionFactory : CollectionFactory) :
  Snapshot.SourceKind s = "snapshot" ->
  uuid ∈ Snapshot.SourceIDs s ->
  SnapshotCollection_ByUUID collectionFactory uuid = Some s ->
  invalid_prefix (normalize_prefix prefix) = false ->
  (distribution = "" \/ component = "" ->
   forall fuel : nat,
     NewPublishedRepo fuel newUUID prefix distribution component architectures
                      (VSnapshot s) collectionFactory = None)
  /\ (distribution <> "" -> component <> "" ->
      forall fuel : nat,
        NewPublishedRepo fuel newUUID prefix distribution component
                         architectures (VSnapshot s) collectionFactory
        = Some (Ok {| UUID := newUUID; Prefix := normalize_prefix prefix;
                      Distribution := distribution; Component := component;
                      Architectures := architectures;
                      SourceKind := "snapshot"; SourceUUID := Snapshot.UUID s;
                      snapshot := Some s; localRepo := None |})).
Proof.
  intros Hk Hu Hs Hp. split.
  - intros Hempty fuel. unfold NewPublishedRepo. rewrite Hp.
    assert (bool_decide (component = "") || bool_decide (distribution = "")
            = true) as ->.
    { apply orb_true_iff. rewrite !bool_decide_eq_true. tauto. }
    rewrite (walk_cycle collectionFactory s uuid Hk Hu Hs); [done| |].
    + left.
    + by intros [=]%list_elem_of_singleton.
  - intros Hd Hc fuel. unfold NewPublishedRepo. rewrite Hp.
    by rewrite !bool_decide_eq_false_2.
Qed.

Lemma NewPublishedRepo_cycle_witness :
  NewPublishedRepo 1000 "6ba7" "." "" "main" []
    (VSnapshot (Snapshot.Build "loop" "snapshot" ["s1"; "loop"]))
    {| RemoteRepoCollection_ByUUID := RemoteRepoCollection_ByUUID sample_factory;
       LocalRepoCollection_ByUUID := fun _ => None;
       SnapshotCollection_ByUUID := fun uuid =>
         if decide (uuid = "loop")
         then Some (Snapshot.Build "loop" "snapshot" ["s1"; "loop"])
         else SnapshotCollection_ByUUID sample_factory uuid |}
  = None.
Proof.
  apply (NewPublishedRepo_cycle "6ba7" "." "" "main" []
           (Snapshot.Build "loop" "snapshot" ["s1"; "loop"]) "loop").
  - reflexivity.
  - apply list_elem_of_In. simpl. tauto.
  - reflexivity.
  - reflexivity.
  - by left.
Defined.

(** X16.  The distribution of a repository [NewPublishedRepo] returns is
    never empty: it is the one given, or one the walk has collected, and
    the walk collects no empty distribution.  The component is empty only
    when none was given and the walk has collected an empty component
    from a mirror. *)
Theorem NewPublishedRepo_distribution_not_empty (fuel : nat)
    (newUUID prefix distribution component : string)
    (architectures : list string) (source : Value)
    (collectionFactory : CollectionFactory) (r : PublishedRepo) :
  NewPublishedRepo fuel newUUID prefix distribution component architectures
                   source collectionFactory = Some (Ok r) ->
  Distribution r <> ""
  /\ (distribution <> "" -> Distribution r = distribution)
  /\ (component <> "" -> Component r = component)
  /\ (Component r = "" ->
      component = ""
      /\ exists rcs rds : list string,
           walk fuel collectionFactory [source] [] [] = Some (Ok (rcs, rds))
           /\ all_are "" rcs).
Proof.
  unfold NewPublishedRepo.
  destruct source as [s|l|rr|]; try done;
    destruct (invalid_prefix (normalize_prefix prefix)); try done;
    (destruct (bool_decide (component = "") || bool_decide (distribution = ""))
       eqn:Hguess;
     [ destruct (walk _ _ _ _ _) as [[[rcs rds]|e|msg]|] eqn:Hwalk; try done;
       unfold guess_distribution, guess_component;
       pose proof (walk_distributions _ _ _ _ _ _ _ Hwalk ltac:(constructor))
         as Hnonempty;
       destruct (decide (distribution = "")) as [Hd|Hd];
       [ destruct (unanimous (sort_Strings rds)) as [d|] eqn:Hu; [|done];
         apply unanimous_sort in Hu as Hall
       | ];
       intros [= <-]; simpl;
       (split; [|split; [done|split]]);
       [ try (intros ->; destruct Hall as [Hne Hall];
              destruct rds as [|x rds]; [done|];
              apply Forall_cons in Hnonempty as [Hx _];
              apply Hx, Hall; left)
       | intros Hc; by rewrite decide_False
       | intros Hempty; destruct (decide (component = "")) as [Hc|Hc]; [|done];
         split; [done|]; exists rcs, rds; split; [done|];
         destruct (unanimous (sort_Strings rcs)) as [c|] eqn:Hcs; [|done];
         subst c; by apply unanimous_sort
       | done
       | intros Hc; by rewrite decide_False
       | intros Hempty; destruct (decide (component = "")) as [Hc|Hc]; [|done];
         split; [done|]; exists rcs, rds; split; [done|];
         destruct (unanimous (sort_Strings rcs)) as [c|] eqn:Hcs; [|done];
         subst c; by apply unanimous_sort ]
     | apply orb_false_iff in Hguess as [Hc%bool_decide_eq_false Hd%bool_decide_eq_false];
       intros [= <-]; simpl; repeat split; try done; intros; congruence ]).
Qed.

Lemma NewPublishedRepo_distribution_not_empty_witness :
  exists r : PublishedRepo,
    NewPublishedRepo 9 "6ba7" "." "" "" ["amd64"] (VSnapshot snapshot_s1)
                     sample_factory = Some (Ok r)
    /\ Distribution r <> "" /\ Component r = "main".
Proof.
  pose (r := {| UUID := "6ba7"; Prefix := "."; Distribution := "wheezy";
                Component := "main"; Architectures := ["amd64"];
                SourceKind := "snapshot"; SourceUUID := "s1";
                snapshot := Some snapshot_s1; localRepo := None |}).
  assert (Hrun : NewPublishedRepo 9 "6ba7" "." "" "" ["amd64"]
                   (VSnapshot snapshot_s1) sample_factory = Some (Ok r))
    by (vm_compute; reflexivity).
  exists r. split; [exact Hrun|]. split; [|reflexivity].
  exact (proj1 (NewPublishedRepo_distribution_not_empty
                  9 "6ba7" "." "" "" ["amd64"] (VSnapshot snapshot_s1)
                  sample_factory r Hrun)).
Defined.

(** ** Further properties of Publish *)

Section PublishMore.
Context {St Pkg RefList : Type}.
Context `{PublishedStorage St} `{Publishing St Pkg RefList}.

Lemma never_panics_ret {A : Type} (a : A) : never_panics (S := St) (ret a).
Proof. by intros s msg. Qed.

Lemma never_panics_call {A : Type} (c : Reply St A) : never_panics (call c).
Proof.
  intros s msg. unfold call. by destruct (c s) as [[a|e] s'].
Qed.

Lemma never_panics_bind {A B : Type} (m : M St A) (k : A -> M St B) :
  never_panics m -> (forall a : A, never_panics (k a)) ->
  never_panics (bind m k).
Proof.
  intros Hm Hk s msg. unfold bind. specialize (Hm s).
  destruct (m s) as [[a|e|msg'] s']; [apply Hk|done|].
  by destruct (Hm msg').
Qed.

Lemma never_panics_wrap {A : Type} (format : string) (m : M St A) :
  never_panics m -> never_panics (wrap format m).
Proof.
  intros Hm s msg. unfold wrap. specialize (Hm s).
  destruct (m s) as [[a|e|msg'] s']; [done|done|].
  by destruct (Hm msg').
Qed.

Lemma never_panics_ForEach (packages : list Pkg) (handler : Pkg -> M St unit) :
  (forall pkg : Pkg, never_panics (handler pkg)) ->
  never_panics (ForEach packages handler).
Proof.
  intros Hh. induction packages as [|pkg packages IH]; cbn [ForEach].
  - apply never_panics_ret.
  - apply never_panics_bind; [apply Hh | by intros _].
Qed.

Local Ltac no_panic :=
  repeat first
    [ apply never_panics_ret
    | apply never_panics_call
    | apply never_panics_wrap
    | apply never_panics_ForEach; intros ?
    | apply never_panics_bind; [|intros ?]
    | match goal with |- never_panics (if ?b then _ else _) => destruct b end
    | by intros ? ? ].

Lemma never_panics_publish_architecture (p : PublishedRepo)
    (packages : list Pkg) (generatedFiles : gmap string ChecksumInfo)
    (arch : string) :
  never_panics (publish_architecture p packages generatedFiles arch).
Proof. unfold publish_architecture. no_panic. Qed.

Lemma never_panics_publish_architectures (p : PublishedRepo)
    (packages : list Pkg) (archs : list string) :
  forall generatedFiles : gmap string ChecksumInfo,
    never_panics (publish_architectures p packages generatedFiles archs).
Proof.
  induction archs as [|arch archs IH]; intros generatedFiles;
    cbn [publish_architectures].
  - apply never_panics_ret.
  - apply never_panics_bind; [apply never_panics_publish_architecture|].
    intros g. apply IH.
Qed.

Lemma never_panics_write_release (p : PublishedRepo) (release : Stanza)
    (signer : bool) :
  never_panics (write_release p release signer).
Proof. unfold write_release. no_panic. Qed.

Lemma never_panics_materialize (p : PublishedRepo) (packages : list Pkg)
    (signer : bool) :
  never_panics (materialize p packages signer).
Proof.
  unfold materialize.
  apply never_panics_bind; [apply never_panics_publish_architectures|].
  intros g. apply never_panics_bind; [by intros ? ?|].
  intros date. apply never_panics_write_release.
Qed.

(** One architecture adds its three files to the map, and nothing else. *)
Lemma publish_architecture_Ok (p : PublishedRepo) (packages : list Pkg)
    (generatedFiles generatedFiles' : gmap string ChecksumInfo)
    (arch : string) (st st' : St) :
  publish_architecture p packages generatedFiles arch st
  = (Ok generatedFiles', st') ->
  exists c1 c2 c3 : ChecksumInfo,
    generatedFiles'
    = <[relativePath p arch +:+ ".bz2" := c3]>
        (<[relativePath p arch +:+ ".gz" := c2]>
           (<[relativePath p arch := c1]> generatedFiles)).
Proof.
  unfold publish_architecture. fold (relativePath p arch).
  generalize (relativePath p arch). intros rel.
  unfold bind, ret.
  repeat match goal with
         | |- context [match ?m ?s with (r, s') => _ end] =>
             destruct (m s) as [[?|?|?] ?]; try done
         | |- context [let (r, s') := ?m in _] =>
             destruct m as [[?|?|?] ?]; try done
         end.
  intros [= <- <-]. by eexists _, _, _.
Qed.
End PublishMore.

(** X17.  [Publish] panics in one case only: the two directories have
    been made and the repository has neither its snapshot nor its local
    repository at hand; the message is then "no source".  With a source
    at hand it returns, with an error or without. *)
Theorem Publish_panics_without_source {St Pkg RefList : Type}
    `{PublishedStorage St} `{Publishing St Pkg RefList}
    (p : PublishedRepo) (signer : bool) (st : St) (msg : string) :
  (Publish p signer st).1.1 = Panic msg
  <-> msg = "no source" /\ snapshot p = None /\ localRepo p = None
      /\ exists st1 st2 : St,
           MkDir (filepath_Join [Prefix p; "pool"]) st = (inl tt, st1)
           /\ MkDir (basePath p) st1 = (inl tt, st2).
Proof.
  unfold Publish, load_packages, bind, call, panic, ret.
  destruct (MkDir (filepath_Join [Prefix p; "pool"]) st) as [[[]|e1] st1];
    [|split; [done | by intros (_ & _ & _ & ? & ? & [=] & _)]].
  destruct (MkDir (basePath p) st1) as [[[]|e2] st2] eqn:Hbase;
    [|split; [done|]; intros (_ & _ & _ & ? & ? & [= <-] & Hbase');
      by rewrite Hbase in Hbase'].
  destruct (snapshot p) as [s|] eqn:Hs.
  { split; [|by intros (_ & [=] & _)].
    unfold wrap, call.
    destruct (NewPackageListFromRefList (Snapshot_RefList s) st2)
      as [[packages|e] st3]; [|done].
    destruct (settle_architectures p packages) as [p'|e|m] eqn:Hsettle;
      [|done|].
    - pose proof (never_panics_materialize p' packages signer st3 msg) as Hnp.
      by destruct (materialize p' packages signer st3) as [r st4].
    - unfold settle_architectures in Hsettle. by repeat case_decide. }
  destruct (localRepo p) as [l|] eqn:Hl.
  { split; [|by intros (_ & _ & [=] & _)].
    unfold wrap, call.
    destruct (NewPackageListFromRefList (LocalRepo_RefList l) st2)
      as [[packages|e] st3]; [|done].
    destruct (settle_architectures p packages) as [p'|e|m] eqn:Hsettle;
      [|done|].
    - pose proof (never_panics_materialize p' packages signer st3 msg) as Hnp.
      by destruct (materialize p' packages signer st3) as [r st4].
    - unfold settle_architectures in Hsettle. by repeat case_decide. }
  unfold wrap. simpl. split.
  - intros [= <-]. repeat split; try done. by exists st1, st2.
  - by intros (-> & _).
Qed.

(** X18.  When the loop over the architectures ends without error, the
    generated files are those there were before and, for each
    architecture, the index, its [.gz] and its [.bz2], under the path of
    the component: [source/Sources] for the source architecture,
    [binary-<arch>/Packages] for another. *)
Theorem publish_architectures_files {St Pkg RefList : Type}
    `{PublishedStorage St} `{Publishing St Pkg RefList}
    (p : PublishedRepo) (packages : list Pkg) (archs : list string) :
  forall (generatedFiles generatedFiles' : gmap string ChecksumInfo)
         (st st' : St),
    publish_architectures p packages generatedFiles archs st
    = (Ok generatedFiles', st') ->
    forall path : string,
      is_Some (generatedFiles' !! path)
      <-> is_Some (generatedFiles !! path)
          \/ exists arch : string,
               arch ∈ archs /\ path ∈ generated_names p arch.
Proof.
  induction archs as [|arch archs IH];
    intros generatedFiles generatedFiles' st st' Hrun path;
    cbn [publish_architectures] in Hrun.
  - injection Hrun as <- <-. split; [by left|].
    intros [?|(a & Ha & _)]; [done|]. by apply elem_of_nil in Ha.
  - unfold bind in Hrun.
    destruct (publish_architecture p packages generatedFiles arch st)
      as [[g|e|m] st1] eqn:Hone; [|done|done].
    apply publish_architecture_Ok in Hone as (c1 & c2 & c3 & ->).
    rewrite (IH _ _ _ _ Hrun path).
    rewrite !lookup_insert_is_Some. unfold generated_names.
    split.
    + intros [[Hp|[_ [Hp|[_ [Hp|[_ Hgf]]]]]]|(a & Ha & Hin)].
      * right. exists arch. split; [left|]. subst path.
        apply list_elem_of_In. simpl. tauto.
      * right. exists arch. split; [left|]. subst path.
        apply list_elem_of_In. simpl. tauto.
      * right. exists arch. split; [left|]. subst path.
        apply list_elem_of_In. simpl. tauto.
      * by left.
      * right. exists a. split; [by right | done].
    + intros [Hgf|(a & [->|Ha]%elem_of_cons & Hin)].
      * left.
        destruct (decide (relativePath p arch +:+ ".bz2" = path)); [by left|].
        right. split; [done|].
        destruct (decide (relativePath p arch +:+ ".gz" = path)); [by left|].
        right. split; [done|].
        destruct (decide (relativePath p arch = path)); [by left|].
        right. by split.
      * left. apply list_elem_of_In in Hin. simpl in Hin.
        destruct (decide (relativePath p arch +:+ ".bz2" = path)); [by left|].
        right. split; [done|].
        destruct (decide (relativePath p arch +:+ ".gz" = path)); [by left|].
        right. split; [done|].
        destruct (decide (relativePath p arch = path)); [by left|].
        exfalso. destruct Hin as [?|[?|[?|[]]]]; congruence.
      * right. by exists a.
Qed.

Lemma publish_architectures_files_witness :
  exists (generatedFiles : gmap string ChecksumInfo) (st' : MemStorage),
    publish_architectures (set_Architectures published_s1 ["amd64"; "source"])
      [ {| pkg_name := "nginx"; pkg_arch := "amd64" |};
        {| pkg_name := "nginx"; pkg_arch := "source" |} ]
      ∅ ["amd64"; "source"] ["dists/stable"; "pool"]
    = (Ok generatedFiles, st')
    /\ is_Some (generatedFiles !! "main/source/Sources.gz")
    /\ ~ is_Some (generatedFiles !! "main/binary-i386/Packages").
Proof.
  pose (p' := set_Architectures published_s1 ["amd64"; "source"]).
  pose (packages := [ {| pkg_name := "nginx"; pkg_arch := "amd64" |};
                      {| pkg_name := "nginx"; pkg_arch := "source" |} ]).
  pose (run := publish_architectures p' packages ∅ ["amd64"; "source"]
                 ["dists/stable"; "pool"]).
  pose (generatedFiles := match run.1 with Ok g => g | _ => ∅ end).
  assert (Hgen : run = (Ok generatedFiles, run.2))
    by (vm_compute; reflexivity).
  pose proof (publish_architectures_files p' packages ["amd64"; "source"]
                ∅ generatedFiles ["dists/stable"; "pool"] run.2 Hgen)
    as Hfiles.
  exists generatedFiles, run.2. split; [exact Hgen|]. split.
  - apply Hfiles. right. exists "source". split.
    + apply list_elem_of_In. simpl. tauto.
    + apply list_elem_of_In. vm_compute. tauto.
  - intros [Hsome|(arch & Harch & Hin)]%Hfiles.
    + rewrite lookup_empty in Hsome. by destruct Hsome.
    + apply list_elem_of_In in Harch. simpl in Harch.
      apply list_elem_of_In in Hin.
      destruct Harch as [<-|[<-|[]]]; vm_compute in Hin;
        destruct Hin as [?|[?|[?|[]]]]; discriminate.
Defined.

(** ** The sums of the Release file *)

Section ReleaseSums.



End ReleaseSums.


(** ** Publishing again *)

Lemma sort_Strings_sorted (l : list string) :
  Sorted String.le l -> sort_Strings l = l.
Proof.
  intros Hsorted. apply (Sorted_unique String.le).
  - apply Sorted_merge_sort. apply _.
  - done.
  - apply merge_sort_Permutation.
Qed.

(** X20.  The architectures [Publish] has settled are stable: with the
    same packages, settling the repository it gives back gives the same
    repository again, whether the architectures were given or taken from
    the packages. *)
Theorem settle_architectures_again {St Pkg RefList : Type}
    `{PublishedStorage St} `{Publishing St Pkg RefList}
    (p p' : PublishedRepo) (packages : list Pkg) :
  settle_architectures p packages = Ok p' ->
  settle_architectures p' packages = Ok p'.
Proof.
  rewrite !settle_architectures_eq.
  destruct (decide (packages = [])) as [|Hp]; [done|]. cbv zeta.
  set (computed := if decide (Architectures p = []) then _ else _).
  destruct (decide (computed = [])) as [|Hc]; [done|].
  intros [= <-]. cbn [Architectures set_Architectures].
  assert (sort_Strings computed <> []) as Hs.
  { intros Hnil. apply Hc. apply Permutation_nil_r.
    rewrite <- Hnil. symmetry. apply merge_sort_Permutation. }
  rewrite (decide_False (P := sort_Strings computed = [])) by done.
  rewrite (decide_False (P := sort_Strings computed = [])) by done.
  rewrite (sort_Strings_sorted (sort_Strings computed)); [done|].
  apply Sorted_merge_sort. apply _.
Qed.

Lemma settle_architectures_again_witness :
  settle_architectures (St := MemStorage)
    (set_Architectures published_s1 ["amd64"; "source"])
    [ {| pkg_name := "nginx"; pkg_arch := "amd64" |};
      {| pkg_name := "nginx"; pkg_arch := "source" |} ]
  = Ok (set_Architectures published_s1 ["amd64"; "source"]).
Proof.
  apply (settle_architectures_again (St := MemStorage) published_s1).
  vm_compute. reflexivity.
Defined.

(** ** The shape of a cleaned path *)

Lemma strings_Split_all_no_slash (s : string) :
  Forall (fun e => no_slash e = true) (strings_Split s "/").
Proof.
  induction s as [|c s IH]; cbn [strings_Split].
  - by constructor.
  - case_decide as Hc.
    + by constructor.
    + destruct (strings_Split s "/") as [|x xs].
      * constructor; [|done]. unfold no_slash. cbn.
        by rewrite bool_decide_eq_false_2.
      * apply Forall_cons in IH as [Hx Hxs]. constructor; [|done].
        unfold no_slash in *. cbn. by rewrite bool_decide_eq_false_2.
Qed.

Lemma strings_Split_Join_no_slash (segs : list string) :
  Forall (fun s => no_slash s = true) segs -> segs <> [] ->
  strings_Split (strings_Join segs "/") "/" = segs.
Proof.
  induction 1 as [|s segs Hp Hs IH]; [done|]. intros _.
  destruct segs as [|s' segs].
  - simpl. by apply strings_Split_no_slash.
  - rewrite strings_Join_cons by done.
    change ("/" +:+ ?x) with (String "/" x).
    rewrite strings_Split_app, IH by done.
    by rewrite strings_Split_no_slash.
Qed.

Lemma canonical_stack_nil (rooted : bool) : canonical_stack rooted [].
Proof. exists [], 0. by repeat split. Qed.

Lemma clean_element_canonical (rooted : bool) (out : list string) (e : string) :
  canonical_stack rooted out -> no_slash e = true ->
  canonical_stack rooted (clean_element rooted out e).
Proof.
  intros (reals & k & -> & Hreals & Hk) He. unfold clean_element.
  destruct (decide (e = "")); [by exists reals, k|].
  destruct (decide (e = ".")); [by exists reals, k|].
  destruct (decide (e = "..")) as [->|Hdd].
  - destruct reals as [|x reals].
    + cbn [app]. destruct k as [|k].
      * cbn. destruct rooted; [apply canonical_stack_nil|].
        exists [], 1. by repeat split.
      * cbn. destruct rooted; [by specialize (Hk eq_refl)|].
        exists [], (S (S k)). by repeat split.
    + apply Forall_cons in Hreals as [Hx Hreals].
      assert (x <> "..") as Hne by (by intros ->).
      cbn. rewrite bool_decide_eq_true_2 by done.
      by exists reals, k.
  - exists (e :: reals), k. split; [done|]. split; [|done].
    constructor; [|done]. unfold plain_segment.
    by rewrite !bool_decide_eq_false_2, He.
Qed.

Lemma fold_clean_canonical (rooted : bool) (segs : list string) :
  Forall (fun e => no_slash e = true) segs ->
  forall out : list string,
    canonical_stack rooted out ->
    canonical_stack rooted (fold_left (clean_element rooted) segs out).
Proof.
  induction 1 as [|e segs He _ IH]; intros out Hout; [done|].
  cbn [fold_left]. apply IH. by apply clean_element_canonical.
Qed.

Lemma rev_replicate {A : Type} (k : nat) (x : A) :
  rev (replicate k x) = replicate k x.
Proof.
  induction k as [|k IH]; [done|]. cbn [replicate rev]. rewrite IH.
  clear IH. induction k as [|k IH]; [done|]. cbn. by rewrite IH.
Qed.

(** What [Clean] returns: a rooted path gives the root followed by
    ordinary elements; another path gives a cleaned relative path. *)
Lemma filepath_Clean_shape (path : string) :
  (strings_HasPrefix path "/" = true
   /\ exists reals : list string,
        Forall (fun s => plain_segment s = true) reals
        /\ filepath_Clean path = "/" +:+ strings_Join reals "/")
  \/ (strings_HasPrefix path "/" = false
      /\ relative_path (filepath_Clean path)).
Proof.
  unfold filepath_Clean. destruct (decide (path = "")) as [->|Hne].
  { right. split; [done | by left]. }
  cbv zeta.
  pose proof (fold_clean_canonical (strings_HasPrefix path "/")
                (strings_Split path "/") (strings_Split_all_no_slash path)
                [] (canonical_stack_nil _)) as (reals & k & -> & Hreals & Hk).
  destruct (strings_HasPrefix path "/").
  - left. split; [done|]. rewrite (Hk eq_refl), app_nil_r.
    unfold clean_render. rewrite decide_False by done.
    exists (rev reals). split; [|done]. by apply List.Forall_rev.
  - right. split; [done|]. unfold clean_render.
    change ("" +:+ ?x) with x.
    rewrite rev_app_distr, rev_replicate.
    case_decide as Hbuf; [by left|]. right.
    exists k, (rev reals). split; [by apply List.Forall_rev|].
    split; [|done]. intros Hnil. by rewrite Hnil in Hbuf.
Qed.

Lemma relative_path_no_root (path : string) :
  relative_path path -> strings_HasPrefix path "/" = false.
Proof.
  intros [->|(k & reals & Hreals & Hne & ->)]; [done|].
  assert (forall (e : string) (rest : list string),
            e <> "" -> strings_HasPrefix e "/" = false ->
            strings_HasPrefix (strings_Join (e :: rest) "/") "/" = false)
    as Hhead.
  { intros e rest He Hroot. destruct rest as [|e' rest]; [done|].
    rewrite strings_Join_cons by done. by rewrite strings_HasPrefix_app. }
  destruct k as [|k].
  - cbn [replicate app] in *. destruct Hreals as [|e reals He _]; [done|].
    apply Hhead; [by destruct e | by apply strings_HasPrefix_plain].
  - cbn [replicate app]. by apply Hhead.
Qed.

Lemma slice_from_1 (c : ascii) (s : string) : slice_from 1 (String c s) = s.
Proof.
  unfold slice_from. cbn [String.length].
  replace (S (String.length s) - 1) with (String.length s) by lia.
  cbn [substring]. apply substring_all.
Qed.

Lemma slice_to_no_root (n : nat) (s : string) :
  strings_HasPrefix s "/" = false ->
  strings_HasPrefix (slice_to n s) "/" = false.
Proof.
  unfold slice_to. destruct s as [|c s]; [by destruct n|].
  destruct n as [|n]; [done|]. cbn [substring].
  by rewrite !strings_HasPrefix_slash.
Qed.

(** The prefix [NewPublishedRepo] works with is a cleaned relative
    path. *)
Lemma normalize_prefix_relative (prefix : string) :
  relative_path (normalize_prefix prefix).
Proof.
  unfold normalize_prefix. cbv zeta.
  set (once := filepath_Clean prefix).
  set (no_lead := if strings_HasPrefix once "/" then slice_from 1 once
                  else once).
  assert (strings_HasPrefix no_lead "/" = false) as Hlead.
  { subst no_lead once.
    destruct (filepath_Clean_shape prefix)
      as [(_ & reals & Hreals & ->)|(_ & Hrel)].
    - change ("/" +:+ ?x) with (String "/" x).
      rewrite strings_HasPrefix_slash, bool_decide_eq_true_2 by done.
      rewrite slice_from_1.
      destruct reals as [|e reals]; [done|].
      apply relative_path_no_root. right. exists 0, (e :: reals). by cbn.
    - by rewrite (relative_path_no_root _ Hrel), (relative_path_no_root _ Hrel). }
  match goal with
  | |- relative_path (filepath_Clean ?x) =>
      assert (strings_HasPrefix x "/" = false) as Hx
        by (destruct (strings_HasSuffix no_lead "/");
            [by apply slice_to_no_root | done]);
      destruct (filepath_Clean_shape x) as [(Hroot & _)|(_ & Hrel)];
        [congruence | done]
  end.
Qed.

Lemma strings_HasSuffix_cons (c : ascii) (s : string) :
  s <> "" ->
  strings_HasSuffix (String c s) "/" = strings_HasSuffix s "/".
Proof.
  destruct s as [|d s]; [done|]. intros _. unfold strings_HasSuffix.
  change (String.length "/") with 1. cbn [String.length].
  rewrite !bool_decide_eq_true_2 by lia.
  replace (S (S (String.length s)) - 1) with (S (String.length s)) by lia.
  replace (S (String.length s) - 1) with (String.length s) by lia.
  done.
Qed.

Lemma strings_HasSuffix_app (a b : string) :
  b <> "" -> strings_HasSuffix (a +:+ b) "/" = strings_HasSuffix b "/".
Proof.
  intros Hb. induction a as [|c a IH]; [done|].
  change (String c a +:+ b) with (String c (a +:+ b)).
  rewrite strings_HasSuffix_cons; [done|]. by destruct a, b.
Qed.

Lemma strings_HasSuffix_no_slash (s : string) :
  no_slash s = true -> strings_HasSuffix s "/" = false.
Proof.
  unfold no_slash. induction s as [|c s IH]; [done|]. cbn [list_ascii_of_string forallb].
  intros [Hc Hs]%andb_true_iff. destruct s as [|d s].
  - apply negb_true_iff, bool_decide_eq_false in Hc.
    unfold strings_HasSuffix. cbn. apply bool_decide_eq_false.
    intros [= ->]. done.
  - rewrite strings_HasSuffix_cons by done. by apply IH.
Qed.

Lemma strings_HasSuffix_Join_plain (parts : list string) :
  Forall (fun s => plain_segment s = true) parts ->
  strings_HasSuffix (strings_Join parts "/") "/" = false.
Proof.
  induction 1 as [|e parts He Hparts IH]; [done|].
  destruct parts as [|e' parts].
  - by apply strings_HasSuffix_no_slash, plain_segment_no_slash.
  - rewrite strings_Join_cons by done.
    rewrite strings_HasSuffix_app.
    + rewrite strings_HasSuffix_app; [done|].
      by apply (strings_Join_plain_nonempty (e' :: parts) []).
    + done.
Qed.

(** X12.  The prefix of a repository [NewPublishedRepo] returns is a
    relative path in its shortest form: [.], or ordinary elements joined
    by single slashes, none of them empty, [.], [..], [dists] or [pool];
    it has no leading slash, and given as a prefix again it is kept as it
    is. *)
Theorem NewPublishedRepo_prefix_canonical (fuel : nat)
    (newUUID prefix distribution component : string)
    (architectures : list string) (source : Value)
    (collectionFactory : CollectionFactory) (r : PublishedRepo) :
  NewPublishedRepo fuel newUUID prefix distribution component architectures
                   source collectionFactory = Some (Ok r) ->
  (Prefix r = "."
   \/ exists parts : list string,
        parts <> []
        /\ Prefix r = strings_Join parts "/"
        /\ Forall (fun part => plain_segment part = true
                               /\ part <> "dists" /\ part <> "pool") parts)
  /\ strings_HasPrefix (Prefix r) "/" = false
  /\ normalize_prefix (Prefix r) = Prefix r.
Proof.
  intros (_ & _ & Hprefix & Hvalid & _)%NewPublishedRepo_Ok_fields.
  pose proof (normalize_prefix_relative prefix) as Hrel.
  rewrite <- Hprefix in Hrel. clear Hprefix.
  assert (Prefix r = "."
          \/ exists parts : list string,
               parts <> []
               /\ Prefix r = strings_Join parts "/"
               /\ Forall (fun part => plain_segment part = true
                                      /\ part <> "dists" /\ part <> "pool")
                         parts) as Hshape.
  { destruct Hrel as [?|(k & reals & Hreals & Hne & Hjoin)]; [by left|].
    right. rewrite Hjoin in Hvalid. unfold invalid_prefix in Hvalid.
    rewrite strings_Split_Join_no_slash in Hvalid; [|
      apply Forall_app; split;
        [ apply Forall_forall; by intros x [-> _]%elem_of_replicate
        | eapply Forall_impl; [exact Hreals|];
          intros x; apply plain_segment_no_slash ] | done].
    destruct k as [|k]; [|done]. cbn [replicate app] in *.
    exists reals. split; [done|]. split; [done|].
    apply Forall_forall. intros part Hpart. split.
    - by eapply Forall_forall in Hreals.
    - assert (forbidden_part part = false) as Hf.
      { apply not_true_iff_false. intros Hf.
        apply not_true_iff_false in Hvalid. apply Hvalid.
        apply existsb_exists. exists part. split; [|done].
        by apply list_elem_of_In. }
      unfold forbidden_part in Hf.
      apply orb_false_iff in Hf as [[_ Hd]%orb_false_iff Hp].
      by apply bool_decide_eq_false in Hd, Hp. }
  split; [done|]. split; [by apply relative_path_no_root|].
  destruct Hshape as [->|(parts & Hne & -> & Hparts)]; [done|].
  assert (Forall (fun s => plain_segment s = true) parts) as Hplain.
  { eapply Forall_impl; [exact Hparts|]. by intros x [? _]. }
  assert (filepath_Clean (strings_Join parts "/") = strings_Join parts "/")
    as Hclean.
  { rewrite filepath_Clean_plain by done. unfold clean_render.
    by rewrite rev_involutive. }
  unfold normalize_prefix. cbv zeta. rewrite Hclean.
  rewrite (relative_path_no_root (strings_Join parts "/"))
    by (right; by exists 0, parts).
  by rewrite strings_HasSuffix_Join_plain.
Qed.

Lemma NewPublishedRepo_prefix_canonical_witness :
  normalize_prefix "ppa/stable" = "ppa/stable".
Proof.
  assert (Hrun : NewPublishedRepo 0 "6ba7" "//ppa/./x/../stable/" "wheezy"
                   "main" ["amd64"] (VSnapshot snapshot_s1) sample_factory
                 = Some (Ok {| UUID := "6ba7"; Prefix := "ppa/stable";
                               Distribution := "wheezy"; Component := "main";
                               Architectures := ["amd64"];
                               SourceKind := "snapshot"; SourceUUID := "s1";
                               snapshot := Some snapshot_s1;
                               localRepo := None |}))
    by (vm_compute; reflexivity).
  exact (proj2 (proj2 (NewPublishedRepo_prefix_canonical
                         0 "6ba7" "//ppa/./x/../stable/" "wheezy" "main"
                         ["amd64"] (VSnapshot snapshot_s1) sample_factory
                         _ Hrun))).
Defined.

(** ** What Add writes is read back *)

(** X21.  A repository added is there again when the registry is loaded
    anew: where the store gives back, under the prefix [U], the value put
    under a key, and the codec gives back what it was given, the registry
    loaded from the store [Add] has written to holds, in a new struct,
    the repository with the fields that are stored ([SourceKind] read as
    ["snapshot"] when empty) and without source handles, and the lookup
    by its prefix and distribution finds an entry of that name. *)
Theorem Add_then_reload {D : Type} `{Database D} `{Codec}
    (heap heap' : ptr -> PublishedRepo) (c c' c'' : PublishedRepoCollection D)
    (x next next' : ptr) :
  (forall (p : PublishedRepo) (value : string) (d d' : D),
     Put (Key p) value d = (inl tt, d') -> value ∈ FetchByPrefix "U" d') ->
  codec_Decode (codec_Encode (heap x)) zero_repo
  = Ok (persisted (heap x) zero_repo) ->
  Add heap c x = (Ok tt, c') ->
  NewPublishedRepoCollection (db c') heap next = Ok (heap', next', c'') ->
  (exists r : ptr,
     r ∈ list_ c'' /\ next <= r
     /\ heap' r
        = persisted
            (set_SourceKind (heap x)
               (if decide (SourceKind (heap x) = "") then "snapshot"
                else SourceKind (heap x)))
            zero_repo)
  /\ exists r : ptr,
       ByPrefixDistribution heap' c'' (Prefix (heap x)) (Distribution (heap x))
       = Ok r
       /\ Prefix (heap' r) = Prefix (heap x)
       /\ Distribution (heap' r) = Distribution (heap x).
Proof.
  intros Hstore Hcodec Hadd Hload.
  assert (Encode (heap x) ∈ FetchByPrefix "U" (db c')) as Hin.
  { unfold Add in Hadd. destruct (CheckDuplicate heap c x); [done|].
    unfold Update, call in Hadd.
    destruct (Put (Key (heap x)) (Encode (heap x)) (db c))
      as [[[]|msg] d'] eqn:Hput; [|done].
    injection Hadd as <-. cbn [db]. by eapply Hstore. }
  assert (decoded (Encode (heap x))
          = Some (persisted
                    (set_SourceKind (heap x)
                       (if decide (SourceKind (heap x) = "") then "snapshot"
                        else SourceKind (heap x)))
                    zero_repo)) as Hdec.
  { unfold decoded, Decode, Encode. rewrite Hcodec.
    cbn [SourceKind persisted]. by case_decide. }
  unfold NewPublishedRepoCollection in Hload.
  destruct (load_records (FetchByPrefix "U" (db c')) heap next [])
    as [[[h n] l]|e|msg] eqn:Hrecords; [|done..].
  injection Hload as <- <- <-.
  apply load_records_spec in Hrecords
      as (new & -> & -> & Hsame & Hrange & Hnd & Hmap);
    [|intros r Hr; by apply elem_of_nil in Hr].
  cbn [app list_] in *.
  assert (exists r : ptr,
            r ∈ new /\ h r = persisted
                               (set_SourceKind (heap x)
                                  (if decide (SourceKind (heap x) = "")
                                   then "snapshot"
                                   else SourceKind (heap x)))
                               zero_repo) as (r & Hr & Hhr).
  { assert (persisted
              (set_SourceKind (heap x)
                 (if decide (SourceKind (heap x) = "") then "snapshot"
                  else SourceKind (heap x))) zero_repo
            ∈ omap decoded (FetchByPrefix "U" (db c'))) as Hp
      by (apply list_elem_of_omap; by eexists).
    rewrite <- Hmap in Hp.
    apply list_elem_of_fmap in Hp as (r & Heq & Hr). by exists r. }
  split.
  - exists r. split; [done|]. split; [by apply Hrange|done].
  - unfold ByPrefixDistribution. cbn [list_].
    destruct (find (same_name h (Prefix (heap x)) (Distribution (heap x))) new)
      as [r'|] eqn:Hfind.
    + exists r'. split; [done|].
      apply find_some in Hfind as [_ Hname].
      apply same_name_true in Hname. unfold name_of in Hname.
      by injection Hname as -> ->.
    + rewrite find_None_iff in Hfind. specialize (Hfind r Hr).
      apply not_true_iff_false in Hfind. destruct Hfind.
      apply same_name_true. unfold name_of. by rewrite Hhr.
Qed.

Lemma mem_database_gives_back (p : PublishedRepo) (value : string)
    (d d' : gmap string string) :
  Put (Key p) value d = (inl tt, d') -> value ∈ FetchByPrefix "U" d'.
Proof.
  intros [= <-]. cbn [FetchByPrefix mem_database].
  apply list_elem_of_fmap. exists (Key p, value). split; [done|].
  apply elem_of_map_to_list, map_lookup_filter_Some.
  split; [apply lookup_insert_eq|].
  unfold Key. cbn [fst]. change ("U" +:+ ?x) with (String "U" x).
  by destruct (Prefix p +:+ ">>" +:+ Distribution p).
Qed.

Lemma Add_then_reload_witness :
  exists (heap' : ptr -> PublishedRepo) (r : ptr),
    heap' r = persisted (sample_heap 2) zero_repo /\ 4 <= r.
Proof.
  pose (added := Add (H1 := Msgpack.codec) sample_heap sample_registry 2).
  pose (run := NewPublishedRepoCollection (H0 := Msgpack.codec)
                 (db added.2) sample_heap 4).
  pose (heap' := match run with Ok (h, _, _) => h | _ => sample_heap end).
  pose (c'' := match run with
               | Ok (_, _, c) => c
               | _ => sample_registry
               end).
  assert (Hadd : added = (Ok tt, added.2)) by (vm_compute; reflexivity).
  assert (Hrun : run = Ok (heap', 5, c'')) by (vm_compute; reflexivity).
  assert (Hcodec : codec_Decode (Codec := Msgpack.codec)
                     (codec_Encode (Codec := Msgpack.codec) (sample_heap 2))
                     zero_repo
                   = Ok (persisted (sample_heap 2) zero_repo))
    by (vm_compute; reflexivity).
  destruct (Add_then_reload (H0 := Msgpack.codec) sample_heap heap'
              sample_registry added.2 c'' 2 4 5
              mem_database_gives_back Hcodec Hadd Hrun)
    as [(r & _ & Hr & Hheap) _].
  exists heap', r. split; [exact Hheap | exact Hr].
Defined.

(** ** The distribution is not checked *)

Lemma filepath_Join_dists_up (P : string) :
  (P = "."
   \/ exists parts : list string,
        parts <> [] /\ P = strings_Join parts "/"
        /\ Forall (fun s => plain_segment s = true) parts) ->
  filepath_Join [P; "dists"; ".."] = P.
Proof.
  intros [->|(parts & Hne & -> & Hparts)]; [by vm_compute|].
  pose proof (strings_Join_plain_nonempty parts [] "/" Hparts Hne) as HP.
  cbn [app] in HP.
  rewrite filepath_Join_cons_nonempty by done.
  rewrite strings_Join_cons by done.
  unfold filepath_Clean.
  rewrite decide_False
    by (destruct (strings_Join parts "/"); [done | discriminate]).
  cbv zeta. rewrite strings_HasPrefix_app by done.
  assert (strings_HasPrefix (strings_Join parts "/") "/" = false) as ->.
  { destruct Hparts as [|e parts He Hparts]; [done|].
    destruct parts as [|e' parts]; [by apply strings_HasPrefix_plain|].
    rewrite strings_Join_cons by done.
    rewrite strings_HasPrefix_app by (by destruct e).
    by apply strings_HasPrefix_plain. }
  change ("/" +:+ ?x) with (String "/" x).
  rewrite strings_Split_app, strings_Split_Join_plain by done.
  rewrite fold_left_app, (fold_clean_plain _ parts), app_nil_r by done.
  change (strings_Split (strings_Join ["dists"; ".."] "/") "/")
    with ["dists"; ".."].
  cbn [fold_left]. rewrite (clean_element_plain _ _ "dists") by done.
  unfold clean_element.
  rewrite (decide_False (P := ".." = "")), (decide_False (P := ".." = ".")),
    (decide_True (P := ".." = "..")) by done.
  cbn [can_backtrack tail]. rewrite bool_decide_eq_true_2 by done.
  unfold clean_render. rewrite rev_involutive.
  by rewrite decide_False.
Qed.

(** X22.  The distribution is not checked as the prefix is: with the
    distribution [..] and a component given, [NewPublishedRepo] returns a
    repository, and for it the directory of the distribution is the
    directory of the prefix itself; [RemoveFiles], asked to remove the
    files of the distribution only, then asks the storage to remove that
    directory, and asks for nothing else. *)
Theorem NewPublishedRepo_distribution_not_checked {St : Type}
    `{PublishedStorage St} (fuel : nat) (newUUID prefix component : string)
    (architectures : list string) (source : Value)
    (collectionFactory : CollectionFactory) (st : St) :
  is_source source = true ->
  invalid_prefix (normalize_prefix prefix) = false ->
  component <> "" ->
  exists r : PublishedRepo,
    NewPublishedRepo fuel newUUID prefix ".." component architectures source
                     collectionFactory = Some (Ok r)
    /\ Distribution r = ".."
    /\ basePath r = Prefix r
    /\ (RemoveFiles r false false (st, [])).2.2 = [CallRemoveDirs (Prefix r)].
Proof.
  intros Hsource Hvalid Hcomponent.
  assert (exists r : PublishedRepo,
            NewPublishedRepo fuel newUUID prefix ".." component architectures
                             source collectionFactory = Some (Ok r)
            /\ Distribution r = "..") as (r & Hr & Hd).
  { unfold NewPublishedRepo. destruct source as [s|l| |]; try done;
      rewrite Hvalid, (bool_decide_eq_false_2 (component = "")) by done;
      cbn [orb bool_decide]; by eexists. }
  exists r. split; [done|]. split; [done|].
  assert (basePath r = Prefix r) as Hbase.
  { unfold basePath. rewrite Hd. apply filepath_Join_dists_up.
    assert (exists fuel' newUUID' prefix' distribution' component'
                   architectures' source' collectionFactory',
              NewPublishedRepo fuel' newUUID' prefix' distribution' component'
                architectures' source' collectionFactory' = Some (Ok r))
      as Hmade by (by repeat eexists).
    clear Hr. destruct Hmade as (? & ? & ? & ? & ? & ? & ? & ? & Hr).
    apply NewPublishedRepo_Ok_fields in Hr as (_ & _ & Hprefix & Hv & _).
    pose proof (normalize_prefix_relative x1) as Hrel.
    rewrite <- Hprefix in Hrel.
    destruct Hrel as [?|(k & reals & Hreals & Hne & Hjoin)]; [by left|].
    right. rewrite Hjoin in Hv. unfold invalid_prefix in Hv.
    rewrite strings_Split_Join_no_slash in Hv; [|
      apply Forall_app; split;
        [ apply Forall_forall; by intros y [-> _]%elem_of_replicate
        | eapply Forall_impl; [exact Hreals|];
          intros y; apply plain_segment_no_slash ] | done].
    destruct k as [|k]; [|done]. by exists reals. }
  split; [done|].
  rewrite RemoveFiles_calls. cbn [app]. fold (basePath r). rewrite Hbase.
  by destruct (RemoveDirs (Prefix r) st) as [[[]|msg] st'].
Qed.

Lemma NewPublishedRepo_distribution_not_checked_witness :
  exists r : PublishedRepo,
    NewPublishedRepo 0 "6ba7" "ppa" ".." "main" [] (VSnapshot snapshot_s1)
                     sample_factory = Some (Ok r)
    /\ Distribution r = ".."
    /\ basePath r = Prefix r
    /\ (RemoveFiles r false false (sample_tree, [])).2.2
       = [CallRemoveDirs (Prefix r)].
Proof.
  apply (NewPublishedRepo_distribution_not_checked 0 "6ba7" "ppa" "main" []
           (VSnapshot snapshot_s1) sample_factory sample_tree).
  - reflexivity.
  - reflexivity.
  - discriminate.
Defined.

(** ** Lookup by UUID *)


